(** * go-paginate: a shallow embedding of the pagination toolkit

    The development follows the Go package [paginate]: the offset
    paginator, the cursor paginator with its token codec, and the range
    parser.  Go's [int] is taken at its 64-bit width (amd64, arm64);
    [int64] arithmetic wraps around and the wrap is written out.  Go
    strings are byte strings and are modelled by [string], one [ascii] per
    byte.  Objects reached through a Go pointer live in an explicit store,
    so that what a method allocates and what it writes is visible. *)

From Stdlib Require Import ZArith Lia List String Ascii Bool SpecFloat.
From stdpp Require Import base gmap strings.
Import ListNotations.
Local Open Scope Z_scope.

(** ** Bytes and machine integers *)

Definition byteZ (c : ascii) : Z := Z.of_N (N_of_ascii c).
Definition chr (z : Z) : ascii := ascii_of_N (Z.to_N z).

Definition MaxInt64 : Z := 2 ^ 63 - 1.
Definition MinInt64 : Z := - 2 ^ 63.
Definition in_int64 (z : Z) : Prop := MinInt64 <= z <= MaxInt64.
Definition in_int64b (z : Z) : bool := (MinInt64 <=? z) && (z <=? MaxInt64).

(** Two's complement wrap-around of a 64-bit signed result. *)
Definition wrap64 (z : Z) : Z := (z + 2 ^ 63) mod 2 ^ 64 - 2 ^ 63.

Definition MaxInt32 : Z := 2 ^ 31 - 1.
Definition MinInt32 : Z := - 2 ^ 31.

(** ** strconv *)

Module strconv.

Definition isDigit (c : ascii) : bool := (48 <=? byteZ c) && (byteZ c <=? 57).
Definition digitChar (d : Z) : ascii := chr (48 + d).

(** [formatBits]: the digits of [u], least significant first, pushed in
    front of [acc]; the loop of the Go function runs while [u >= 10]. *)
Fixpoint formatBits (fuel : nat) (u : Z) (acc : string) : string :=
  match fuel with
  | O => acc
  | S fuel' =>
      if u <? 10 then String (digitChar u) acc
      else formatBits fuel' (u / 10) (String (digitChar (u mod 10)) acc)
  end.

Definition FormatUint (u : Z) : string :=
  formatBits (S (Z.to_nat (Z.log2 u))) u EmptyString.

(** [FormatInt(i, 10)], also what [Itoa] and the verb [%d] print. *)
Definition FormatInt (i : Z) : string :=
  if i <? 0 then String "-" (FormatUint (- i)) else FormatUint i.

(** The value of a run of decimal digits, [None] on any other byte. *)
Fixpoint digitsValue (acc : Z) (s : string) : option Z :=
  match s with
  | EmptyString => Some acc
  | String c rest =>
      if isDigit c then digitsValue (acc * 10 + (byteZ c - 48)) rest else None
  end.

(** [ParseUint(s, 10, 64)] up to the error kind: a syntax error on the
    empty string or on a non-digit, a range error above [2^64 - 1]. *)
Definition ParseUint (s : string) : option Z :=
  match s with
  | EmptyString => None
  | _ => match digitsValue 0 s with
         | Some v => if v <=? 2 ^ 64 - 1 then Some v else None
         | None => None
         end
  end.

(** [ParseInt(s, 10, 64)]: an optional sign, then [ParseUint]; the
    magnitude is checked against the cutoff [2^63].  [None] stands for
    a non-nil [err]. *)
Definition ParseInt (s : string) : option Z :=
  match s with
  | EmptyString => None
  | String c rest =>
      let neg := Ascii.eqb c "-" in
      let body := if Ascii.eqb c "+" || neg then rest else s in
      match digitsValue 0 body with
      | Some un =>
          match body with
          | EmptyString => None
          | _ =>
              if neg then (if un <=? 2 ^ 63 then Some (- un) else None)
              else (if un <? 2 ^ 63 then Some un else None)
          end
      | None => None
      end
  end.

(** [Atoi] is [ParseInt(s, 10, 0)] with [int] of 64 bits. *)
Definition Atoi (s : string) : option Z := ParseInt s.

End strconv.

(** ** Errors and bounds (errors.go, paginate.go) *)

Inductive error : Type :=
| ErrInvalidPage
| ErrInvalidPageSize
| ErrInvalidCursor
| ErrInvalidOffset
| ErrInvalidRange
| Errorf (msg : string) (wrapped : error)
| ExternalError (msg : string).

Definition Error (e : error) : string :=
  match e with
  | ErrInvalidPage => "paginate: page must be >= 1"
  | ErrInvalidPageSize => "paginate: page_size must be between min and max allowed values"
  | ErrInvalidCursor => "paginate: cursor is malformed or invalid"
  | ErrInvalidOffset => "paginate: offset must be >= 0"
  | ErrInvalidRange => "paginate: invalid range parameters"
  | Errorf msg _ => msg
  | ExternalError msg => msg
  end.

Definition DefaultPage : Z := 1.
Definition DefaultPageSize : Z := 20.
Definition MaxPageSize : Z := 1000.
Definition MinPageSize : Z := 1.

(** ** The store of heap objects

    A Go pointer is a location; [&T{...}] allocates a location that the
    store does not hold yet.  Reading or writing through a location that
    holds nothing is the nil dereference and has no result. *)

Definition loc := positive.

Definition M (V A : Type) : Type := gmap loc V -> option (A * gmap loc V).

Definition ret {V A} (a : A) : M V A := fun h => Some (a, h).

Definition bind {V A B} (k : A -> M V B) (m : M V A) : M V B :=
  fun h => match m h with
           | Some (a, h') => k a h'
           | None => None
           end.

#[global] Instance M_ret {V} : MRet (M V) := fun A => @ret V A.
#[global] Instance M_bind {V} : MBind (M V) := fun A B => @bind V A B.

Definition new {V} (v : V) : M V loc :=
  fun h => let l := fresh (dom h) in Some (l, <[l := v]> h).

Definition load {V} (l : loc) : M V V :=
  fun h => match h !! l with
           | Some v => Some (v, h)
           | None => None
           end.

Definition store {V} (l : loc) (v : V) : M V unit :=
  fun h => match h !! l with
           | Some _ => Some (tt, <[l := v]> h)
           | None => None
           end.

(** ** Query values and dynamically typed map entries *)

(** [url.Values] is [map[string][]string]; [Get] is the first value of
    the key, or the empty string. *)
Definition Get (q : gmap string (list string)) (key : string) : string :=
  match q !! key with
  | Some (v :: _) => v
  | _ => EmptyString
  end.

(** ** net/url: [QueryEscape] and [Values.Encode] *)

Module url.

Definition upperhex : string := "0123456789ABCDEF".

Definition upperhexChar (i : Z) : ascii :=
  match String.get (Z.to_nat i) upperhex with
  | Some c => c
  | None => "0"%char
  end.

(** [shouldEscape(c, encodeQueryComponent)]: letters, digits and the
    four bytes [-], [_], [.], [~] are kept, every other byte is
    escaped. *)
Definition shouldEscape (c : ascii) : bool :=
  let b := byteZ c in
  if ((97 <=? b) && (b <=? 122)) || ((65 <=? b) && (b <=? 90))
     || ((48 <=? b) && (b <=? 57))
  then false
  else if (b =? 45) || (b =? 95) || (b =? 46) || (b =? 126) then false
  else true.

(** [escape(s, encodeQueryComponent)]; the library returns [s] itself
    when no byte needs escaping, which is what the loop gives then. *)
Fixpoint QueryEscape (s : string) : string :=
  match s with
  | EmptyString => EmptyString
  | String c rest =>
      if shouldEscape c then
        if byteZ c =? 32 then String "+" (QueryEscape rest)
        else String "%" (String (upperhexChar (Z.shiftr (byteZ c) 4))
                           (String (upperhexChar (Z.land (byteZ c) 15))
                              (QueryEscape rest)))
      else String c (QueryEscape rest)
  end.

(** [slices.Sort(keys)]: the keys in the order of their bytes. *)
Fixpoint insertKey (k : string) (ks : list string) : list string :=
  match ks with
  | [] => [k]
  | k' :: rest => if String.leb k k' then k :: ks else k' :: insertKey k rest
  end.

Definition sortKeys (ks : list string) : list string := foldr insertKey [] ks.

(** The inner loop of [Encode]: one [key=value] for each value of the
    key, with ["&"] before it unless the buffer is empty. *)
Definition writeValues (keyEscaped : string) (vs : list string) (buf : string) : string :=
  fold_left
    (fun buf v =>
       (if Nat.ltb 0 (String.length buf) then buf +:+ "&" else buf)
         +:+ keyEscaped +:+ "=" +:+ QueryEscape v)
    vs buf.

(** [Values.Encode]: the keys sorted, each value escaped. *)
Definition Encode (v : gmap string (list string)) : string :=
  if Nat.eqb (size v) 0 then EmptyString
  else
    fold_left
      (fun buf k => writeValues (QueryEscape k) (default [] (v !! k)) buf)
      (sortKeys (map fst (map_to_list v))) EmptyString.

End url.

(** The dynamic types [extractInt] switches on.  Floating-point values
    are IEEE 754 data; [float32] values are carried at their exact value. *)
Inductive any : Type :=
| AnyInt (i : Z)
| AnyInt64 (i : Z)
| AnyInt32 (i : Z)
| AnyFloat64 (f : spec_float)
| AnyFloat32 (f : spec_float)
| AnyString (s : string)
| AnyOther.

(** The conversion [int(val)] of a floating-point value truncates toward
    zero.  Where the value does not fit, the Go specification leaves the
    result to the implementation; amd64 delivers the least [int64]. *)
Definition float_to_int (f : spec_float) : Z :=
  match f with
  | S754_zero _ => 0
  | S754_finite s m e =>
      let mag := if 0 <=? e then Z.pos m * 2 ^ e else Z.pos m / 2 ^ (- e) in
      let v := if s then - mag else mag in
      if in_int64b v then v else MinInt64
  | _ => MinInt64
  end.

(** ** The offset paginator (paginate.go) *)

Module Paginator.

Record t : Type := mk { Page : Z; PageSize : Z }.

Definition New : M t loc :=
  new {| Page := DefaultPage; PageSize := DefaultPageSize |}.

Definition Clone (p : loc) : M t loc :=
  v ← load p;
  new {| Page := Page v; PageSize := PageSize v |}.

Definition setPage (p : loc) (page : Z) : M t unit :=
  v ← load p; store p {| Page := page; PageSize := PageSize v |}.

Definition setPageSize (p : loc) (size : Z) : M t unit :=
  v ← load p; store p {| Page := Page v; PageSize := size |}.

Definition WithPage (p : loc) (page : Z) : M t loc :=
  clone ← Clone p;
  let page := if page <? 1 then DefaultPage else page in
  _ ← setPage clone page;
  ret clone.

Definition WithPageSize (p : loc) (size : Z) : M t loc :=
  clone ← Clone p;
  let size := if size <? MinPageSize then DefaultPageSize else size in
  let size := if size >? MaxPageSize then MaxPageSize else size in
  _ ← setPageSize clone size;
  ret clone.

Definition NewWithSize (pageSize : Z) : M t loc :=
  p ← New; WithPageSize p pageSize.

Definition NewFromValues (page pageSize : Z) : M t loc :=
  p ← New; p ← WithPage p page; WithPageSize p pageSize.

(** [int64(p.Page-1) * int64(p.PageSize)]: the subtraction is done on
    [int], the product on [int64]. *)
Definition Offset (p : loc) : M t Z :=
  v ← load p; ret (wrap64 (wrap64 (Page v - 1) * PageSize v)).

Definition Limit (p : loc) : M t Z :=
  v ← load p; ret (PageSize v).

Definition Validate (p : loc) : M t (option error) :=
  v ← load p;
  if Page v <? 1 then
    ret (Some (Errorf (Error ErrInvalidPage +:+ ": got " +:+ strconv.FormatInt (Page v))
                      ErrInvalidPage))
  else if (PageSize v <? MinPageSize) || (PageSize v >? MaxPageSize) then
    ret (Some (Errorf (Error ErrInvalidPageSize +:+ ": got " +:+ strconv.FormatInt (PageSize v)
                         +:+ ", allowed range [" +:+ strconv.FormatInt MinPageSize
                         +:+ ", " +:+ strconv.FormatInt MaxPageSize +:+ "]")
                      ErrInvalidPageSize))
  else ret None.

Definition FromQuery (q : gmap string (list string)) : M t loc :=
  p ← New;
  p ← (let pageStr := Get q "page" in
        if negb (String.eqb pageStr "") then
          match strconv.Atoi pageStr with
          | Some page => if page >? 0 then WithPage p page else ret p
          | None => ret p
          end
        else ret p);
  p ← (let sizeStr := Get q "page_size" in
        if negb (String.eqb sizeStr "") then
          match strconv.Atoi sizeStr with
          | Some size => if size >? 0 then WithPageSize p size else ret p
          | None => ret p
          end
        else ret p);
  p ← (let sizeStr := Get q "limit" in
        if negb (String.eqb sizeStr "") && String.eqb (Get q "page_size") "" then
          match strconv.Atoi sizeStr with
          | Some size => if size >? 0 then WithPageSize p size else ret p
          | None => ret p
          end
        else ret p);
  p ← (let sizeStr := Get q "per_page" in
        if negb (String.eqb sizeStr "") && String.eqb (Get q "page_size") "" then
          match strconv.Atoi sizeStr with
          | Some size => if size >? 0 then WithPageSize p size else ret p
          | None => ret p
          end
        else ret p);
  ret p.

Definition extractInt (v : any) : Z :=
  match v with
  | AnyInt val => val
  | AnyInt64 val => val
  | AnyInt32 val => val
  | AnyFloat64 val => float_to_int val
  | AnyFloat32 val => float_to_int val
  | AnyString val =>
      match strconv.Atoi val with
      | Some n => n
      | None => 0
      end
  | AnyOther => 0
  end.

Definition FromMap (m : gmap string any) : M t loc :=
  p ← New;
  p ← match m !! "page"%string with
       | Some v => let page := extractInt v in
                   if page >? 0 then WithPage p page else ret p
       | None => ret p
       end;
  p ← match m !! "page_size"%string with
       | Some v => let size := extractInt v in
                   if size >? 0 then WithPageSize p size else ret p
       | None => ret p
       end;
  ret p.

(** [HasPrevious], [PreviousPage], [NextPage] *)
Definition HasPrevious (p : loc) : M t bool :=
  v ← load p; ret (Page v >? 1).

Definition PreviousPage (p : loc) : M t Z :=
  v ← load p; ret (if Page v <=? 1 then 1 else wrap64 (Page v - 1)).

Definition NextPage (p : loc) : M t Z :=
  v ← load p; ret (wrap64 (Page v + 1)).

(** [TotalPages]: past the first test both operands are positive, so
    the quotient of [int64] is that of the integers; [maxInt] is the
    greatest [int], which is the greatest [int64]. *)
Definition TotalPages (p : loc) (total : Z) : M t Z :=
  v ← load p;
  if (total <=? 0) || (PageSize v <=? 0) then ret 0
  else
    let pages := Z.quot total (PageSize v) in
    let pages := if Z.rem total (PageSize v) >? 0 then wrap64 (pages + 1) else pages in
    if pages >? MaxInt64 then ret MaxInt64 else ret pages.

Definition HasNext (p : loc) (total : Z) : M t bool :=
  v ← load p;
  totalPages ← TotalPages p total;
  ret (Page v <? totalPages).

Definition IsLastPage (p : loc) (total : Z) : M t bool :=
  totalPages ← TotalPages p total;
  v ← load p;
  ret ((totalPages >? 0) && (Page v >=? totalPages)).

Definition IsEmpty (p : loc) (total : Z) : M t bool :=
  offset ← Offset p; ret (offset >=? total).

(** [Clamp] returns the receiver itself when the page is within
    range. *)
Definition Clamp (p : loc) (total : Z) : M t loc :=
  maxPage ← TotalPages p total;
  let maxPage := if maxPage =? 0 then 1 else maxPage in
  v ← load p;
  if Page v >? maxPage then WithPage p maxPage else ret p.

(** [Items]: the indices [start, end) of the page. *)
Definition Items (p : loc) : M t (Z * Z) :=
  start ← Offset p;
  v ← load p;
  ret (start, wrap64 (start + PageSize v)).

Definition SQLClause (p : loc) : M t string :=
  limit ← Limit p;
  offset ← Offset p;
  ret ("LIMIT " +:+ strconv.FormatInt limit +:+ " OFFSET " +:+ strconv.FormatInt offset).

(** [QueryParams]; [strconv.Itoa(i)] is [FormatInt(int64(i), 10)]. *)
Definition QueryParams (p : loc) : M t (gmap string (list string)) :=
  v ← load p;
  let params : gmap string (list string) := ∅ in
  let params := <["page"%string := [strconv.FormatInt (Page v)]]> params in
  let params := <["page_size"%string := [strconv.FormatInt (PageSize v)]]> params in
  ret params.

Definition QueryString (p : loc) : M t string :=
  params ← QueryParams p; ret (url.Encode params).

End Paginator.

(** The size that [WithPageSize] and [WithLimit] store for a requested
    size: the two [if] statements of the Go methods. *)
Definition clampSize (size : Z) : Z :=
  let size := if size <? MinPageSize then DefaultPageSize else size in
  if size >? MaxPageSize then MaxPageSize else size.

(** The with-X calls of the offset paginator, as data, and a chain of
    them applied left to right, each call on the result of the one
    before. *)
Inductive paginator_op : Type :=
| OpWithPage (page : Z)
| OpWithPageSize (size : Z).

Definition run_paginator_op (op : paginator_op) (p : loc) : M Paginator.t loc :=
  match op with
  | OpWithPage page => Paginator.WithPage p page
  | OpWithPageSize size => Paginator.WithPageSize p size
  end.

Fixpoint run_paginator_chain (ops : list paginator_op) (p : loc) : M Paginator.t loc :=
  match ops with
  | [] => ret p
  | op :: ops' => q ← run_paginator_op op p; run_paginator_chain ops' q
  end.

(** The constructors of the offset paginator, as data. *)
Inductive paginator_ctor : Type :=
| CtorNew
| CtorNewFromValues (page pageSize : Z)
| CtorFromQuery (q : gmap string (list string))
| CtorFromMap (m : gmap string any).

Definition run_paginator_ctor (c : paginator_ctor) : M Paginator.t loc :=
  match c with
  | CtorNew => Paginator.New
  | CtorNewFromValues page pageSize => Paginator.NewFromValues page pageSize
  | CtorFromQuery q => Paginator.FromQuery q
  | CtorFromMap m => Paginator.FromMap m
  end.

(** What [Paginator.Validate] accepts. *)
Definition valid (v : Paginator.t) : Prop :=
  1 <= Paginator.Page v /\ MinPageSize <= Paginator.PageSize v <= MaxPageSize.

(** A computation that ends in a valid paginator, whatever the store. *)
Definition yields_valid (m : M Paginator.t loc) : Prop :=
  forall h, exists q h' v, m h = Some (q, h') /\ h' !! q = Some v /\ valid v.

(** A method that takes a valid paginator to a valid paginator. *)
Definition keeps_valid (k : loc -> M Paginator.t loc) : Prop :=
  forall h p v, h !! p = Some v -> valid v ->
    exists q h' v', k p h = Some (q, h') /\ h' !! q = Some v' /\ valid v'.

(** ** The cursor paginator (cursor.go) *)

Module CursorPaginator.

Record t : Type := mk { Cursor : string; Limit : Z; Forward : bool }.

Definition NewCursor : M t loc :=
  new {| Cursor := EmptyString; Limit := DefaultPageSize; Forward := true |}.

Definition Clone (c : loc) : M t loc :=
  v ← load c;
  new {| Cursor := Cursor v; Limit := Limit v; Forward := Forward v |}.

Definition setLimit (c : loc) (limit : Z) : M t unit :=
  v ← load c; store c {| Cursor := Cursor v; Limit := limit; Forward := Forward v |}.

Definition setCursor (c : loc) (cursor : string) : M t unit :=
  v ← load c; store c {| Cursor := cursor; Limit := Limit v; Forward := Forward v |}.

Definition setForward (c : loc) (forward : bool) : M t unit :=
  v ← load c; store c {| Cursor := Cursor v; Limit := Limit v; Forward := forward |}.

Definition WithLimit (c : loc) (limit : Z) : M t loc :=
  clone ← Clone c;
  let limit := if limit <? MinPageSize then DefaultPageSize else limit in
  let limit := if limit >? MaxPageSize then MaxPageSize else limit in
  _ ← setLimit clone limit;
  ret clone.

Definition NewCursorWithLimit (limit : Z) : M t loc :=
  c ← NewCursor; WithLimit c limit.

Definition WithCursor (c : loc) (cursor : string) : M t loc :=
  clone ← Clone c;
  _ ← setCursor clone cursor;
  ret clone.

Definition WithForward (c : loc) (forward : bool) : M t loc :=
  clone ← Clone c;
  _ ← setForward clone forward;
  ret clone.

Definition HasCursor (c : loc) : M t bool :=
  v ← load c; ret (negb (String.eqb (Cursor v) EmptyString)).

Definition QueryParams (c : loc) : M t (gmap string (list string)) :=
  v ← load c;
  let params : gmap string (list string) := ∅ in
  let params :=
    if negb (String.eqb (Cursor v) EmptyString) then
      if Forward v then <["after"%string := [Cursor v]]> params
      else <["before"%string := [Cursor v]]> params
    else params in
  let params := <["limit"%string := [strconv.FormatInt (Limit v)]]> params in
  ret params.

Definition CursorFromQuery (q : gmap string (list string)) : M t loc :=
  c ← NewCursor;
  c ← (let cursor := Get q "cursor" in
        if negb (String.eqb cursor "") then WithCursor c cursor else ret c);
  c ← (let after := Get q "after" in
        if negb (String.eqb after "") then
          c ← WithCursor c after; WithForward c true
        else ret c);
  c ← (let before := Get q "before" in
        if negb (String.eqb before "") then
          c ← WithCursor c before; WithForward c false
        else ret c);
  c ← (let limitStr := Get q "limit" in
        if negb (String.eqb limitStr "") then
          match strconv.Atoi limitStr with
          | Some limit => if limit >? 0 then WithLimit c limit else ret c
          | None => ret c
          end
        else ret c);
  c ← (let firstStr := Get q "first" in
        if negb (String.eqb firstStr "") then
          match strconv.Atoi firstStr with
          | Some first =>
              if first >? 0 then c ← WithLimit c first; WithForward c true else ret c
          | None => ret c
          end
        else ret c);
  c ← (let lastStr := Get q "last" in
        if negb (String.eqb lastStr "") then
          match strconv.Atoi lastStr with
          | Some last =>
              if last >? 0 then c ← WithLimit c last; WithForward c false else ret c
          | None => ret c
          end
        else ret c);
  ret c.

End CursorPaginator.

(** The with-X calls of the cursor paginator, as data. *)
Inductive cursor_op : Type :=
| OpWithLimit (limit : Z)
| OpWithCursor (cursor : string)
| OpWithForward (forward : bool).

Definition run_cursor_op (op : cursor_op) (c : loc) : M CursorPaginator.t loc :=
  match op with
  | OpWithLimit limit => CursorPaginator.WithLimit c limit
  | OpWithCursor cursor => CursorPaginator.WithCursor c cursor
  | OpWithForward forward => CursorPaginator.WithForward c forward
  end.

(** ** Range pagination (range.go)

    No method writes through a [*Range]; a pointer that may be nil is an
    [option]. *)

(** The bytes of the classes [\w] and [\d] of Go's regexp syntax, which
    are ASCII only. *)
Definition isWordChar (c : ascii) : bool :=
  strconv.isDigit c
  || ((65 <=? byteZ c) && (byteZ c <=? 90))
  || ((97 <=? byteZ c) && (byteZ c <=? 122))
  || (byteZ c =? 95).

(** The longest prefix of bytes in a class, and what follows it. *)
Fixpoint span (f : ascii -> bool) (s : string) : string * string :=
  match s with
  | EmptyString => (EmptyString, EmptyString)
  | String c rest =>
      if f c then let (pre, post) := span f rest in (String c pre, post)
      else (EmptyString, s)
  end.

Fixpoint all_chars (f : ascii -> bool) (s : string) : bool :=
  match s with
  | EmptyString => true
  | String c rest => f c && all_chars f rest
  end.

(** [rangeRegex.FindStringSubmatch]: the three groups of the match, or
    [None].  The expression is anchored at both ends and reads: group 1,
    one or more [\w]; the byte ["="]; group 2, one or more [\d]; the byte
    ["-"]; group 3, zero or more [\d].  Since ["="] is no word byte and
    ["-"] no digit, the greedy runs are the only way to match. *)
Definition rangeRegex_FindStringSubmatch (s : string) : option (string * string * string) :=
  let (unit, r1) := span isWordChar s in
  match unit, r1 with
  | String _ _, String "="%char r2 =>
      let (start, r3) := span strconv.isDigit r2 in
      match start, r3 with
      | String _ _, String "-"%char r4 =>
          let (end_, r5) := span strconv.isDigit r4 in
          match r5 with
          | EmptyString => Some (unit, start, end_)
          | String _ _ => None
          end
      | _, _ => None
      end
  | _, _ => None
  end.

(** The grammar of the range header in the words of the specification:
    a unit of one or more word characters, ["="], a start of one or more
    digits, ["-"], an end of zero or more digits, and nothing else. *)
Definition range_grammar (header unit start end_ : string) : Prop :=
  header = unit +:+ "=" +:+ start +:+ "-" +:+ end_ /\
  unit <> EmptyString /\ all_chars isWordChar unit = true /\
  start <> EmptyString /\ all_chars strconv.isDigit start = true /\
  all_chars strconv.isDigit end_ = true.

(** The number that a run of decimal digits denotes. *)
Fixpoint decimal_acc (acc : Z) (s : string) : Z :=
  match s with
  | EmptyString => acc
  | String c rest => decimal_acc (acc * 10 + (byteZ c - 48)) rest
  end.

Definition decimal (s : string) : Z := decimal_acc 0 s.

Module Range.

Record t : Type := mk { Start : Z; End : Z; Unit : string }.

Definition NewRange (start end_ : Z) : t :=
  {| Start := start; End := end_; Unit := "items" |}.

Definition NewRangeWithUnit (start end_ : Z) (unit : string) : t :=
  {| Start := start; End := end_; Unit := unit |}.

Definition Size (r : t) : Z :=
  if End r <? Start r then 0 else wrap64 (wrap64 (End r - Start r) + 1).

Definition Validate (r : t) : option error :=
  if Start r <? 0 then Some ErrInvalidOffset
  else if End r <? Start r then Some ErrInvalidRange
  else None.

Definition SQLClause (r : t) : string :=
  "LIMIT " +:+ strconv.FormatInt (Size r) +:+ " OFFSET " +:+ strconv.FormatInt (Start r).

Definition Header (r : t) : string :=
  Unit r +:+ "=" +:+ strconv.FormatInt (Start r) +:+ "-" +:+ strconv.FormatInt (End r).

Definition ContentRangeHeader (r : t) (total : Z) : string :=
  if total <? 0 then
    Unit r +:+ " " +:+ strconv.FormatInt (Start r) +:+ "-" +:+ strconv.FormatInt (End r)
      +:+ "/*"
  else
    Unit r +:+ " " +:+ strconv.FormatInt (Start r) +:+ "-" +:+ strconv.FormatInt (End r)
      +:+ "/" +:+ strconv.FormatInt total.

Definition ParseRangeHeader (header : string) : option t * option error :=
  if String.eqb header EmptyString then (None, None)
  else
    match rangeRegex_FindStringSubmatch header with
    | None => (None, Some ErrInvalidRange)
    | Some (unit, m2, m3) =>
        match strconv.ParseInt m2 with
        | None => (None, Some ErrInvalidOffset)
        | Some start =>
            let parsed_end :=
              if negb (String.eqb m3 EmptyString) then strconv.ParseInt m3
              else Some (wrap64 (wrap64 (start + DefaultPageSize) - 1)) in
            match parsed_end with
            | None => (None, Some ErrInvalidRange)
            | Some end_ =>
                let rng := {| Start := start; End := end_; Unit := unit |} in
                (Some rng, Validate rng)
            end
        end
    end.

Definition RangeFromOffsetLimit (offset limit : Z) : t :=
  let start := offset in
  let end_ := wrap64 (wrap64 (start + limit) - 1) in
  let end_ := if limit <=? 0 then start else end_ in
  {| Start := start; End := end_; Unit := "items" |}.

Definition ToPaginator (r : t) : M Paginator.t loc :=
  let pageSize := Size r in
  let pageSize := if pageSize <=? 0 then DefaultPageSize else pageSize in
  let pageSize := if pageSize >? MaxPageSize then MaxPageSize else pageSize in
  let page := wrap64 (Z.quot (Start r) pageSize + 1) in
  Paginator.NewFromValues page pageSize.

End Range.

Module RangeResponse.

Record t (T : Type) : Type := mk {
  Items : list T;
  Start : Z;
  End : Z;
  Total : Z;
  Unit : string
}.
Arguments mk {T} _ _ _ _ _.
Arguments Items {T} _.
Arguments Start {T} _.
Arguments End {T} _.
Arguments Total {T} _.
Arguments Unit {T} _.

Definition NewRangeResponse {T} (items : list T) (r : Range.t) (total : Z) : t T :=
  let actualEnd :=
    if Z.of_nat (length items) >? 0
    then wrap64 (wrap64 (Range.Start r + Z.of_nat (length items)) - 1)
    else Range.Start r in
  {| Items := items; Start := Range.Start r; End := actualEnd;
     Total := total; Unit := Range.Unit r |}.

Definition ContentRange {T} (r : t T) : string :=
  if Z.of_nat (length (Items r)) =? 0 then
    Unit r +:+ " */" +:+ strconv.FormatInt (Total r)
  else
    Unit r +:+ " " +:+ strconv.FormatInt (Start r) +:+ "-" +:+ strconv.FormatInt (End r)
      +:+ "/" +:+ strconv.FormatInt (Total r).


Definition Empty {T} (r : t T) : bool := Z.of_nat (length (Items r)) =? 0.

Definition Count {T} (r : t T) : Z := Z.of_nat (length (Items r)).

End RangeResponse.

(** ** encoding/base64: the padded URL encoding [base64.URLEncoding] *)

Module base64.

Definition encodeURL : string :=
  "ABCDEFGHIJKLMNOPQRSTUVWXYZabcdefghijklmnopqrstuvwxyz0123456789-_".

Definition padChar : ascii := "=".

(** [enc.encode[i]] *)
Definition encodeChar (i : Z) : ascii :=
  match String.get (Z.to_nat i) encodeURL with
  | Some c => c
  | None => padChar
  end.

Fixpoint index_from (i : Z) (c : ascii) (s : string) : option Z :=
  match s with
  | EmptyString => None
  | String d rest => if Ascii.eqb c d then Some i else index_from (i + 1) c rest
  end.

(** [enc.decodeMap[c]]; [None] stands for the entry [0xff]. *)
Definition decodeMap (c : ascii) : option Z := index_from 0 c encodeURL.

Definition toByte (z : Z) : ascii := chr (Z.land z 255).

Fixpoint EncodeToString (src : string) : string :=
  match src with
  | EmptyString => EmptyString
  | String a EmptyString =>
      let val := Z.shiftl (byteZ a) 16 in
      String (encodeChar (Z.land (Z.shiftr val 18) 63))
        (String (encodeChar (Z.land (Z.shiftr val 12) 63))
           (String padChar (String padChar EmptyString)))
  | String a (String b EmptyString) =>
      let val := Z.lor (Z.shiftl (byteZ a) 16) (Z.shiftl (byteZ b) 8) in
      String (encodeChar (Z.land (Z.shiftr val 18) 63))
        (String (encodeChar (Z.land (Z.shiftr val 12) 63))
           (String (encodeChar (Z.land (Z.shiftr val 6) 63))
              (String padChar EmptyString)))
  | String a (String b (String c rest)) =>
      let val := Z.lor (Z.lor (Z.shiftl (byteZ a) 16) (Z.shiftl (byteZ b) 8)) (byteZ c) in
      String (encodeChar (Z.land (Z.shiftr val 18) 63))
        (String (encodeChar (Z.land (Z.shiftr val 12) 63))
           (String (encodeChar (Z.land (Z.shiftr val 6) 63))
              (String (encodeChar (Z.land val 63)) (EncodeToString rest))))
  end.

Definition isNewline (c : ascii) : bool := (byteZ c =? 10) || (byteZ c =? 13).

Fixpoint skipNewlines (s : string) : string :=
  match s with
  | EmptyString => EmptyString
  | String c rest => if isNewline c then skipNewlines rest else s
  end.

(** The 24 bits of a quantum from its four 6-bit digits. *)
Definition quantum (d0 d1 d2 d3 : Z) : Z :=
  Z.lor (Z.lor (Z.lor (Z.shiftl d0 18) (Z.shiftl d1 12)) (Z.shiftl d2 6)) d3.

(** [Decode]: quantum after quantum, as [decodeQuantum] reads them.
    [dbuf] holds the digits of the quantum read so far.  Line breaks are
    skipped; a padding byte closes the last quantum, which must then be
    complete, with nothing but line breaks after it; the input may not
    end inside a quantum.  The encoding is not strict: the unused low
    bits of a padded quantum are not checked.  [None] stands for a
    non-nil [err]. *)
Fixpoint decode (dbuf : list Z) (src : string) : option string :=
  match src with
  | EmptyString =>
      match dbuf with
      | [] => Some EmptyString
      | _ => None
      end
  | String c rest =>
      match decodeMap c with
      | Some out =>
          match dbuf with
          | [d0; d1; d2] =>
              let val := quantum d0 d1 d2 out in
              match decode [] rest with
              | Some tail =>
                  Some (String (toByte (Z.shiftr val 16))
                          (String (toByte (Z.shiftr val 8))
                             (String (toByte val) tail)))
              | None => None
              end
          | _ => decode (dbuf ++ [out]) rest
          end
      | None =>
          if isNewline c then decode dbuf rest
          else if Ascii.eqb c padChar then
            match dbuf with
            | [d0; d1] =>
                match skipNewlines rest with
                | String p rest' =>
                    if Ascii.eqb p padChar then
                      match skipNewlines rest' with
                      | EmptyString =>
                          let val := quantum d0 d1 0 0 in
                          Some (String (toByte (Z.shiftr val 16)) EmptyString)
                      | String _ _ => None
                      end
                    else None
                | EmptyString => None
                end
            | [d0; d1; d2] =>
                match skipNewlines rest with
                | EmptyString =>
                    let val := quantum d0 d1 d2 0 in
                    Some (String (toByte (Z.shiftr val 16))
                            (String (toByte (Z.shiftr val 8)) EmptyString))
                | String _ _ => None
                end
            | _ => None
            end
          else None
      end
  end.

Definition DecodeString (s : string) : option string := decode [] s.

End base64.

(** [strings.TrimRight(s, "=")]: the string without its trailing padding
    bytes. *)
Fixpoint trimPadding (s : string) : string :=
  match s with
  | EmptyString => EmptyString
  | String c rest =>
      match trimPadding rest with
      | EmptyString => if Ascii.eqb c base64.padChar then EmptyString else String c EmptyString
      | t => String c t
      end
  end.

(** ** Strings of bytes: a few operations *)

Fixpoint str_take (n : nat) (s : string) : string :=
  match n, s with
  | S n', String c rest => String c (str_take n' rest)
  | _, _ => EmptyString
  end.

Fixpoint str_drop (n : nat) (s : string) : string :=
  match n, s with
  | S n', String _ rest => str_drop n' rest
  | _, _ => s
  end.

Fixpoint str_join (sep : string) (parts : list string) : string :=
  match parts with
  | [] => EmptyString
  | [p] => p
  | p :: rest => p +:+ sep +:+ str_join sep rest
  end.

Definition quoteChar : ascii := "034".
Definition backslash : ascii := "092".

(** ** unicode/utf8 and unicode/utf16 *)

Module utf8.

Definition RuneError : Z := 65533.
Definition RuneSelf : Z := 128.
Definition MaxRune : Z := 1114111.

(** [DecodeRune]: the rune at the start of [p] and its width in bytes;
    [(RuneError, 1)] where the bytes are no valid encoding, and
    [(RuneError, 0)] on the empty string.  The accept ranges of the
    second byte are those of the table [acceptRanges]. *)
Definition DecodeRune (p : string) : Z * nat :=
  match p with
  | EmptyString => (RuneError, 0%nat)
  | String c0 r0 =>
      let p0 := byteZ c0 in
      if p0 <? 128 then (p0, 1%nat)
      else if (p0 <? 194) || (244 <? p0) then (RuneError, 1%nat)
      else
        let lo := if p0 =? 224 then 160 else if p0 =? 240 then 144 else 128 in
        let hi := if p0 =? 237 then 159 else if p0 =? 244 then 143 else 191 in
        match r0 with
        | EmptyString => (RuneError, 1%nat)
        | String c1 r1 =>
            let b1 := byteZ c1 in
            if (b1 <? lo) || (hi <? b1) then (RuneError, 1%nat)
            else if p0 <? 224 then
              (Z.lor (Z.shiftl (Z.land p0 31) 6) (Z.land b1 63), 2%nat)
            else
              match r1 with
              | EmptyString => (RuneError, 1%nat)
              | String c2 r2 =>
                  let b2 := byteZ c2 in
                  if (b2 <? 128) || (191 <? b2) then (RuneError, 1%nat)
                  else if p0 <? 240 then
                    (Z.lor (Z.lor (Z.shiftl (Z.land p0 15) 12)
                                  (Z.shiftl (Z.land b1 63) 6))
                           (Z.land b2 63), 3%nat)
                  else
                    match r2 with
                    | EmptyString => (RuneError, 1%nat)
                    | String c3 _ =>
                        let b3 := byteZ c3 in
                        if (b3 <? 128) || (191 <? b3) then (RuneError, 1%nat)
                        else
                          (Z.lor (Z.lor (Z.lor (Z.shiftl (Z.land p0 7) 18)
                                               (Z.shiftl (Z.land b1 63) 12))
                                        (Z.shiftl (Z.land b2 63) 6))
                                 (Z.land b3 63), 4%nat)
                    end
              end
        end
  end.

Definition encode3 (r : Z) : string :=
  String (chr (Z.lor 224 (Z.shiftr r 12)))
    (String (chr (Z.lor 128 (Z.land (Z.shiftr r 6) 63)))
       (String (chr (Z.lor 128 (Z.land r 63))) EmptyString)).

(** [EncodeRune]: runes out of range and surrogate halves are written
    as [RuneError]. *)
Definition EncodeRune (r : Z) : string :=
  if (0 <=? r) && (r <=? 127) then String (chr r) EmptyString
  else if (0 <=? r) && (r <=? 2047) then
    String (chr (Z.lor 192 (Z.shiftr r 6)))
      (String (chr (Z.lor 128 (Z.land r 63))) EmptyString)
  else if (r <? 0) || (MaxRune <? r) || ((55296 <=? r) && (r <=? 57343)) then
    encode3 RuneError
  else if r <=? 65535 then encode3 r
  else
    String (chr (Z.lor 240 (Z.shiftr r 18)))
      (String (chr (Z.lor 128 (Z.land (Z.shiftr r 12) 63)))
         (String (chr (Z.lor 128 (Z.land (Z.shiftr r 6) 63)))
            (String (chr (Z.lor 128 (Z.land r 63))) EmptyString))).

(** [ValidString]: the loop advances by the width of each rune; [skip]
    counts the bytes of the current rune still to be passed. *)
Fixpoint valid_from (skip : nat) (s : string) : bool :=
  match s with
  | EmptyString => true
  | String c rest =>
      match skip with
      | S k => valid_from k rest
      | O =>
          if byteZ c <? RuneSelf then valid_from 0 rest
          else
            let (r, size) := DecodeRune s in
            if (r =? RuneError) && Nat.eqb size 1 then false
            else valid_from (size - 1) rest
      end
  end.

Definition ValidString (s : string) : bool := valid_from 0 s.

End utf8.

Module utf16.

Definition IsSurrogate (r : Z) : bool := (55296 <=? r) && (r <? 57344).

(** [DecodeRune(r1, r2)]: the rune of a surrogate pair, or the
    replacement character. *)
Definition DecodeRune (r1 r2 : Z) : Z :=
  if (55296 <=? r1) && (r1 <? 56320) && (56320 <=? r2) && (r2 <? 57344)
  then Z.lor (Z.shiftl (r1 - 55296) 10) (r2 - 56320) + 65536
  else utf8.RuneError.

End utf16.

(** ** encoding/json, as far as [Marshal] and [Unmarshal] of the cursor
    payload go *)

Module json.

(** A JSON text after the syntax check.  String and number leaves keep
    their source bytes: for a string, the bytes between the quotes. *)
#[warnings="-register-all"]
Inductive value : Type :=
| JNull
| JBool (b : bool)
| JNumber (raw : string)
| JString (raw : string)
| JArray (elems : list value)
| JObject (members : list (string * value)).

Definition hex : string := "0123456789abcdef".

Definition hexChar (i : Z) : ascii :=
  match String.get (Z.to_nat i) hex with
  | Some c => c
  | None => "0"%char
  end.

(** *** Writing strings: [appendString] with [escapeHTML] set *)

(** The set [htmlSafeSet] on the ASCII bytes. *)
Definition htmlSafe (b : Z) : bool :=
  (32 <=? b) && negb (b =? 34) && negb (b =? 92)
  && negb (b =? 60) && negb (b =? 62) && negb (b =? 38).

Definition escapeByte (c : ascii) : string :=
  let b := byteZ c in
  if (b =? 92) || (b =? 34) then String backslash (String c EmptyString)
  else if b =? 8 then "\b"
  else if b =? 12 then "\f"
  else if b =? 10 then "\n"
  else if b =? 13 then "\r"
  else if b =? 9 then "\t"
  else "\u00" +:+ String (hexChar (Z.shiftr b 4)) (String (hexChar (Z.land b 15)) EmptyString).

(** The loop of [appendString]; [skip] counts the bytes of the current
    rune that the index has already moved over. *)
Fixpoint appendString_loop (skip : nat) (src : string) : string :=
  match src with
  | EmptyString => EmptyString
  | String c rest =>
      match skip with
      | S k => appendString_loop k rest
      | O =>
          let b := byteZ c in
          if b <? utf8.RuneSelf then
            (if htmlSafe b then String c EmptyString else escapeByte c)
              +:+ appendString_loop 0 rest
          else
            let (r, size) := utf8.DecodeRune (str_take 4 src) in
            if (r =? utf8.RuneError) && Nat.eqb size 1 then
              ("\u" +:+ "fffd") +:+ appendString_loop 0 rest
            else if (r =? 8232) || (r =? 8233) then
              "\u202" +:+ String (hexChar (Z.land r 15)) EmptyString
                +:+ appendString_loop (size - 1) rest
            else
              str_take size src +:+ appendString_loop (size - 1) rest
      end
  end.

Definition appendString (src : string) : string :=
  String quoteChar (appendString_loop 0 src +:+ String quoteChar EmptyString).

(** *** Reading strings: [unquote] *)

Definition hexValue (c : ascii) : option Z :=
  let b := byteZ c in
  if (48 <=? b) && (b <=? 57) then Some (b - 48)
  else if (97 <=? b) && (b <=? 102) then Some (b - 97 + 10)
  else if (65 <=? b) && (b <=? 70) then Some (b - 65 + 10)
  else None.

(** [getu4]: the number of a [\uXXXX] escape at the start of [s];
    [None] stands for [-1]. *)
Definition getu4 (s : string) : option Z :=
  match s with
  | String c0 (String c1 (String h1 (String h2 (String h3 (String h4 _))))) =>
      if (byteZ c0 =? 92) && (byteZ c1 =? 117) then
        match hexValue h1, hexValue h2, hexValue h3, hexValue h4 with
        | Some a, Some b, Some c, Some d => Some (((a * 16 + b) * 16 + c) * 16 + d)
        | _, _, _, _ => None
        end
      else None
  | _ => None
  end.

(** The loop of [unquoteBytes] on the bytes between the quotes. *)
Fixpoint unquote_loop (skip : nat) (s : string) : option string :=
  match s with
  | EmptyString => Some EmptyString
  | String c rest =>
      match skip with
      | S k => unquote_loop k rest
      | O =>
          let b := byteZ c in
          if b =? 92 then
            match rest with
            | EmptyString => None
            | String e _ =>
                let eb := byteZ e in
                if (eb =? 34) || (eb =? 92) || (eb =? 47) || (eb =? 39) then
                  option_map (String e) (unquote_loop 1 rest)
                else if eb =? 98 then option_map (String (chr 8)) (unquote_loop 1 rest)
                else if eb =? 102 then option_map (String (chr 12)) (unquote_loop 1 rest)
                else if eb =? 110 then option_map (String (chr 10)) (unquote_loop 1 rest)
                else if eb =? 114 then option_map (String (chr 13)) (unquote_loop 1 rest)
                else if eb =? 116 then option_map (String (chr 9)) (unquote_loop 1 rest)
                else if eb =? 117 then
                  match getu4 s with
                  | None => None
                  | Some rr =>
                      if utf16.IsSurrogate rr then
                        let rr1 := match getu4 (str_drop 6 s) with
                                   | Some x => x
                                   | None => -1
                                   end in
                        let dec := utf16.DecodeRune rr rr1 in
                        if negb (dec =? utf8.RuneError) then
                          option_map (String.append (utf8.EncodeRune dec))
                                     (unquote_loop 11 rest)
                        else
                          option_map (String.append (utf8.EncodeRune utf8.RuneError))
                                     (unquote_loop 5 rest)
                      else
                        option_map (String.append (utf8.EncodeRune rr))
                                   (unquote_loop 5 rest)
                  end
                else None
            end
          else if (b =? 34) || (b <? 32) then None
          else if b <? utf8.RuneSelf then option_map (String c) (unquote_loop 0 rest)
          else
            let (rr, size) := utf8.DecodeRune s in
            option_map (String.append (utf8.EncodeRune rr))
                       (unquote_loop (size - 1) rest)
      end
  end.

Definition unquote (raw : string) : option string := unquote_loop 0 raw.

(** *** The scanner *)

Definition isSpace (c : ascii) : bool :=
  let b := byteZ c in (b =? 32) || (b =? 9) || (b =? 13) || (b =? 10).

Fixpoint skipSpace (s : string) : string :=
  match s with
  | EmptyString => EmptyString
  | String c rest => if isSpace c then skipSpace rest else s
  end.

Definition isHex (c : ascii) : bool :=
  match hexValue c with
  | Some _ => true
  | None => false
  end.

Definition cons2 (a b : ascii) (r : string * string) : string * string :=
  (String a (String b (fst r)), snd r).

(** After the opening quote: the bytes up to the closing quote, and
    what follows it. *)
Fixpoint scanString (s : string) : option (string * string) :=
  match s with
  | EmptyString => None
  | String c rest =>
      let b := byteZ c in
      if b =? 34 then Some (EmptyString, rest)
      else if b =? 92 then
        match rest with
        | EmptyString => None
        | String e rest1 =>
            let eb := byteZ e in
            if (eb =? 98) || (eb =? 102) || (eb =? 110) || (eb =? 114) || (eb =? 116)
               || (eb =? 92) || (eb =? 47) || (eb =? 34) then
              option_map (cons2 c e) (scanString rest1)
            else if eb =? 117 then
              match rest1 with
              | String h1 (String h2 (String h3 (String h4 rest5))) =>
                  if isHex h1 && isHex h2 && isHex h3 && isHex h4 then
                    option_map (fun r => cons2 c e (cons2 h1 h2 (cons2 h3 h4 r)))
                               (scanString rest5)
                  else None
              | _ => None
              end
            else None
        end
      else if b <? 32 then None
      else option_map (fun r => (String c (fst r), snd r)) (scanString rest)
  end.

(** The integer part of a number: ["0"], or a digit from 1 to 9 and
    the digits after it. *)
Definition scanInt (s : string) : option (string * string) :=
  match s with
  | EmptyString => None
  | String c rest =>
      if byteZ c =? 48 then Some (String c EmptyString, rest)
      else if (49 <=? byteZ c) && (byteZ c <=? 57) then
        let (ds, r) := span strconv.isDigit rest in Some (String c ds, r)
      else None
  end.

Definition scanFrac (s : string) : option (string * string) :=
  match s with
  | String c rest =>
      if byteZ c =? 46 then
        match span strconv.isDigit rest with
        | (EmptyString, _) => None
        | (ds, r) => Some (String c ds, r)
        end
      else Some (EmptyString, s)
  | EmptyString => Some (EmptyString, s)
  end.

Definition scanExp (s : string) : option (string * string) :=
  match s with
  | String c rest =>
      if (byteZ c =? 101) || (byteZ c =? 69) then
        let (sign, r1) :=
          match rest with
          | String g rest' =>
              if (byteZ g =? 43) || (byteZ g =? 45) then (String g EmptyString, rest')
              else (EmptyString, rest)
          | EmptyString => (EmptyString, rest)
          end in
        match span strconv.isDigit r1 with
        | (EmptyString, _) => None
        | (ds, r2) => Some (String c (sign +:+ ds), r2)
        end
      else Some (EmptyString, s)
  | EmptyString => Some (EmptyString, s)
  end.

Definition scanNumber (s : string) : option (string * string) :=
  let (neg, s1) :=
    match s with
    | String c rest => if byteZ c =? 45 then (String c EmptyString, rest) else (EmptyString, s)
    | EmptyString => (EmptyString, s)
    end in
  match scanInt s1 with
  | None => None
  | Some (ip, s2) =>
      match scanFrac s2 with
      | None => None
      | Some (fp, s3) =>
          match scanExp s3 with
          | None => None
          | Some (ep, s4) => Some (neg +:+ ip +:+ fp +:+ ep, s4)
          end
      end
  end.

Fixpoint hasPrefix (p s : string) : option string :=
  match p, s with
  | EmptyString, _ => Some s
  | String a p', String b s' => if Ascii.eqb a b then hasPrefix p' s' else None
  | String _ _, EmptyString => None
  end.

Definition maxNestingDepth : Z := 10000.

(** One value at the start of [s], and what follows it.  [depth] is the
    number of arrays and objects that are open; [fuel] bounds the depth
    of the calls. *)
Fixpoint parse_value (fuel : nat) (depth : Z) (s : string) {struct fuel}
  : option (value * string) :=
  match fuel with
  | O => None
  | S fuel' =>
      match skipSpace s with
      | EmptyString => None
      | String c rest =>
          let b := byteZ c in
          if b =? 123 then
            if maxNestingDepth <=? depth then None
            else
              match skipSpace rest with
              | EmptyString => None
              | String c' rest' =>
                  if byteZ c' =? 125 then Some (JObject [], rest')
                  else
                    match parse_members fuel' (depth + 1) rest with
                    | Some (ms, r) => Some (JObject ms, r)
                    | None => None
                    end
              end
          else if b =? 91 then
            if maxNestingDepth <=? depth then None
            else
              match skipSpace rest with
              | EmptyString => None
              | String c' rest' =>
                  if byteZ c' =? 93 then Some (JArray [], rest')
                  else
                    match parse_elements fuel' (depth + 1) rest with
                    | Some (vs, r) => Some (JArray vs, r)
                    | None => None
                    end
              end
          else if b =? 34 then
            match scanString rest with
            | Some (raw, r) => Some (JString raw, r)
            | None => None
            end
          else if (b =? 45) || strconv.isDigit c then
            match scanNumber (String c rest) with
            | Some (raw, r) => Some (JNumber raw, r)
            | None => None
            end
          else if b =? 116 then
            match hasPrefix "rue" rest with
            | Some r => Some (JBool true, r)
            | None => None
            end
          else if b =? 102 then
            match hasPrefix "alse" rest with
            | Some r => Some (JBool false, r)
            | None => None
            end
          else if b =? 110 then
            match hasPrefix "ull" rest with
            | Some r => Some (JNull, r)
            | None => None
            end
          else None
      end
  end

with parse_members (fuel : nat) (depth : Z) (s : string) {struct fuel}
  : option (list (string * value) * string) :=
  match fuel with
  | O => None
  | S fuel' =>
      match skipSpace s with
      | EmptyString => None
      | String q r0 =>
          if byteZ q =? 34 then
            match scanString r0 with
            | None => None
            | Some (key, r1) =>
                match skipSpace r1 with
                | EmptyString => None
                | String colon r2 =>
                    if byteZ colon =? 58 then
                      match parse_value fuel' depth r2 with
                      | None => None
                      | Some (v, r3) =>
                          match skipSpace r3 with
                          | EmptyString => None
                          | String d r4 =>
                              if byteZ d =? 44 then
                                match parse_members fuel' depth r4 with
                                | Some (ms, r5) => Some ((key, v) :: ms, r5)
                                | None => None
                                end
                              else if byteZ d =? 125 then Some ([(key, v)], r4)
                              else None
                          end
                      end
                    else None
                end
            end
          else None
      end
  end

with parse_elements (fuel : nat) (depth : Z) (s : string) {struct fuel}
  : option (list value * string) :=
  match fuel with
  | O => None
  | S fuel' =>
      match parse_value fuel' depth s with
      | None => None
      | Some (v, r1) =>
          match skipSpace r1 with
          | EmptyString => None
          | String d r2 =>
              if byteZ d =? 44 then
                match parse_elements fuel' depth r2 with
                | Some (vs, r3) => Some (v :: vs, r3)
                | None => None
                end
              else if byteZ d =? 93 then Some ([v], r2)
              else None
          end
      end
  end.

(** [checkValid] and the reading of the whole text: one value, with
    nothing but space around it. *)
Definition parse (data : string) : option value :=
  match parse_value (S (String.length data)) 0 data with
  | Some (v, rest) =>
      match skipSpace rest with
      | EmptyString => Some v
      | String _ _ => None
      end
  | None => None
  end.

(** *** [compact] with [escape] set, on a checked text *)

Fixpoint compactEscape (skip : nat) (raw : string) : string :=
  match raw with
  | EmptyString => EmptyString
  | String c rest =>
      match skip with
      | S k => compactEscape k rest
      | O =>
          let b := byteZ c in
          if (b =? 60) || (b =? 62) || (b =? 38) then
            "\u00" +:+ String (hexChar (Z.shiftr b 4))
                           (String (hexChar (Z.land b 15)) EmptyString)
              +:+ compactEscape 0 rest
          else
            match rest with
            | String c1 (String c2 _) =>
                if (b =? 226) && (byteZ c1 =? 128)
                   && ((byteZ c2 =? 168) || (byteZ c2 =? 169)) then
                  "\u202" +:+ String (hexChar (Z.land (byteZ c2) 15)) EmptyString
                    +:+ compactEscape 2 rest
                else String c (compactEscape 0 rest)
            | _ => String c (compactEscape 0 rest)
            end
      end
  end.

Fixpoint print (v : value) : string :=
  match v with
  | JNull => "null"
  | JBool true => "true"
  | JBool false => "false"
  | JNumber raw => raw
  | JString raw => String quoteChar (compactEscape 0 raw +:+ String quoteChar EmptyString)
  | JArray elems => "[" +:+ str_join "," (map print elems) +:+ "]"
  | JObject members =>
      "{" +:+ str_join ","
                (map (fun kv => String quoteChar (compactEscape 0 (fst kv)
                                  +:+ String quoteChar EmptyString)
                                  +:+ ":" +:+ print (snd kv)) members)
          +:+ "}"
  end.

(** What the encoder makes of the bytes a [Marshaler] returns: they
    must be a valid JSON text, and they are written compacted. *)
Definition compact (b : string) : option string :=
  match parse b with
  | Some v => Some (print v)
  | None => None
  end.

(** *** Matching an object key to a struct field *)

(** [foldName], exact on what can match an ASCII field name: ASCII
    letters go to upper case, and the only runes outside ASCII that
    fold onto an ASCII letter are U+017F, onto S, and U+212A, onto K.
    Every other rune outside ASCII folds to a rune outside ASCII, for
    which the rune itself stands here. *)
Fixpoint foldName_loop (skip : nat) (s : string) : string :=
  match s with
  | EmptyString => EmptyString
  | String c rest =>
      match skip with
      | S k => foldName_loop k rest
      | O =>
          let b := byteZ c in
          if b <? utf8.RuneSelf then
            String (if (97 <=? b) && (b <=? 122) then chr (b - 32) else c)
                   (foldName_loop 0 rest)
          else
            let (r, size) := utf8.DecodeRune s in
            (if r =? 383 then "S"
             else if r =? 8490 then "K"
             else utf8.EncodeRune r) +:+ foldName_loop (size - 1) rest
      end
  end.

Definition foldName (s : string) : string := foldName_loop 0 s.

(** The field of the key: by exact name first, by folded name
    otherwise. *)
Fixpoint lookupField {F : Type} (fields : list (string * F)) (key : string) : option F :=
  match fields with
  | [] => None
  | (name, f) :: rest => if String.eqb name key then Some f else lookupField rest key
  end.

Fixpoint lookupFolded {F : Type} (fields : list (string * F)) (folded : string) : option F :=
  match fields with
  | [] => None
  | (name, f) :: rest =>
      if String.eqb (foldName name) folded then Some f else lookupFolded rest folded
  end.

Definition fieldOf {F : Type} (fields : list (string * F)) (key : string) : option F :=
  match lookupField fields key with
  | Some f => Some f
  | None => lookupFolded fields (foldName key)
  end.

End json.

(** ** The cursor codec (cursor.go) *)

(** What encoding/json does with a value of the type parameter [T] of
    [CursorData[T]]: its zero value, the test behind [omitempty], its
    encoder ([None] is a marshalling error), and its decoder, which
    stores a JSON value into a variable holding [cur] ([None] is an
    error). *)
Class JSONValue (T : Type) : Type := {
  zeroValue : T;
  isEmptyValue : T -> bool;
  marshalValue : T -> option string;
  unmarshalValue : json.value -> T -> option T
}.

(** [time.Time], as far as the codec uses it: the zero time, [IsZero],
    the strict RFC 3339 writer behind [MarshalJSON] ([None] is its
    error) and the strict RFC 3339 reader behind [UnmarshalJSON]. *)
Class TimeValue (Time : Type) : Type := {
  zeroTime : Time;
  IsZero : Time -> bool;
  appendStrictRFC3339 : Time -> option string;
  parseStrictRFC3339 : string -> option Time
}.

(** Go's [int] as a value type. *)
#[global] Instance int_JSONValue : JSONValue Z := {|
  zeroValue := 0;
  isEmptyValue v := v =? 0;
  marshalValue v := Some (strconv.FormatInt v);
  unmarshalValue jv cur :=
    match jv with
    | json.JNull => Some cur
    | json.JNumber raw => strconv.ParseInt raw
    | _ => None
    end
|}.

(** Go's [string] as a value type. *)
#[global] Instance string_JSONValue : JSONValue string := {|
  zeroValue := EmptyString;
  isEmptyValue v := String.eqb v EmptyString;
  marshalValue v := Some (json.appendString v);
  unmarshalValue jv cur :=
    match jv with
    | json.JNull => Some cur
    | json.JString raw => json.unquote raw
    | _ => None
    end
|}.

(** Go's [bool] as a value type. *)
#[global] Instance bool_JSONValue : JSONValue bool := {|
  zeroValue := false;
  isEmptyValue v := negb v;
  marshalValue v := Some (if v then "true" else "false")%string;
  unmarshalValue jv cur :=
    match jv with
    | json.JNull => Some cur
    | json.JBool b => Some b
    | _ => None
    end
|}.

Record CursorData (T Time : Type) : Type := mkCursorData {
  ID : string;
  Value : T;
  Timestamp : Time;
  Offset : Z
}.
Arguments mkCursorData {T Time} _ _ _ _.
Arguments ID {T Time} _.
Arguments Value {T Time} _.
Arguments Timestamp {T Time} _.
Arguments Offset {T Time} _.

Inductive cursorField : Type :=
| FieldID
| FieldValue
| FieldTimestamp
| FieldOffset.

(** The JSON names of the struct tags. *)
Definition cursorFields : list (string * cursorField) :=
  [("id", FieldID); ("v", FieldValue); ("ts", FieldTimestamp); ("o", FieldOffset)]%string.

Section CursorCodec.
Context {T Time : Type} `{JSONValue T} `{TimeValue Time}.

(** [Time.MarshalJSON], and what the encoder does with its bytes. *)
Definition MarshalJSON_Time (t : Time) : option string :=
  match appendStrictRFC3339 t with
  | Some text => Some (String quoteChar (text +:+ String quoteChar EmptyString))
  | None => None
  end.

Definition marshalTime (t : Time) : option string :=
  match MarshalJSON_Time t with
  | Some b => json.compact b
  | None => None
  end.

(** The fields in declaration order: name, whether the field is left
    out ([omitempty], [omitzero]), and its encoding. *)
Definition structFields (d : CursorData T Time) : list (string * bool * option string) :=
  [ ("id"%string, String.eqb (ID d) EmptyString, Some (json.appendString (ID d)));
    ("v"%string, isEmptyValue (Value d), marshalValue (Value d));
    ("ts"%string, IsZero (Timestamp d), marshalTime (Timestamp d));
    ("o"%string, Offset d =? 0, Some (strconv.FormatInt (Offset d))) ].

(** The struct encoder writes ["{"] before the first field it keeps
    and [","] before each later one. *)
Fixpoint encodeFields (first : bool) (fs : list (string * bool * option string))
  : option string :=
  match fs with
  | [] => Some EmptyString
  | (name, omit, enc) :: rest =>
      if omit then encodeFields first rest
      else
        match enc with
        | None => None
        | Some text =>
            match encodeFields false rest with
            | Some tail =>
                Some ((if first then EmptyString else ",")
                        +:+ String quoteChar (name +:+ String quoteChar EmptyString)
                        +:+ ":" +:+ text +:+ tail)
            | None => None
            end
        end
  end.

(** [json.Marshal(data)] *)
Definition Marshal (d : CursorData T Time) : option string :=
  match encodeFields true (structFields d) with
  | Some body => Some ("{" +:+ body +:+ "}")
  | None => None
  end.

Definition zeroCursorData : CursorData T Time :=
  mkCursorData EmptyString zeroValue zeroTime 0.

(** Storing one JSON value into one field.  [null] leaves the field as
    it is; a value of the wrong kind is an error. *)
Definition decodeField (f : cursorField) (jv : json.value) (d : CursorData T Time)
  : option (CursorData T Time) :=
  match f with
  | FieldID =>
      match jv with
      | json.JNull => Some d
      | json.JString raw =>
          match json.unquote raw with
          | Some s => Some (mkCursorData s (Value d) (Timestamp d) (Offset d))
          | None => None
          end
      | _ => None
      end
  | FieldValue =>
      match unmarshalValue jv (Value d) with
      | Some v => Some (mkCursorData (ID d) v (Timestamp d) (Offset d))
      | None => None
      end
  | FieldTimestamp =>
      match jv with
      | json.JNull => Some d
      | json.JString raw =>
          match parseStrictRFC3339 raw with
          | Some t => Some (mkCursorData (ID d) (Value d) t (Offset d))
          | None => None
          end
      | _ => None
      end
  | FieldOffset =>
      match jv with
      | json.JNull => Some d
      | json.JNumber raw =>
          match strconv.ParseInt raw with
          | Some n => Some (mkCursorData (ID d) (Value d) (Timestamp d) n)
          | None => None
          end
      | _ => None
      end
  end.

(** The members of the object in source order; a key that names no
    field is passed over. *)
Fixpoint decodeMembers (ms : list (string * json.value)) (d : CursorData T Time)
  : option (CursorData T Time) :=
  match ms with
  | [] => Some d
  | (rawkey, jv) :: rest =>
      match json.unquote rawkey with
      | None => None
      | Some key =>
          match json.fieldOf cursorFields key with
          | Some f =>
              match decodeField f jv d with
              | Some d' => decodeMembers rest d'
              | None => None
              end
          | None => decodeMembers rest d
          end
      end
  end.

(** [json.Unmarshal(b, &data)] with [data] at its zero value; [None]
    is a non-nil error. *)
Definition Unmarshal (b : string) : option (CursorData T Time) :=
  match json.parse b with
  | Some json.JNull => Some zeroCursorData
  | Some (json.JObject ms) => decodeMembers ms zeroCursorData
  | _ => None
  end.

Definition EncodeCursor (data : option (CursorData T Time)) : string * option error :=
  match data with
  | None => (EmptyString, None)
  | Some d =>
      match Marshal d with
      | None => (EmptyString, Some (ExternalError "json: marshal error"))
      | Some b => (base64.EncodeToString b, None)
      end
  end.

Definition DecodeCursor (cursor : string) : option (CursorData T Time) * option error :=
  if String.eqb cursor EmptyString then (None, None)
  else
    match base64.DecodeString cursor with
    | None => (None, Some ErrInvalidCursor)
    | Some b =>
        match Unmarshal b with
        | None => (None, Some ErrInvalidCursor)
        | Some data => (Some data, None)
        end
    end.

(** [NewCursorFromValue] *)
Definition NewCursorFromValue (value : T) : string * option error :=
  EncodeCursor (Some (mkCursorData EmptyString value zeroTime 0)).

End CursorCodec.

(** ** time: [time.Time] and its strict RFC 3339 coding

    A [time.Time] is taken up to the identity of its [*Location] and
    without the reading of the monotonic clock: it is given by the
    calendar fields of its wall clock in its own zone, the nanosecond
    within the second, and the offset of the zone east of UTC in
    seconds.  [time.Date(y, m, d, h, mi, s, ns, time.UTC)] with fields in
    range is [mk y m d h mi s ns 0]. *)
Module gotime.

Record Time : Type := mk {
  year : Z; month : Z; day : Z; hour : Z; minute : Z; second : Z;
  nanosecond : Z; offset : Z
}.

Definition isLeap (y : Z) : bool :=
  (y mod 4 =? 0) && (negb (y mod 100 =? 0) || (y mod 400 =? 0)).

Definition daysIn (m y : Z) : Z :=
  if m =? 2 then (if isLeap y then 29 else 28)
  else if (m =? 4) || (m =? 6) || (m =? 9) || (m =? 11) then 30
  else 31.

Definition between (lo x hi : Z) : bool := (lo <=? x) && (x <=? hi).

(** The calendar fields that a [Time] can have. *)
Definition valid (x : Time) : bool :=
  between 1 (month x) 12
  && between 1 (day x) (daysIn (month x) (year x))
  && between 0 (hour x) 23 && between 0 (minute x) 59 && between 0 (second x) 59
  && between 0 (nanosecond x) 999999999.

(** The days from January 1 of the year 1 to the day of [x], in the
    proleptic Gregorian calendar. *)
Definition daysBeforeYear (y : Z) : Z :=
  365 * (y - 1) + (y - 1) / 4 - (y - 1) / 100 + (y - 1) / 400.

Definition daysBeforeMonth (m y : Z) : Z :=
  (if m =? 1 then 0 else if m =? 2 then 31 else if m =? 3 then 59
   else if m =? 4 then 90 else if m =? 5 then 120 else if m =? 6 then 151
   else if m =? 7 then 181 else if m =? 8 then 212 else if m =? 9 then 243
   else if m =? 10 then 273 else if m =? 11 then 304 else 334)
  + (if isLeap y && (3 <=? m) then 1 else 0).

(** [t.sec()]: the seconds of the instant since January 1 of the year 1,
    00:00:00 UTC. *)
Definition sec (x : Time) : Z :=
  (daysBeforeYear (year x) + daysBeforeMonth (month x) (year x) + (day x - 1)) * 86400
  + hour x * 3600 + minute x * 60 + second x - offset x.

(** [IsZero]: [t.sec() == 0 && t.nsec() == 0] *)
Definition IsZero (x : Time) : bool := (sec x =? 0) && (nanosecond x =? 0).

(** [Time{}] *)
Definition zero : Time := mk 1 1 1 0 0 0 0 0.

(** *** Writing *)

Fixpoint zeros (n : nat) : string :=
  match n with
  | O => EmptyString
  | S n' => String "0" (zeros n')
  end.

(** [appendInt(b, x, width)]: the decimal form of [x], padded with
    zeros to the width, with the two short cuts of the library. *)
Definition appendInt (x : Z) (width : Z) : string :=
  let u := Z.abs x in
  let sign := if x <? 0 then "-" else EmptyString in
  if (width =? 2) && (u <? 100) then
    sign +:+ String (strconv.digitChar (u / 10))
               (String (strconv.digitChar (u mod 10)) EmptyString)
  else if (width =? 4) && (u <? 10000) then
    sign +:+ String (strconv.digitChar (u / 1000))
               (String (strconv.digitChar (u / 100 mod 10))
                  (String (strconv.digitChar (u / 10 mod 10))
                     (String (strconv.digitChar (u mod 10)) EmptyString)))
  else
    let ds := strconv.FormatUint u in
    sign +:+ zeros (Z.to_nat width - String.length ds) +:+ ds.

(** The digits without their trailing zeros. *)
Fixpoint trimZeros (s : string) : string :=
  match s with
  | EmptyString => EmptyString
  | String c rest =>
      match trimZeros rest with
      | EmptyString => if Ascii.eqb c "0" then EmptyString else String c EmptyString
      | t => String c t
      end
  end.

(** [appendNano] for the layout [.999999999]: nothing for a whole
    second, else the period and the nine digits without trailing
    zeros. *)
Definition appendNano (nanosec : Z) : string :=
  if nanosec =? 0 then EmptyString
  else
    match trimZeros (appendInt nanosec 9) with
    | EmptyString => EmptyString
    | ds => String "." ds
    end.

(** [appendFormatRFC3339(b, true)] *)
Definition appendFormatRFC3339 (x : Time) : string :=
  appendInt (year x) 4 +:+ "-" +:+ appendInt (month x) 2 +:+ "-" +:+ appendInt (day x) 2
  +:+ "T" +:+ appendInt (hour x) 2 +:+ ":" +:+ appendInt (minute x) 2 +:+ ":"
  +:+ appendInt (second x) 2 +:+ appendNano (nanosecond x)
  +:+ (if offset x =? 0 then "Z"
       else
         let zone := Z.quot (offset x) 60 in
         (if zone <? 0 then "-" else "+")
         +:+ appendInt (Z.quot (Z.abs zone) 60) 2 +:+ ":"
         +:+ appendInt (Z.rem (Z.abs zone) 60) 2).

Definition lastByte (s : string) : option ascii :=
  String.get (String.length s - 1) s.

(** The two digits at the index [i]: [num2(b[i:])]. *)
Definition num2At (i : nat) (s : string) : Z :=
  match String.get i s, String.get (S i) s with
  | Some a, Some b => 10 * (byteZ a - 48) + (byteZ b - 48)
  | _, _ => 0
  end.

(** [appendStrictRFC3339]: the year has to be four digits wide and the
    hour of the zone below 24. *)
Definition appendStrictRFC3339 (x : Time) : option string :=
  let b := appendFormatRFC3339 x in
  if negb (match String.get 4 b with Some c => Ascii.eqb c "-" | None => false end)
  then None
  else if negb (match lastByte b with Some c => Ascii.eqb c "Z" | None => false end) then
    let c := String.get (String.length b - 6) b in
    if (match c with Some c => strconv.isDigit c | None => false end)
       || (24 <=? num2At (String.length b - 5) b)
    then None
    else Some b
  else Some b.

(** *** Reading *)

Definition byteIs (i : nat) (c : ascii) (s : string) : bool :=
  match String.get i s with
  | Some d => Ascii.eqb c d
  | None => false
  end.

(** [isDigit(s, i)] *)
Definition digitAt (s : string) (i : nat) : bool :=
  match String.get i s with
  | Some c => strconv.isDigit c
  | None => false
  end.

(** The closure [parseUint] of [parseRFC3339]: whether the digits are a
    number of the range, and the number, or else the least of the
    range. *)
Definition parseUint (s : string) (min max : Z) : bool * Z :=
  match strconv.digitsValue 0 s with
  | None => (false, min)
  | Some x => if (x <? min) || (max <? x) then (false, min) else (true, x)
  end.

(** [atoi]: an optional sign and digits to the end; [leadingInt] gives
    up on a number above [2^63]. *)
Definition atoi (s : string) : option Z :=
  let neg := match s with String c _ => Ascii.eqb c "-" | _ => false end in
  let body := match s with
              | String c rest => if Ascii.eqb c "-" || Ascii.eqb c "+" then rest else s
              | _ => s
              end in
  match strconv.digitsValue 0 body with
  | Some v => if 2 ^ 63 <? v then None else Some (if neg then wrap64 (- wrap64 v) else wrap64 v)
  | None => None
  end.

Definition commaOrPeriod (c : ascii) : bool := Ascii.eqb c "." || Ascii.eqb c ",".

(** [parseNanoseconds(value, nbytes)]; [None] stands for an error or a
    range error. *)
Definition parseNanoseconds (value : string) (nbytes : nat) : option Z :=
  match value with
  | EmptyString => None
  | String c _ =>
      if negb (commaOrPeriod c) then None
      else
        let nbytes := if (10 <? nbytes)%nat then 10%nat else nbytes in
        match atoi (String.substring 1 (nbytes - 1) value) with
        | None => None
        | Some ns =>
            if ns <? 0 then None
            else Some (ns * 10 ^ (10 - Z.of_nat nbytes))
        end
  end.

(** The index after the run of digits of [s] that starts at [n]. *)
Fixpoint digitsEnd (fuel : nat) (s : string) (n : nat) : nat :=
  match fuel with
  | O => n
  | S fuel' => if digitAt s n then digitsEnd fuel' s (S n) else n
  end.

(** [parseRFC3339(s, Local)] *)
Definition parseRFC3339 (s : string) : option Time :=
  if (String.length s <? 19)%nat then None
  else
    let '(ok1, year) := parseUint (String.substring 0 4 s) 0 9999 in
    let '(ok2, month) := parseUint (String.substring 5 2 s) 1 12 in
    let '(ok3, day) := parseUint (String.substring 8 2 s) 1 (daysIn month year) in
    let '(ok4, hour) := parseUint (String.substring 11 2 s) 0 23 in
    let '(ok5, min) := parseUint (String.substring 14 2 s) 0 59 in
    let '(ok6, sec) := parseUint (String.substring 17 2 s) 0 59 in
    if negb (ok1 && ok2 && ok3 && ok4 && ok5 && ok6
             && byteIs 4 "-" s && byteIs 7 "-" s && byteIs 10 "T" s
             && byteIs 13 ":" s && byteIs 16 ":" s)
    then None
    else
      let s := str_drop 19 s in
      let '(nsec, s) :=
        if (2 <=? String.length s)%nat && byteIs 0 "." s && digitAt s 1 then
          let n := digitsEnd (String.length s) s 2 in
          (match parseNanoseconds s n with Some ns => ns | None => 0 end, str_drop n s)
        else (0, s) in
      if (String.length s =? 1)%nat && byteIs 0 "Z" s then
        Some (mk year month day hour min sec nsec 0)
      else if negb (String.length s =? 6)%nat then None
      else
        let '(ok7, hr) := parseUint (String.substring 1 2 s) 0 23 in
        let '(ok8, mm) := parseUint (String.substring 4 2 s) 0 59 in
        if negb (ok7 && ok8 && (byteIs 0 "-" s || byteIs 0 "+" s) && byteIs 3 ":" s)
        then None
        else
          let zoneOffset := (hr * 60 + mm) * 60 in
          let zoneOffset := if byteIs 0 "-" s then - zoneOffset else zoneOffset in
          Some (mk year month day hour min sec nsec zoneOffset).

(** [getnum(s, fixed)] *)
Definition getnum (s : string) (fixed : bool) : option (Z * string) :=
  match s with
  | EmptyString => None
  | String a rest =>
      if negb (strconv.isDigit a) then None
      else
        match rest with
        | String b rest' =>
            if strconv.isDigit b then Some ((byteZ a - 48) * 10 + (byteZ b - 48), rest')
            else if fixed then None else Some (byteZ a - 48, rest)
        | EmptyString => if fixed then None else Some (byteZ a - 48, rest)
        end
  end.

(** [skip(value, prefix)] for a prefix of one byte that is no space. *)
Definition skipByte (c : ascii) (value : string) : option string :=
  match value with
  | String d rest => if Ascii.eqb c d then Some rest else None
  | EmptyString => None
  end.

(** [Parse(RFC3339, value)], the layout [2006-01-02T15:04:05Z07:00]
    element by element; [None] stands for any error. *)
Definition parseLayout (value : string) : option Time :=
  if (String.length value <? 4)%nat || negb (digitAt value 0) then None
  else
    year ← atoi (str_take 4 value);
    value ← skipByte "-" (str_drop 4 value);
    '(month, value) ← getnum value true;
    if (month <=? 0) || (12 <? month) then None
    else
      value ← skipByte "-" value;
      '(day, value) ← getnum value true;
      value ← skipByte "T" value;
      '(hour, value) ← getnum value false;
      if (hour <? 0) || (24 <=? hour) then None
      else
        value ← skipByte ":" value;
        '(min, value) ← getnum value true;
        if (min <? 0) || (60 <=? min) then None
        else
          value ← skipByte ":" value;
          '(sec, value) ← getnum value true;
          if (sec <? 0) || (60 <=? sec) then None
          else
            '(nsec, value) ←
              (if (2 <=? String.length value)%nat
                  && (match value with String c _ => commaOrPeriod c | _ => false end)
                  && digitAt value 1
               then
                 let n := digitsEnd (String.length value) value 2 in
                 nsec ← parseNanoseconds value n; Some (nsec, str_drop n value)
               else Some (0, value));
            '(zoneOffset, value) ←
              (if byteIs 0 "Z" value then Some (0, str_drop 1 value)
               else if (String.length value <? 6)%nat then None
               else if negb (byteIs 3 ":" value) then None
               else
                 '(hr, _) ← getnum (String.substring 1 2 value) true;
                 '(mm, _) ← getnum (String.substring 4 2 value) true;
                 if (24 <? hr) || (60 <? mm) then None
                 else
                   let zoneOffset := (hr * 60 + mm) * 60 in
                   if byteIs 0 "+" value then Some (zoneOffset, str_drop 6 value)
                   else if byteIs 0 "-" value then Some (- zoneOffset, str_drop 6 value)
                   else None);
            if negb (String.eqb value EmptyString) then None
            else if (day <? 1) || (daysIn month year <? day) then None
            else Some (mk year month day hour min sec nsec zoneOffset).

(** [parseStrictRFC3339]: the short cut, then [Parse]; the checks of
    strictness after [Parse] are switched off in the library. *)
Definition parseStrictRFC3339 (b : string) : option Time :=
  match parseRFC3339 b with
  | Some x => Some x
  | None => parseLayout b
  end.

(** The times of the lossless coding shown below: a date and time of
    day of the years 0 to 9999 in UTC, at a whole second. *)
Definition wholeSecondUTC (x : Time) : bool :=
  valid x && between 0 (year x) 9999 && (nanosecond x =? 0) && (offset x =? 0).

End gotime.

#[global] Instance gotime_TimeValue : TimeValue gotime.Time := {|
  zeroTime := gotime.zero;
  IsZero := gotime.IsZero;
  appendStrictRFC3339 := gotime.appendStrictRFC3339;
  parseStrictRFC3339 := gotime.parseStrictRFC3339
|}.

(** ** Notions used in the statements about the codec *)

(** What follows the value of a member in the text [Marshal] writes: the
    comma before the next member or the closing brace. *)
Definition closes_value (rest : string) : Prop :=
  exists r, rest = String "," r \/ rest = String "}" r.

(** The text [raw] is read as the JSON value [jv] where a member value
    stands, inside one object, given fuel for its length. *)
Definition scans_as (raw : string) (jv : json.value) : Prop :=
  forall fuel rest,
    (String.length raw <= fuel)%nat -> closes_value rest ->
    json.parse_value fuel 1 (raw +:+ rest) = Some (jv, rest).

(** Bytes that a JSON string carries as they are, escaped neither by
    [appendString] nor by [compact]: the ASCII bytes of [htmlSafeSet]. *)
Definition plainByte (c : ascii) : bool :=
  json.htmlSafe (byteZ c) && (byteZ c <? utf8.RuneSelf).

(** The bytes [pre] are the UTF-8 encoding of the rune [r], two to four
    bytes wide. *)
Definition rune_bytes (pre : string) (r : Z) : Prop :=
  (2 <= String.length pre <= 4)%nat /\
  all_chars (fun c => 128 <=? byteZ c) pre = true /\
  (forall tail, utf8.DecodeRune (pre +:+ tail) = (r, String.length pre)) /\
  utf8.EncodeRune r = pre.

(** A value type whose JSON coding loses nothing on the values that
    satisfy [ok]: a value that [omitempty] leaves out is the zero value,
    and any other value is written as a text that is read back as the
    same value. *)
Class LosslessJSON (T : Type) `{JSONValue T} (ok : T -> Prop) : Prop := {
  empty_is_zero : forall v, ok v -> isEmptyValue v = true -> v = zeroValue;
  marshal_unmarshal : forall v, ok v -> isEmptyValue v = false ->
    exists text jv,
      marshalValue v = Some text /\ scans_as text jv /\
      forall cur, unmarshalValue jv cur = Some v
}.

(** A time type whose RFC 3339 coding loses nothing on the times that
    satisfy [ok]: the only zero time is [zeroTime], and any other time is
    written as plain bytes that are read back as the same time. *)
Class LosslessTime (Time : Type) `{TimeValue Time} (ok : Time -> Prop) : Prop := {
  zero_is_zeroTime : forall t, ok t -> IsZero t = true -> t = zeroTime;
  format_parse : forall t, ok t -> IsZero t = false ->
    exists text,
      appendStrictRFC3339 t = Some text /\ all_chars plainByte text = true /\
      parseStrictRFC3339 text = Some t
}.

(** A payload that JSON represents: its strings are valid UTF-8, its
    offset is an [int], and its value and time are within what their
    codings carry. *)
Definition representable {T Time : Type} (okV : T -> Prop) (okT : Time -> Prop)
    (p : CursorData T Time) : Prop :=
  utf8.ValidString (ID p) = true /\ okV (Value p) /\ okT (Timestamp p) /\
  in_int64 (Offset p).

(** The scanner of strings passes over the bytes [x] and keeps them. *)
Definition scan_through (x : string) : Prop :=
  forall t, json.scanString (x +:+ t)
            = option_map (fun r => (x +:+ fst r, snd r)) (json.scanString t).

(** [unquote] turns the bytes [x] into the bytes [y] and goes on. *)
Definition unquote_through (x y : string) : Prop :=
  forall t, json.unquote_loop 0 (x +:+ t)
            = option_map (String.append y) (json.unquote_loop 0 t).

(** The fields [fs] of a struct, as the encoder takes them, are read
    back as the members [ms]: a field that is left out gives no member, a
    field that is kept gives the member of its name, whose value is what
    the scanner makes of the text of the field. *)
Inductive fields_scan : list (string * bool * option string)
                        -> list (string * json.value) -> Prop :=
| fields_scan_nil : fields_scan [] []
| fields_scan_omit name enc fs ms :
    fields_scan fs ms -> fields_scan ((name, true, enc) :: fs) ms
| fields_scan_keep name text jv fs ms :
    scan_through name -> scans_as text jv -> fields_scan fs ms ->
    fields_scan ((name, false, Some text) :: fs) ((name, jv) :: ms).

(** ** Responses (response.go) *)

Module Page.

Record t (T : Type) : Type := mk {
  Items : list T;
  Total : Z;
  Page : Z;
  PageSize : Z;
  TotalPages : Z;
  HasPrev : bool;
  HasNext : bool
}.
Arguments mk {T} _ _ _ _ _ _ _.
Arguments Items {T} _.
Arguments Total {T} _.
Arguments Page {T} _.
Arguments PageSize {T} _.
Arguments TotalPages {T} _.
Arguments HasPrev {T} _.
Arguments HasNext {T} _.

Definition NewPage {T} (items : list T) (total : Z) (p : loc) : M Paginator.t (t T) :=
  totalPages ← Paginator.TotalPages p total;
  v ← load p;
  hasPrev ← Paginator.HasPrevious p;
  hasNext ← Paginator.HasNext p total;
  ret {| Items := items; Total := total; Page := Paginator.Page v;
         PageSize := Paginator.PageSize v; TotalPages := totalPages;
         HasPrev := hasPrev; HasNext := hasNext |}.

Definition Count {T} (p : t T) : Z := Z.of_nat (length (Items p)).

End Page.

(** A GraphQL-style connection.  The cursor function is a function of
    the item; [zero] is the zero value of the item type, with which
    [make] fills a new slice. *)
Module Connection.

Record Edge (T : Type) : Type := mkEdge { Node : T; Cursor : string }.
Arguments mkEdge {T} _ _.
Arguments Node {T} _.
Arguments Cursor {T} _.

Record PageInfo : Type := mkPageInfo {
  HasPreviousPage : bool;
  HasNextPage : bool;
  StartCursor : string;
  EndCursor : string
}.

Record t (T : Type) : Type := mk {
  Edges : list (Edge T);
  Info : PageInfo;
  TotalCount : Z
}.
Arguments mk {T} _ _ _.
Arguments Edges {T} _.
Arguments Info {T} _.
Arguments TotalCount {T} _.

(** The state of the loop of [NewConnection]: the slice of edges and
    the two cursors. *)
Definition loopBody {T} (cursorFn : T -> string) (n : nat)
    (st : list (Edge T) * string * string) (i : nat) (item : T)
  : list (Edge T) * string * string :=
  let '(edges, startCursor, endCursor) := st in
  let cursor := cursorFn item in
  let edges := <[i := mkEdge item cursor]> edges in
  let startCursor := if Nat.eqb i 0 then cursor else startCursor in
  let endCursor := if Z.of_nat i =? Z.of_nat n - 1 then cursor else endCursor in
  (edges, startCursor, endCursor).

(** [for i, item := range items] from the index [i] on. *)
Fixpoint rangeLoop {A St} (body : St -> nat -> A -> St) (i : nat) (items : list A) (st : St)
  : St :=
  match items with
  | [] => st
  | item :: rest => rangeLoop body (S i) rest (body st i item)
  end.

Definition NewConnection {T} (zero : T) (items : list T) (cursorFn : T -> string)
    (hasPrev hasNext : bool) (total : Z) : t T :=
  let edges := replicate (length items) (mkEdge zero EmptyString) in
  let '(edges, startCursor, endCursor) :=
    rangeLoop (loopBody cursorFn (length items)) 0 items (edges, EmptyString, EmptyString) in
  {| Edges := edges;
     Info := {| HasPreviousPage := hasPrev; HasNextPage := hasNext;
                StartCursor := startCursor; EndCursor := endCursor |};
     TotalCount := total |}.

Definition Empty {T} (c : t T) : bool := Z.of_nat (length (Edges c)) =? 0.

Definition Nodes {T} (zero : T) (c : t T) : list T :=
  rangeLoop (fun nodes i edge => <[i := Node edge]> nodes) 0 (Edges c)
    (replicate (length (Edges c)) zero).

Definition Count {T} (c : t T) : Z := Z.of_nat (length (Edges c)).

End Connection.

Module LinkHeader.

Record t : Type := mk { First : string; Prev : string; Next : string; Last : string }.

Definition buildURL (baseURL : string) (params : gmap string (list string)) : string :=
  if Nat.eqb (size params) 0 then baseURL
  else baseURL +:+ "?" +:+ url.Encode params.

(** The header is built in a local object that no other pointer
    reaches; it is given here as the record it holds at the end. *)
Definition BuildLinkHeader (baseURL : string) (p : loc) (total : Z) : M Paginator.t t :=
  totalPages ← Paginator.TotalPages p total;
  if totalPages =? 0 then ret (mk EmptyString EmptyString EmptyString EmptyString)
  else
    first ← Paginator.WithPage p 1;
    params ← Paginator.QueryParams first;
    let hFirst := buildURL baseURL params in
    last ← Paginator.WithPage p totalPages;
    params ← Paginator.QueryParams last;
    let hLast := buildURL baseURL params in
    hasPrev ← Paginator.HasPrevious p;
    hPrev ← (if hasPrev : bool then
               page ← Paginator.PreviousPage p;
               prev ← Paginator.WithPage p page;
               params ← Paginator.QueryParams prev;
               ret (buildURL baseURL params)
             else ret EmptyString);
    hasNext ← Paginator.HasNext p total;
    hNext ← (if hasNext : bool then
               page ← Paginator.NextPage p;
               next ← Paginator.WithPage p page;
               params ← Paginator.QueryParams next;
               ret (buildURL baseURL params)
             else ret EmptyString);
    ret (mk hFirst hPrev hNext hLast).

(** [fmt.Sprintf] of one link with its relation. *)
Definition link (target rel : string) : string :=
  "<" +:+ target +:+ ">; rel=" +:+ String quoteChar (rel +:+ String quoteChar EmptyString).

(** The loop that joins the links with [", "]. *)
Fixpoint joinLinks (i : nat) (links : list string) (result : string) : string :=
  match links with
  | [] => result
  | l :: rest =>
      let result := if Nat.ltb 0 i then result +:+ ", " else result in
      joinLinks (S i) rest (result +:+ l)
  end.

Definition String_ (h : t) : string :=
  let links : list string := [] in
  let links := if negb (String.eqb (First h) "") then links ++ [link (First h) "first"] else links in
  let links := if negb (String.eqb (Prev h) "") then links ++ [link (Prev h) "prev"] else links in
  let links := if negb (String.eqb (Next h) "") then links ++ [link (Next h) "next"] else links in
  let links := if negb (String.eqb (Last h) "") then links ++ [link (Last h) "last"] else links in
  joinLinks 0 links EmptyString.

(** [SetHeader]: the calls made to [header], in order. *)
Definition SetHeader (h : t) : list (string * string) :=
  let linkStr := String_ h in
  if negb (String.eqb linkStr "") then [("Link"%string, linkStr)] else [].

End LinkHeader.

(** ** Notions used in the statements about the store *)

(** A computation that ends in an object holding [v], with every object
    of the store before still there and unchanged. *)
Definition yields {V} (m : M V loc) (v : V) : Prop :=
  forall h, exists q h', m h = Some (q, h') /\ h' !! q = Some v /\ h ⊆ h'.

(** A method that, called on an object holding [v], ends in an object
    holding [f v], with every object of the store before still there and
    unchanged. *)
Definition acts_as {V} (k : loc -> M V loc) (f : V -> V) : Prop :=
  forall h p v, h !! p = Some v ->
    exists q h', k p h = Some (q, h') /\ h' !! q = Some (f v) /\ h ⊆ h'.

(** The number that the parsers of queries take for a key: the value of
    the key when it is not empty, is read by [Atoi] and is positive. *)
Definition queryInt (q : gmap string (list string)) (key : string) : option Z :=
  if String.eqb (Get q key) EmptyString then None
  else
    match strconv.Atoi (Get q key) with
    | Some n => if n >? 0 then Some n else None
    | None => None
    end.

(** ** Sample payloads *)

(** A payload with all four fields set, at the value type [int]. *)
Definition sample_payload : CursorData Z gotime.Time :=
  mkCursorData "user_123" 42 (gotime.mk 2024 1 1 12 0 0 0 0) 7.

(** The payload whose only field set is the identifier [1]: its JSON has
    ten bytes. *)
Definition id_payload : CursorData Z gotime.Time :=
  mkCursorData "1" 0 gotime.zero 0.

(** The round trip of a payload: [EncodeCursor] gives a token without
    error, and [DecodeCursor] at the same value type gives, without
    error, a payload with the same four fields. *)
Definition round_trips {T Time : Type} `{JSONValue T} `{TimeValue Time}
    (p : CursorData T Time) : Prop :=
  exists token,
    EncodeCursor (Some p) = (token, None) /\
    exists q,
      DecodeCursor token = (Some q, None) /\
      ID q = ID p /\ Value q = Value p /\ Timestamp q = Timestamp p /\
      Offset q = Offset p.

(** A payload that [json.Marshal] takes without error, but whose
    identifier is the single byte [0xff], which is not valid UTF-8. *)
Definition bad_utf8_payload : CursorData Z gotime.Time :=
  mkCursorData (String (chr 255) EmptyString) 0 gotime.zero 0.

(** The link that [BuildLinkHeader] makes for a page: the base URL, a
    question mark, and the query string of the page and the page size. *)
Definition pageURL (baseURL : string) (page size : Z) : string :=
  baseURL +:+ "?" +:+ "page=" +:+ strconv.FormatInt page
    +:+ "&page_size=" +:+ strconv.FormatInt size.

(** * Properties of the store and of the paginators *)

Section StoreFacts.
Context {V : Type}.
Implicit Types (h : gmap loc V) (v : V).

Lemma fresh_lookup_None h : h !! fresh (dom h) = None.
Proof. apply not_elem_of_dom, is_fresh. Qed.

Lemma bind_Some {A B} (m : M V A) (k : A -> M V B) h a h' :
  m h = Some (a, h') -> (m ≫= k) h = k a h'.
Proof. intros Hm. unfold mbind, M_bind, bind. now rewrite Hm. Qed.

Lemma new_eq v h : new v h = Some (fresh (dom h), <[fresh (dom h) := v]> h).
Proof. reflexivity. Qed.

Lemma load_eq l h v : h !! l = Some v -> load l h = Some (v, h).
Proof. intros Hl. unfold load. now rewrite Hl. Qed.

Lemma store_eq l h v w : h !! l = Some v -> store l w h = Some (tt, <[l := w]> h).
Proof. intros Hl. unfold store. now rewrite Hl. Qed.

(** Allocating a copy and then overwriting it leaves one new object. *)
Lemma new_then_store {A} v w (k : loc -> M V A) h :
  (l ← new v; _ ← store l w; k l) h
  = k (fresh (dom h)) (<[fresh (dom h) := w]> h).
Proof.
  rewrite (bind_Some _ _ _ _ _ (new_eq v h)).
  erewrite bind_Some by (apply store_eq with (v := v), lookup_insert_eq).
  now rewrite insert_insert_eq.
Qed.
End StoreFacts.

Module PaginatorFacts.
Import Paginator.

Lemma WithPage_eq h p v page :
  h !! p = Some v ->
  WithPage p page h
  = Some (fresh (dom h),
          <[fresh (dom h) := {| Page := if page <? 1 then DefaultPage else page;
                                PageSize := PageSize v |}]> h).
Proof.
  intros Hp. unfold WithPage, Clone, setPage, mbind, M_bind, bind, load, new, store, ret.
  rewrite Hp. cbv zeta. rewrite !lookup_insert_eq, insert_insert_eq. reflexivity.
Qed.

Lemma WithPageSize_eq h p v size :
  h !! p = Some v ->
  WithPageSize p size h
  = Some (fresh (dom h),
          <[fresh (dom h) := {| Page := Page v; PageSize := clampSize size |}]> h).
Proof.
  intros Hp. unfold WithPageSize, Clone, setPageSize, mbind, M_bind, bind, load, new, store, ret.
  rewrite Hp. cbv zeta. rewrite !lookup_insert_eq, insert_insert_eq. reflexivity.
Qed.

Lemma clampSize_bounds size : MinPageSize <= clampSize size <= MaxPageSize.
Proof.
  unfold clampSize, MinPageSize, MaxPageSize, DefaultPageSize.
  destruct (size <? 1) eqn:E1; cbn.
  - lia.
  - destruct (size >? 1000) eqn:E2; lia.
Qed.

Lemma clampSize_cases size :
  (size < MinPageSize -> clampSize size = DefaultPageSize) /\
  (size > MaxPageSize -> clampSize size = MaxPageSize) /\
  (MinPageSize <= size <= MaxPageSize -> clampSize size = size).
Proof.
  unfold clampSize, MinPageSize, MaxPageSize, DefaultPageSize.
  destruct (size <? 1) eqn:E1; cbn.
  - repeat split; lia.
  - destruct (size >? 1000) eqn:E2; repeat split; lia.
Qed.

Lemma Validate_valid h p v :
  h !! p = Some v -> valid v -> Validate p h = Some (None, h).
Proof.
  intros Hp [H1 [H2 H3]]. unfold Validate, mbind, M_bind, bind, load. rewrite Hp.
  unfold MinPageSize, MaxPageSize in *.
  destruct (Page v <? 1) eqn:E1; [lia|].
  destruct (PageSize v <? 1) eqn:E2; [lia|].
  destruct (PageSize v >? 1000) eqn:E3; [lia|].
  reflexivity.
Qed.

Lemma yields_valid_bind m k :
  yields_valid m -> keeps_valid k -> yields_valid (m ≫= k).
Proof.
  intros Hm Hk h. destruct (Hm h) as (q & h' & v & E & Hq & Hv).
  rewrite (bind_Some _ _ _ _ _ E). eauto.
Qed.

Lemma keeps_valid_bind k1 k2 :
  keeps_valid k1 -> keeps_valid k2 -> keeps_valid (fun p => k1 p ≫= k2).
Proof.
  intros H1 H2 h p v Hp Hv. destruct (H1 h p v Hp Hv) as (q & h' & v' & E & Hq & Hv').
  rewrite (bind_Some _ _ _ _ _ E). eauto.
Qed.

Lemma keeps_valid_ret : keeps_valid ret.
Proof. intros h p v Hp Hv. exists p, h, v. auto. Qed.

Lemma keeps_valid_WithPage page : keeps_valid (fun p => WithPage p page).
Proof.
  intros h p v Hp [H1 H2]. eexists _, _, _. split; [apply WithPage_eq, Hp|].
  split; [apply lookup_insert_eq|]. split; cbn; [|exact H2].
  unfold DefaultPage. destruct (page <? 1) eqn:E; lia.
Qed.

Lemma keeps_valid_WithPageSize size : keeps_valid (fun p => WithPageSize p size).
Proof.
  intros h p v Hp [H1 H2]. eexists _, _, _. split; [apply WithPageSize_eq, Hp|].
  split; [apply lookup_insert_eq|]. split; cbn; [exact H1|apply clampSize_bounds].
Qed.

Lemma yields_valid_New : yields_valid New.
Proof.
  intros h. eexists _, _, _. split; [apply new_eq|]. split; [apply lookup_insert_eq|].
  unfold valid, DefaultPage, DefaultPageSize, MinPageSize, MaxPageSize; cbn. lia.
Qed.

Create HintDb valid_db.
#[local] Hint Resolve keeps_valid_ret keeps_valid_WithPage keeps_valid_WithPageSize
  yields_valid_New : valid_db.

Lemma keeps_valid_op op : keeps_valid (run_paginator_op op).
Proof.
  destruct op as [page|size]; intros h p v; cbn.
  - apply keeps_valid_WithPage.
  - apply keeps_valid_WithPageSize.
Qed.

Lemma keeps_valid_chain ops : keeps_valid (run_paginator_chain ops).
Proof.
  induction ops as [|op ops IH]; cbn.
  - apply keeps_valid_ret.
  - apply (keeps_valid_bind (run_paginator_op op)); [apply keeps_valid_op | exact IH].
Qed.

Lemma yields_valid_NewFromValues page size : yields_valid (NewFromValues page size).
Proof.
  unfold NewFromValues. apply yields_valid_bind; [apply yields_valid_New|].
  apply (keeps_valid_bind (fun p => WithPage p page)); auto with valid_db.
Qed.

Lemma yields_valid_FromQuery q : yields_valid (FromQuery q).
Proof.
  unfold FromQuery.
  apply yields_valid_bind; [apply yields_valid_New|].
  repeat match goal with
  | |- keeps_valid (fun p => _ ≫= _) => apply keeps_valid_bind
  | |- keeps_valid (fun p => ret p) => apply keeps_valid_ret
  | |- keeps_valid (fun p => if ?b then _ else _) => destruct b
  | |- keeps_valid (fun p => match ?o with Some _ => _ | None => _ end) => destruct o
  | |- _ => progress auto with valid_db
  end.
Qed.

Lemma yields_valid_FromMap m : yields_valid (FromMap m).
Proof.
  unfold FromMap.
  apply yields_valid_bind; [apply yields_valid_New|].
  repeat match goal with
  | |- keeps_valid (fun p => _ ≫= _) => apply keeps_valid_bind
  | |- keeps_valid (fun p => ret p) => apply keeps_valid_ret
  | |- keeps_valid (fun p => if ?b then _ else _) => destruct b
  | |- keeps_valid (fun p => match ?o with Some _ => _ | None => _ end) => destruct o
  | |- _ => progress (cbv zeta; auto with valid_db)
  end.
Qed.

Lemma yields_valid_ctor c : yields_valid (run_paginator_ctor c).
Proof.
  destruct c; cbn; auto using yields_valid_New, yields_valid_NewFromValues,
    yields_valid_FromQuery, yields_valid_FromMap.
Qed.

End PaginatorFacts.

(** C9. Every paginator that [New], [NewFromValues], [FromQuery] or
    [FromMap] builds, and every paginator that a chain of [WithPage] and
    [WithPageSize] calls derives from one of them, has [Page >= 1] and
    [MinPageSize <= PageSize <= MaxPageSize]; [Validate] returns nil on
    it.  This holds in every store. *)
Theorem constructed_paginator_is_valid :
  forall (c : paginator_ctor) (ops : list paginator_op) (h : gmap loc Paginator.t),
  exists (p : loc) (h' : gmap loc Paginator.t) (v : Paginator.t),
    (q ← run_paginator_ctor c; run_paginator_chain ops q) h = Some (p, h') /\
    h' !! p = Some v /\
    1 <= Paginator.Page v /\
    MinPageSize <= Paginator.PageSize v <= MaxPageSize /\
    Paginator.Validate p h' = Some (None, h').
Proof.
  intros c ops h.
  destruct (PaginatorFacts.yields_valid_bind _ _
              (PaginatorFacts.yields_valid_ctor c)
              (PaginatorFacts.keeps_valid_chain ops) h)
    as (p & h' & v & E & Hp & Hv).
  exists p, h', v. split; [exact E|]. split; [exact Hp|].
  destruct Hv as [H1 H2]. split; [exact H1|]. split; [exact H2|].
  apply PaginatorFacts.Validate_valid with (v := v); [exact Hp | split; assumption].
Qed.

Module CursorPaginatorFacts.
Import CursorPaginator.

Lemma WithLimit_eq h c v limit :
  h !! c = Some v ->
  WithLimit c limit h
  = Some (fresh (dom h),
          <[fresh (dom h) := {| Cursor := Cursor v; Limit := clampSize limit;
                                Forward := Forward v |}]> h).
Proof.
  intros Hc. unfold WithLimit, Clone, setLimit, mbind, M_bind, bind, load, new, store, ret.
  rewrite Hc. cbv zeta. rewrite !lookup_insert_eq, insert_insert_eq. reflexivity.
Qed.

Lemma WithCursor_eq h c v cursor :
  h !! c = Some v ->
  WithCursor c cursor h
  = Some (fresh (dom h),
          <[fresh (dom h) := {| Cursor := cursor; Limit := Limit v;
                                Forward := Forward v |}]> h).
Proof.
  intros Hc. unfold WithCursor, Clone, setCursor, mbind, M_bind, bind, load, new, store, ret.
  rewrite Hc. cbv zeta. rewrite !lookup_insert_eq, insert_insert_eq. reflexivity.
Qed.

Lemma WithForward_eq h c v forward :
  h !! c = Some v ->
  WithForward c forward h
  = Some (fresh (dom h),
          <[fresh (dom h) := {| Cursor := Cursor v; Limit := Limit v;
                                Forward := forward |}]> h).
Proof.
  intros Hc. unfold WithForward, Clone, setForward, mbind, M_bind, bind, load, new, store, ret.
  rewrite Hc. cbv zeta. rewrite !lookup_insert_eq, insert_insert_eq. reflexivity.
Qed.

End CursorPaginatorFacts.

(** A method whose outcome is one fresh object added to the store is
    copy-on-write: the receiver is another object and keeps its value,
    and no other object is written. *)
Lemma fresh_insert_frame {V} (h : gmap loc V) (p : loc) (v w : V) :
  h !! p = Some v ->
  h !! fresh (dom h) = None /\
  fresh (dom h) <> p /\
  <[fresh (dom h) := w]> h !! p = Some v /\
  (forall l, l <> fresh (dom h) -> <[fresh (dom h) := w]> h !! l = h !! l) /\
  <[fresh (dom h) := w]> h !! fresh (dom h) = Some w.
Proof.
  intros Hp. pose proof (fresh_lookup_None h) as Hq.
  assert (Hne : fresh (dom h) <> p) by congruence.
  split; [exact Hq|]. split; [exact Hne|].
  split; [rewrite lookup_insert_ne by exact Hne; exact Hp|].
  split; [intros l Hl; apply lookup_insert_ne; congruence|].
  apply lookup_insert_eq.
Qed.

(** C6. [WithLimit(n)] on a cursor paginator and [WithPageSize(n)] on an
    offset paginator return a paginator whose limit, respectively page
    size, is [DefaultPageSize] when [n < MinPageSize], [MaxPageSize] when
    [n > MaxPageSize], and [n] itself when [n] lies between the bounds. *)
Theorem with_limit_and_page_size_clamp
    (hc : gmap loc CursorPaginator.t) (hp : gmap loc Paginator.t)
    (c p : loc) (vc : CursorPaginator.t) (vp : Paginator.t) (n : Z) :
  hc !! c = Some vc ->
  hp !! p = Some vp ->
  exists qc hc' vc' qp hp' vp',
    CursorPaginator.WithLimit c n hc = Some (qc, hc') /\ hc' !! qc = Some vc' /\
    Paginator.WithPageSize p n hp = Some (qp, hp') /\ hp' !! qp = Some vp' /\
    (n < MinPageSize ->
       CursorPaginator.Limit vc' = DefaultPageSize /\
       Paginator.PageSize vp' = DefaultPageSize) /\
    (n > MaxPageSize ->
       CursorPaginator.Limit vc' = MaxPageSize /\
       Paginator.PageSize vp' = MaxPageSize) /\
    (MinPageSize <= n <= MaxPageSize ->
       CursorPaginator.Limit vc' = n /\ Paginator.PageSize vp' = n).
Proof.
  intros Hc Hp.
  eexists _, _, _, _, _, _.
  split; [apply CursorPaginatorFacts.WithLimit_eq, Hc|].
  split; [apply lookup_insert_eq|].
  split; [apply PaginatorFacts.WithPageSize_eq, Hp|].
  split; [apply lookup_insert_eq|].
  cbn. destruct (PaginatorFacts.clampSize_cases n) as (H1 & H2 & H3).
  repeat split; auto.
Qed.

Lemma with_limit_and_page_size_clamp_witness :
  exists qc hc' vc' qp hp' vp',
    CursorPaginator.WithLimit 1%positive 0
      {[ 1%positive := CursorPaginator.mk "abc" 50 false ]} = Some (qc, hc') /\
    hc' !! qc = Some vc' /\
    Paginator.WithPageSize 1%positive 0
      {[ 1%positive := Paginator.mk 3 50 ]} = Some (qp, hp') /\
    hp' !! qp = Some vp' /\
    (0 < MinPageSize ->
       CursorPaginator.Limit vc' = DefaultPageSize /\
       Paginator.PageSize vp' = DefaultPageSize) /\
    (0 > MaxPageSize ->
       CursorPaginator.Limit vc' = MaxPageSize /\
       Paginator.PageSize vp' = MaxPageSize) /\
    (MinPageSize <= 0 <= MaxPageSize ->
       CursorPaginator.Limit vc' = 0 /\ Paginator.PageSize vp' = 0).
Proof.
  apply (with_limit_and_page_size_clamp
           {[ 1%positive := CursorPaginator.mk "abc" 50 false ]}
           {[ 1%positive := Paginator.mk 3 50 ]}
           1%positive 1%positive
           (CursorPaginator.mk "abc" 50 false) (Paginator.mk 3 50) 0);
    reflexivity.
Defined.

(** C8. Each with-X method ([WithPage], [WithPageSize] of the offset
    paginator; [WithLimit], [WithCursor], [WithForward] of the cursor
    paginator) returns an object that the store did not hold before, so a
    different one from the receiver; the receiver holds the same value
    afterwards; no other object is written; and every field of the result
    other than the one the method sets equals the receiver's. *)
Theorem with_methods_copy_on_write
    (hp : gmap loc Paginator.t) (hc : gmap loc CursorPaginator.t)
    (p c : loc) (vp : Paginator.t) (vc : CursorPaginator.t)
    (pop : paginator_op) (cop : cursor_op) :
  hp !! p = Some vp ->
  hc !! c = Some vc ->
  (exists q hp' vp',
     run_paginator_op pop p hp = Some (q, hp') /\
     hp !! q = None /\ q <> p /\
     hp' !! p = Some vp /\
     (forall l, l <> q -> hp' !! l = hp !! l) /\
     hp' !! q = Some vp' /\
     match pop with
     | OpWithPage _ => Paginator.PageSize vp' = Paginator.PageSize vp
     | OpWithPageSize _ => Paginator.Page vp' = Paginator.Page vp
     end) /\
  (exists q hc' vc',
     run_cursor_op cop c hc = Some (q, hc') /\
     hc !! q = None /\ q <> c /\
     hc' !! c = Some vc /\
     (forall l, l <> q -> hc' !! l = hc !! l) /\
     hc' !! q = Some vc' /\
     match cop with
     | OpWithLimit _ =>
         CursorPaginator.Cursor vc' = CursorPaginator.Cursor vc /\
         CursorPaginator.Forward vc' = CursorPaginator.Forward vc
     | OpWithCursor _ =>
         CursorPaginator.Limit vc' = CursorPaginator.Limit vc /\
         CursorPaginator.Forward vc' = CursorPaginator.Forward vc
     | OpWithForward _ =>
         CursorPaginator.Cursor vc' = CursorPaginator.Cursor vc /\
         CursorPaginator.Limit vc' = CursorPaginator.Limit vc
     end).
Proof.
  intros Hp Hc. split.
  - destruct pop as [page|size]; cbn [run_paginator_op];
      eexists _, _, _;
      (split; [first [apply PaginatorFacts.WithPage_eq, Hp
                     | apply PaginatorFacts.WithPageSize_eq, Hp]|]);
      match goal with
      | |- context [<[_ := ?w]> hp] =>
          destruct (fresh_insert_frame hp p vp w Hp) as (F1 & F2 & F3 & F4 & F5)
      end;
      repeat (split; [eassumption|]); reflexivity.
  - destruct cop as [limit|cursor|forward]; cbn [run_cursor_op];
      eexists _, _, _;
      (split; [first [apply CursorPaginatorFacts.WithLimit_eq, Hc
                     | apply CursorPaginatorFacts.WithCursor_eq, Hc
                     | apply CursorPaginatorFacts.WithForward_eq, Hc]|]);
      match goal with
      | |- context [<[_ := ?w]> hc] =>
          destruct (fresh_insert_frame hc c vc w Hc) as (F1 & F2 & F3 & F4 & F5)
      end;
      repeat (split; [eassumption|]); split; reflexivity.
Qed.

Lemma with_methods_copy_on_write_witness :
  (exists q hp' vp',
     run_paginator_op (OpWithPage 7) 1%positive {[ 1%positive := Paginator.mk 3 50 ]}
       = Some (q, hp') /\
     ({[ 1%positive := Paginator.mk 3 50 ]} : gmap loc Paginator.t) !! q = None /\
     q <> 1%positive /\
     hp' !! 1%positive = Some (Paginator.mk 3 50) /\
     (forall l, l <> q ->
        hp' !! l = ({[ 1%positive := Paginator.mk 3 50 ]} : gmap loc Paginator.t) !! l) /\
     hp' !! q = Some vp' /\
     Paginator.PageSize vp' = 50) /\
  (exists q hc' vc',
     run_cursor_op (OpWithForward true) 1%positive
       {[ 1%positive := CursorPaginator.mk "abc" 50 false ]} = Some (q, hc') /\
     ({[ 1%positive := CursorPaginator.mk "abc" 50 false ]}
        : gmap loc CursorPaginator.t) !! q = None /\
     q <> 1%positive /\
     hc' !! 1%positive = Some (CursorPaginator.mk "abc" 50 false) /\
     (forall l, l <> q ->
        hc' !! l = ({[ 1%positive := CursorPaginator.mk "abc" 50 false ]}
                      : gmap loc CursorPaginator.t) !! l) /\
     hc' !! q = Some vc' /\
     CursorPaginator.Cursor vc' = "abc"%string /\
     CursorPaginator.Limit vc' = 50).
Proof.
  apply (with_methods_copy_on_write
           {[ 1%positive := Paginator.mk 3 50 ]}
           {[ 1%positive := CursorPaginator.mk "abc" 50 false ]}
           1%positive 1%positive
           (Paginator.mk 3 50) (CursorPaginator.mk "abc" 50 false)
           (OpWithPage 7) (OpWithForward true));
    reflexivity.
Defined.

Lemma wrap64_id z : in_int64 z -> wrap64 z = z.
Proof.
  unfold in_int64, wrap64, MinInt64, MaxInt64. intros Hz.
  rewrite Z.mod_small; lia.
Qed.

Lemma wrap64_range z : in_int64 (wrap64 z).
Proof.
  unfold in_int64, wrap64, MinInt64, MaxInt64.
  pose proof (Z.mod_pos_bound (z + 2 ^ 63) (2 ^ 64) ltac:(lia)). lia.
Qed.

Lemma Offset_eq h p v :
  h !! p = Some v ->
  Paginator.Offset p h
  = Some (wrap64 (wrap64 (Paginator.Page v - 1) * Paginator.PageSize v), h).
Proof.
  intros Hp. unfold Paginator.Offset, mbind, M_bind, bind, load. now rewrite Hp.
Qed.

(** [Offset()] as the code computes it: the product
    [(Page - 1) * PageSize] wrapped into 64 bits.  It is the exact product
    whenever that product fits in an [int64]: for page 3 of size 20 it is
    40, for page 100 of size 50 it is 4950, it is exact for every page
    and page size in the 32-bit range, and with a page size of
    [MaxPageSize / 2] it is exact and not negative for every page from 1
    up to [MaxInt64 / 500 + 1]. *)
Theorem offset_is_wrapped_product
    (h : gmap loc Paginator.t) (p : loc) (v : Paginator.t) :
  h !! p = Some v ->
  in_int64 (Paginator.Page v) ->
  Paginator.Offset p h
    = Some (wrap64 (wrap64 (Paginator.Page v - 1) * Paginator.PageSize v), h) /\
  (MinInt64 < Paginator.Page v ->
   in_int64 ((Paginator.Page v - 1) * Paginator.PageSize v) ->
   Paginator.Offset p h
     = Some ((Paginator.Page v - 1) * Paginator.PageSize v, h)) /\
  (MinInt32 <= Paginator.Page v <= MaxInt32 ->
   MinInt32 <= Paginator.PageSize v <= MaxInt32 ->
   Paginator.Offset p h
     = Some ((Paginator.Page v - 1) * Paginator.PageSize v, h)) /\
  (1 <= Paginator.Page v <= MaxInt64 / 500 + 1 ->
   Paginator.PageSize v = MaxPageSize / 2 ->
   Paginator.Offset p h
     = Some ((Paginator.Page v - 1) * Paginator.PageSize v, h) /\
   0 <= (Paginator.Page v - 1) * Paginator.PageSize v <= MaxInt64) /\
  (Paginator.Page v = 3 -> Paginator.PageSize v = 20 ->
   Paginator.Offset p h = Some (40, h)) /\
  (Paginator.Page v = 100 -> Paginator.PageSize v = 50 ->
   Paginator.Offset p h = Some (4950, h)).
Proof.
  intros Hp Hpage. rewrite (Offset_eq h p v Hp).
  assert (Hexact : MinInt64 < Paginator.Page v ->
                   in_int64 ((Paginator.Page v - 1) * Paginator.PageSize v) ->
                   Some (wrap64 (wrap64 (Paginator.Page v - 1) * Paginator.PageSize v), h)
                   = Some ((Paginator.Page v - 1) * Paginator.PageSize v, h)).
  { intros Hmin Hprod. rewrite (wrap64_id (Paginator.Page v - 1)).
    - now rewrite wrap64_id.
    - unfold in_int64, MinInt64, MaxInt64 in *. lia. }
  split; [reflexivity|]. split; [exact Hexact|].
  unfold in_int64, MinInt64, MaxInt64, MinInt32, MaxInt32, MaxPageSize in *.
  split; [|split; [|split]].
  - intros H1 H2. apply Hexact; nia.
  - intros H1 H2. change (1000 / 2) with 500 in H2.
    assert (Hq : (2 ^ 63 - 1) / 500 = 18446744073709551) by reflexivity.
    rewrite Hq in H1.
    assert (Hr : 0 <= (Paginator.Page v - 1) * Paginator.PageSize v <= 2 ^ 63 - 1)
      by (rewrite H2; lia).
    split; [apply Hexact; lia | exact Hr].
  - intros H1 H2. rewrite H1, H2. reflexivity.
  - intros H1 H2. rewrite H1, H2. reflexivity.
Qed.

Lemma offset_is_wrapped_product_witness :
  Paginator.Offset 1%positive {[ 1%positive := Paginator.mk 3 20 ]}
  = Some (40, {[ 1%positive := Paginator.mk 3 20 ]}).
Proof.
  apply (offset_is_wrapped_product
           {[ 1%positive := Paginator.mk 3 20 ]} 1%positive (Paginator.mk 3 20));
    [reflexivity | unfold in_int64, MinInt64, MaxInt64; simpl Paginator.Page; lia
    | reflexivity | reflexivity].
Defined.

(** That [Offset()] is the exact product for
    every paginator, fails: the paginator of page [MaxInt64] with page
    size [MaxPageSize / 2] passes [Validate], its exact product is
    4611686018427387903000, beyond [int64], and [Offset()] returns
    [-1000]. *)
Lemma offset_overflow_counterexample :
  valid (Paginator.mk MaxInt64 (MaxPageSize / 2)) /\
  in_int64 MaxInt64 /\ in_int64 (MaxPageSize / 2) /\
  (MaxInt64 - 1) * (MaxPageSize / 2) = 4611686018427387903000 /\
  Paginator.Offset 1%positive {[ 1%positive := Paginator.mk MaxInt64 (MaxPageSize / 2) ]}
  = Some (-1000, {[ 1%positive := Paginator.mk MaxInt64 (MaxPageSize / 2) ]}) /\
  Paginator.Offset 1%positive {[ 1%positive := Paginator.mk MaxInt64 (MaxPageSize / 2) ]}
  <> Some ((MaxInt64 - 1) * (MaxPageSize / 2),
           {[ 1%positive := Paginator.mk MaxInt64 (MaxPageSize / 2) ]}).
Proof.
  split; [unfold valid, MinPageSize, MaxPageSize, MaxInt64;
          simpl Paginator.Page; simpl Paginator.PageSize; change (1000 / 2) with 500; lia|].
  split; [unfold in_int64, MinInt64, MaxInt64; lia|].
  split; [unfold in_int64, MinInt64, MaxInt64, MaxPageSize; change (1000 / 2) with 500; lia|].
  split; [reflexivity|].
  assert (E : Paginator.Offset 1%positive
                {[ 1%positive := Paginator.mk MaxInt64 (MaxPageSize / 2) ]}
              = Some (-1000, {[ 1%positive := Paginator.mk MaxInt64 (MaxPageSize / 2) ]})).
  { rewrite (Offset_eq _ _ (Paginator.mk MaxInt64 (MaxPageSize / 2)))
      by apply lookup_singleton_eq.
    reflexivity. }
  split; [exact E|]. rewrite E. intros H. inversion H.
Qed.

(** C4.  The code breaks the claim on a paginator that it builds and
    accepts.  [FromQuery] on the query
    [page=9223372036854775807&page_size=500] gives the paginator of page
    [MaxInt64] and page size [MaxPageSize / 2]; [Validate] accepts it; the
    exact product [(Page - 1) * PageSize] is 4611686018427387903000, which
    no [int64] holds; and [Offset()] returns [-1000], a negative
    offset. *)
Theorem offset_overflows_on_accepted_paginator :
  exists q h',
    Paginator.FromQuery
      {[ "page"%string := ["9223372036854775807"%string];
         "page_size"%string := ["500"%string] ]} ∅ = Some (q, h') /\
    h' !! q = Some (Paginator.mk MaxInt64 (MaxPageSize / 2)) /\
    Paginator.Validate q h' = Some (None, h') /\
    Paginator.Offset q h' = Some (-1000, h') /\
    (MaxInt64 - 1) * (MaxPageSize / 2) = 4611686018427387903000 /\
    ~ in_int64 ((MaxInt64 - 1) * (MaxPageSize / 2)).
Proof.
  remember (Paginator.FromQuery
              {[ "page"%string := ["9223372036854775807"%string];
                 "page_size"%string := ["500"%string] ]} ∅) as r eqn:E.
  vm_compute in E. rewrite E. eexists _, _. split; [reflexivity|].
  split; [vm_compute; reflexivity|]. split; [vm_compute; reflexivity|].
  split; [vm_compute; reflexivity|]. split; [reflexivity|].
  unfold in_int64, MinInt64, MaxInt64, MaxPageSize. change (1000 / 2) with 500. lia.
Qed.

(** * The range header parser *)

Lemma append_nil_l (s : string) : "" +:+ s = s.
Proof. reflexivity. Qed.

Lemma append_cons (c : ascii) (a b : string) : String c a +:+ b = String c (a +:+ b).
Proof. reflexivity. Qed.

Lemma append_nil_r (s : string) : s +:+ "" = s.
Proof. induction s as [|c s IH]; [reflexivity|]. now rewrite append_cons, IH. Qed.

Lemma append_assoc (a b c : string) : (a +:+ b) +:+ c = a +:+ (b +:+ c).
Proof.
  induction a as [|x a IH]; [reflexivity|]. now rewrite !append_cons, IH.
Qed.

Section SpanFacts.
Variable f : ascii -> bool.

Lemma span_sound s pre post :
  span f s = (pre, post) ->
  s = pre +:+ post /\ all_chars f pre = true /\
  match post with
  | EmptyString => True
  | String c _ => f c = false
  end.
Proof.
  revert pre post. induction s as [|c s IH]; intros pre post; cbn.
  - intros [= <- <-]. auto.
  - destruct (f c) eqn:Ec.
    + destruct (span f s) as [pre' post'] eqn:Es. intros [= <- <-].
      destruct (IH pre' post' eq_refl) as (-> & Hall & Hpost).
      rewrite append_cons. cbn. rewrite Ec, Hall. auto.
    + intros [= <- <-]. rewrite append_nil_l. cbn. auto.
Qed.

Lemma span_complete pre post :
  all_chars f pre = true ->
  match post with
  | EmptyString => True
  | String c _ => f c = false
  end ->
  span f (pre +:+ post) = (pre, post).
Proof.
  intros Hall Hpost. induction pre as [|c pre IH].
  - rewrite append_nil_l. destruct post as [|d post]; cbn; [reflexivity|].
    cbn in Hpost. now rewrite Hpost.
  - cbn in Hall. apply andb_true_iff in Hall as [Hc Hall].
    rewrite append_cons. cbn. rewrite Hc, (IH Hall). reflexivity.
Qed.
End SpanFacts.

(** The matcher accepts exactly the strings of the grammar, with the same
    groups. *)
Lemma rangeRegex_iff_grammar header unit start end_ :
  rangeRegex_FindStringSubmatch header = Some (unit, start, end_)
  <-> range_grammar header unit start end_.
Proof.
  unfold rangeRegex_FindStringSubmatch, range_grammar. split.
  - destruct (span isWordChar header) as [u r1] eqn:E1.
    destruct u as [|u0 u]; [discriminate|].
    destruct r1 as [|c1 r2]; [discriminate|].
    destruct (Ascii.eqb_spec c1 "="%char) as [->|Hne]; cycle 1.
    { destruct c1 as [[] [] [] [] [] [] [] []]; try discriminate. now contradict Hne. }
    cbn match.
    destruct (span strconv.isDigit r2) as [st r3] eqn:E2.
    destruct st as [|s0 st]; [discriminate|].
    destruct r3 as [|c3 r4]; [discriminate|].
    destruct (Ascii.eqb_spec c3 "-"%char) as [->|Hne]; cycle 1.
    { destruct c3 as [[] [] [] [] [] [] [] []]; try discriminate. now contradict Hne. }
    cbn match.
    destruct (span strconv.isDigit r4) as [en r5] eqn:E3.
    destruct r5; [|discriminate]. intros [= <- <- <-].
    apply span_sound in E1 as (-> & H1 & _).
    apply span_sound in E2 as (-> & H2 & _).
    apply span_sound in E3 as (-> & H3 & _).
    repeat split; try discriminate; try assumption.
    now rewrite append_nil_r, !append_cons, !append_nil_l.
  - intros (-> & Hu & Hwu & Hs & Hds & Hde).
    rewrite (span_complete isWordChar unit _ Hwu) by reflexivity.
    destruct unit as [|u0 unit]; [congruence|].
    rewrite append_cons, append_nil_l. cbn match.
    rewrite (span_complete strconv.isDigit start _ Hds) by reflexivity.
    destruct start as [|s0 start]; [congruence|].
    rewrite append_cons, append_nil_l. cbn match.
    rewrite <- (append_nil_r end_) at 1.
    rewrite (span_complete strconv.isDigit end_ _ Hde) by exact I.
    reflexivity.
Qed.

Lemma isDigit_range c : strconv.isDigit c = true -> 0 <= byteZ c - 48 <= 9.
Proof. unfold strconv.isDigit. intros H. apply andb_true_iff in H as [H1 H2]. lia. Qed.

Lemma isDigit_not_sign c :
  strconv.isDigit c = true -> Ascii.eqb c "+" = false /\ Ascii.eqb c "-" = false.
Proof.
  intros H. split.
  - destruct (Ascii.eqb_spec c "+") as [->|]; [discriminate H | reflexivity].
  - destruct (Ascii.eqb_spec c "-") as [->|]; [discriminate H | reflexivity].
Qed.

Lemma digitsValue_decimal s : forall acc,
  all_chars strconv.isDigit s = true ->
  strconv.digitsValue acc s = Some (decimal_acc acc s).
Proof.
  induction s as [|c s IH]; intros acc H; cbn in *; [reflexivity|].
  apply andb_true_iff in H as [Hc Hs]. rewrite Hc. now apply IH.
Qed.

Lemma decimal_acc_lower s : forall acc,
  0 <= acc -> all_chars strconv.isDigit s = true -> acc <= decimal_acc acc s.
Proof.
  induction s as [|c s IH]; intros acc Hacc H; cbn in *; [lia|].
  apply andb_true_iff in H as [Hc Hs]. pose proof (isDigit_range c Hc).
  specialize (IH (acc * 10 + (byteZ c - 48)) ltac:(lia) Hs). lia.
Qed.

Lemma decimal_nonneg s : all_chars strconv.isDigit s = true -> 0 <= decimal s.
Proof. intros H. now apply (decimal_acc_lower s 0). Qed.

(** [ParseInt] on a run of digits: its number, unless that is beyond
    [MaxInt64]. *)
Lemma ParseInt_digits s :
  s <> EmptyString -> all_chars strconv.isDigit s = true ->
  strconv.ParseInt s = if decimal s <? 2 ^ 63 then Some (decimal s) else None.
Proof.
  intros Hne Hall. destruct s as [|c s]; [congruence|].
  unfold strconv.ParseInt.
  pose proof Hall as Hall'. cbn in Hall'. apply andb_true_iff in Hall' as [Hc _].
  destruct (isDigit_not_sign c Hc) as [-> ->]. cbn [orb].
  rewrite (digitsValue_decimal _ 0 Hall). reflexivity.
Qed.

Lemma wrap64_add_l a b : wrap64 (wrap64 a + b) = wrap64 (a + b).
Proof.
  unfold wrap64. f_equal.
  replace ((a + 2 ^ 63) mod 2 ^ 64 - 2 ^ 63 + b + 2 ^ 63)
    with ((a + 2 ^ 63) mod 2 ^ 64 + b) by lia.
  rewrite Zplus_mod_idemp_l. f_equal. lia.
Qed.

Lemma grammar_header_nonempty header unit start end_ :
  range_grammar header unit start end_ -> String.eqb header EmptyString = false.
Proof.
  intros (-> & Hu & _). destruct unit as [|c unit]; [congruence|]. reflexivity.
Qed.

(** What [ParseRangeHeader] returns on a header of the grammar. *)
Lemma ParseRangeHeader_grammar header unit start end_ :
  range_grammar header unit start end_ ->
  Range.ParseRangeHeader header
  = if decimal start <? 2 ^ 63 then
      if String.eqb end_ EmptyString then
        (Some (Range.mk (decimal start) (wrap64 (decimal start + 19)) unit),
         Range.Validate (Range.mk (decimal start) (wrap64 (decimal start + 19)) unit))
      else if decimal end_ <? 2 ^ 63 then
        (Some (Range.mk (decimal start) (decimal end_) unit),
         Range.Validate (Range.mk (decimal start) (decimal end_) unit))
      else (None, Some ErrInvalidRange)
    else (None, Some ErrInvalidOffset).
Proof.
  intros Hg. unfold Range.ParseRangeHeader.
  rewrite (grammar_header_nonempty _ _ _ _ Hg).
  rewrite (proj2 (rangeRegex_iff_grammar _ _ _ _) Hg).
  destruct Hg as (_ & _ & _ & Hs & Hds & Hde).
  rewrite (ParseInt_digits start Hs Hds).
  destruct (decimal start <? 2 ^ 63); [|reflexivity].
  destruct (String.eqb_spec end_ EmptyString) as [->|He]; cbn [negb].
  - change (wrap64 (decimal start + DefaultPageSize) - 1)
      with (wrap64 (decimal start + DefaultPageSize) + -1).
    rewrite wrap64_add_l. unfold DefaultPageSize.
    replace (decimal start + 20 + -1) with (decimal start + 19) by lia.
    reflexivity.
  - rewrite (ParseInt_digits end_ He Hde).
    destruct (decimal end_ <? 2 ^ 63); reflexivity.
Qed.

Lemma Validate_cases (r : Range.t) :
  0 <= Range.Start r ->
  Range.Validate r = if Range.End r <? Range.Start r then Some ErrInvalidRange else None.
Proof.
  intros H. unfold Range.Validate. destruct (Range.Start r <? 0) eqn:E; [lia|reflexivity].
Qed.

(** C2, as the code has it.  The empty header gives no range and no
    error.  A header of the grammar whose end digits are present and
    whose start and end are at most [MaxInt64] gives the range of that
    start, end and unit, without error unless the end is below the start.
    A header of the grammar without end digits whose start is at most
    [MaxInt64] gives the end [start + DefaultPageSize - 1] in 64-bit
    arithmetic, which is that very number whenever it is at most
    [MaxInt64].  A start beyond [MaxInt64] gives no range and
    [ErrInvalidOffset]; an end beyond [MaxInt64] gives no range and
    [ErrInvalidRange].  A header that is not empty and not of the grammar
    gives no range and [ErrInvalidRange]. *)
Theorem parse_range_header_algorithm (header : string) :
  Range.ParseRangeHeader EmptyString = (None, None) /\
  (forall unit start end_,
     range_grammar header unit start end_ -> end_ <> EmptyString ->
     decimal start <= MaxInt64 -> decimal end_ <= MaxInt64 ->
     fst (Range.ParseRangeHeader header)
       = Some (Range.mk (decimal start) (decimal end_) unit) /\
     (decimal start <= decimal end_ -> snd (Range.ParseRangeHeader header) = None)) /\
  (forall unit start,
     range_grammar header unit start EmptyString ->
     decimal start <= MaxInt64 ->
     fst (Range.ParseRangeHeader header)
       = Some (Range.mk (decimal start)
                        (wrap64 (decimal start + DefaultPageSize - 1)) unit) /\
     (decimal start + DefaultPageSize - 1 <= MaxInt64 ->
      Range.ParseRangeHeader header
        = (Some (Range.mk (decimal start) (decimal start + DefaultPageSize - 1) unit),
           None))) /\
  (forall unit start end_,
     range_grammar header unit start end_ -> MaxInt64 < decimal start ->
     Range.ParseRangeHeader header = (None, Some ErrInvalidOffset)) /\
  (forall unit start end_,
     range_grammar header unit start end_ ->
     decimal start <= MaxInt64 -> MaxInt64 < decimal end_ ->
     Range.ParseRangeHeader header = (None, Some ErrInvalidRange)) /\
  (header <> EmptyString ->
   (forall unit start end_, ~ range_grammar header unit start end_) ->
   Range.ParseRangeHeader header = (None, Some ErrInvalidRange)).
Proof.
  unfold MaxInt64, DefaultPageSize.
  split; [reflexivity|]. split; [|split; [|split; [|split]]].
  - intros unit start end_ Hg He Hs Hen.
    rewrite (ParseRangeHeader_grammar _ _ _ _ Hg).
    destruct (decimal start <? 2 ^ 63) eqn:E1; [|lia].
    destruct (String.eqb_spec end_ EmptyString) as [->|_]; [congruence|].
    destruct (decimal end_ <? 2 ^ 63) eqn:E2; [|lia].
    split; [reflexivity|]. intros Hle. cbn [snd].
    rewrite Validate_cases by (cbn; apply decimal_nonneg, Hg). cbn.
    destruct (decimal end_ <? decimal start) eqn:E3; [lia|reflexivity].
  - intros unit start Hg Hs.
    rewrite (ParseRangeHeader_grammar _ _ _ _ Hg).
    destruct (decimal start <? 2 ^ 63) eqn:E1; [|lia].
    cbn [String.eqb fst].
    replace (decimal start + 20 - 1) with (decimal start + 19) by lia.
    split; [reflexivity|]. intros Hle.
    pose proof (decimal_nonneg start ltac:(apply Hg)) as H0.
    rewrite wrap64_id by (unfold in_int64, MinInt64, MaxInt64; lia).
    rewrite Validate_cases by exact H0. cbn.
    destruct (decimal start + 19 <? decimal start) eqn:E3; [lia|reflexivity].
  - intros unit start end_ Hg Hs.
    rewrite (ParseRangeHeader_grammar _ _ _ _ Hg).
    destruct (decimal start <? 2 ^ 63) eqn:E1; [lia|reflexivity].
  - intros unit start end_ Hg Hs He.
    rewrite (ParseRangeHeader_grammar _ _ _ _ Hg).
    destruct (decimal start <? 2 ^ 63) eqn:E1; [|lia].
    destruct (String.eqb_spec end_ EmptyString) as [->|_].
    + cbn in He. lia.
    + destruct (decimal end_ <? 2 ^ 63) eqn:E2; [lia|reflexivity].
  - intros Hne Hno. unfold Range.ParseRangeHeader.
    destruct (String.eqb_spec header EmptyString) as [->|_]; [congruence|].
    destruct (rangeRegex_FindStringSubmatch header) as [[[u s] e]|] eqn:E; [|reflexivity].
    apply rangeRegex_iff_grammar in E. now destruct (Hno u s e).
Qed.

Lemma grammar_items_0_24 : range_grammar "items=0-24" "items" "0" "24".
Proof. apply rangeRegex_iff_grammar. reflexivity. Qed.

Lemma parse_range_header_algorithm_witness :
  fst (Range.ParseRangeHeader "items=0-24") = Some (Range.mk 0 24 "items") /\
  snd (Range.ParseRangeHeader "items=0-24") = None.
Proof.
  destruct (parse_range_header_algorithm "items=0-24") as (_ & H & _).
  destruct (H "items"%string "0"%string "24"%string grammar_items_0_24
              ltac:(discriminate) ltac:(vm_compute; discriminate)
              ltac:(vm_compute; discriminate)) as [H1 H2].
  split; [exact H1 | apply H2; vm_compute; discriminate].
Defined.

(** C2 as the claim words it fails on a start that no [int64] holds: the
    header below is of the grammar, with end digits, and yields no range
    but [ErrInvalidOffset]. *)
Lemma parse_range_header_start_overflow_counterexample :
  range_grammar "items=99999999999999999999-5" "items" "99999999999999999999" "5" /\
  Range.ParseRangeHeader "items=99999999999999999999-5" = (None, Some ErrInvalidOffset) /\
  fst (Range.ParseRangeHeader "items=99999999999999999999-5")
    <> Some (Range.mk (decimal "99999999999999999999") (decimal "5") "items").
Proof.
  split; [apply rangeRegex_iff_grammar; reflexivity|].
  split; [reflexivity|]. vm_compute. discriminate.
Qed.

(** C10, as the code has it.  On a header of the grammar whose start is
    at most [MaxInt64], if the end digits are present and denote less
    than the start, or if they are absent and the default end wraps
    around below the start, [ParseRangeHeader] returns the parsed range,
    not nil, together with [ErrInvalidRange]. *)
Theorem backwards_range_is_returned_with_error (header unit start end_ : string) :
  range_grammar header unit start end_ ->
  decimal start <= MaxInt64 ->
  (end_ <> EmptyString -> decimal end_ < decimal start ->
   Range.ParseRangeHeader header
     = (Some (Range.mk (decimal start) (decimal end_) unit), Some ErrInvalidRange)) /\
  (end_ = EmptyString -> MaxInt64 < decimal start + DefaultPageSize - 1 ->
   Range.ParseRangeHeader header
     = (Some (Range.mk (decimal start)
                       (wrap64 (decimal start + DefaultPageSize - 1)) unit),
        Some ErrInvalidRange)).
Proof.
  unfold MaxInt64, DefaultPageSize. intros Hg Hs.
  rewrite (ParseRangeHeader_grammar _ _ _ _ Hg).
  pose proof (decimal_nonneg start ltac:(apply Hg)) as H0.
  destruct (decimal start <? 2 ^ 63) eqn:E1; [|lia]. split.
  - intros He Hlt.
    destruct (String.eqb_spec end_ EmptyString) as [->|_]; [congruence|].
    destruct (decimal end_ <? 2 ^ 63) eqn:E2; [|lia].
    rewrite Validate_cases by exact H0. cbn.
    destruct (decimal end_ <? decimal start) eqn:E3; [reflexivity|lia].
  - intros -> Hov. cbn [String.eqb].
    replace (decimal start + 20 - 1) with (decimal start + 19) by lia.
    rewrite Validate_cases by exact H0. cbn.
    assert (Hw : wrap64 (decimal start + 19) = decimal start + 19 - 2 ^ 64).
    { unfold wrap64.
      replace (decimal start + 19 + 2 ^ 63)
        with (decimal start + 19 - 2 ^ 63 + 1 * 2 ^ 64) by lia.
      rewrite Z_mod_plus_full, Z.mod_small; lia. }
    rewrite Hw.
    destruct (decimal start + 19 - 2 ^ 64 <? decimal start) eqn:E3; [reflexivity|lia].
Qed.

Lemma grammar_items_10_5 : range_grammar "items=10-5" "items" "10" "5".
Proof. apply rangeRegex_iff_grammar. reflexivity. Qed.

Lemma backwards_range_is_returned_with_error_witness :
  Range.ParseRangeHeader "items=10-5" = (Some (Range.mk 10 5 "items"), Some ErrInvalidRange).
Proof.
  apply (backwards_range_is_returned_with_error
           "items=10-5" "items" "10" "5" grammar_items_10_5);
    [vm_compute; discriminate | discriminate | reflexivity].
Defined.

(** C10 as the claim words it fails where the start is beyond [int64]:
    the header below is of the grammar and its end, 7, is below its start,
    yet no range comes back and the error is [ErrInvalidOffset]. *)
Lemma backwards_range_start_overflow_counterexample :
  range_grammar "items=18446744073709551616-7" "items" "18446744073709551616" "7" /\
  decimal "7" < decimal "18446744073709551616" /\
  Range.ParseRangeHeader "items=18446744073709551616-7" = (None, Some ErrInvalidOffset).
Proof.
  split; [apply rangeRegex_iff_grammar; reflexivity|].
  split; reflexivity.
Qed.

(** * Content-Range values *)

(** C7, as the code has it.  [Range.ContentRangeHeader(total)] is
    [unit start-end/total] when the total is known, that is not negative,
    and [unit start-end/*] when it is negative.
    [RangeResponse.ContentRange()] is [unit */total] when there are no
    items and [unit start-end/total] when there are items and the total
    is known; for the response that [NewRangeResponse] builds from
    [n > 0] items the end is [start + n - 1]. *)
Theorem content_range_formats {T : Type}
    (r : Range.t) (total : Z) (resp : RangeResponse.t T) (items : list T) :
  (0 <= total ->
   Range.ContentRangeHeader r total
   = Range.Unit r +:+ " " +:+ strconv.FormatInt (Range.Start r) +:+ "-"
       +:+ strconv.FormatInt (Range.End r) +:+ "/" +:+ strconv.FormatInt total) /\
  (total < 0 ->
   Range.ContentRangeHeader r total
   = Range.Unit r +:+ " " +:+ strconv.FormatInt (Range.Start r) +:+ "-"
       +:+ strconv.FormatInt (Range.End r) +:+ "/*") /\
  (RangeResponse.Items resp = [] ->
   RangeResponse.ContentRange resp
   = RangeResponse.Unit resp +:+ " */" +:+ strconv.FormatInt (RangeResponse.Total resp)) /\
  (RangeResponse.Items resp <> [] -> 0 <= RangeResponse.Total resp ->
   RangeResponse.ContentRange resp
   = RangeResponse.Unit resp +:+ " " +:+ strconv.FormatInt (RangeResponse.Start resp)
       +:+ "-" +:+ strconv.FormatInt (RangeResponse.End resp)
       +:+ "/" +:+ strconv.FormatInt (RangeResponse.Total resp)) /\
  (items <> [] -> 0 <= total ->
   in_int64 (Range.Start r + Z.of_nat (length items)) ->
   in_int64 (Range.Start r + Z.of_nat (length items) - 1) ->
   RangeResponse.ContentRange (RangeResponse.NewRangeResponse items r total)
   = Range.Unit r +:+ " " +:+ strconv.FormatInt (Range.Start r) +:+ "-"
       +:+ strconv.FormatInt (Range.Start r + Z.of_nat (length items) - 1)
       +:+ "/" +:+ strconv.FormatInt total).
Proof.
  split; [|split; [|split; [|split]]].
  - intros Ht. unfold Range.ContentRangeHeader.
    destruct (total <? 0) eqn:E; [lia|reflexivity].
  - intros Ht. unfold Range.ContentRangeHeader.
    destruct (total <? 0) eqn:E; [reflexivity|lia].
  - intros Hi. unfold RangeResponse.ContentRange. rewrite Hi. reflexivity.
  - intros Hi _. unfold RangeResponse.ContentRange.
    destruct (RangeResponse.Items resp) as [|x xs]; [congruence|].
    rewrite (proj2 (Z.eqb_neq (Z.of_nat (length (x :: xs))) 0))
      by (cbn [length]; lia).
    reflexivity.
  - intros Hi _ H1 H2.
    unfold RangeResponse.ContentRange, RangeResponse.NewRangeResponse.
    cbn [RangeResponse.Items RangeResponse.Unit RangeResponse.Start
         RangeResponse.End RangeResponse.Total].
    destruct items as [|x xs]; [congruence|].
    rewrite (proj2 (Z.eqb_neq (Z.of_nat (length (x :: xs))) 0))
      by (cbn [length]; lia).
    rewrite (proj2 (Z.gtb_gt (Z.of_nat (length (x :: xs))) 0))
      by (cbn [length]; lia).
    rewrite (wrap64_id _ H1), (wrap64_id _ H2). reflexivity.
Qed.

Lemma content_range_formats_witness :
  Range.ContentRangeHeader (Range.NewRange 0 24) 100 = "items 0-24/100"%string /\
  Range.ContentRangeHeader (Range.NewRange 0 24) (-1) = "items 0-24/*"%string /\
  RangeResponse.ContentRange
    (RangeResponse.NewRangeResponse (@nil string) (Range.NewRange 0 10) 100)
  = "items */100"%string /\
  RangeResponse.ContentRange
    (RangeResponse.NewRangeResponse ["a"; "b"; "c"]%string (Range.NewRange 0 10) 100)
  = "items 0-2/100"%string.
Proof.
  destruct (content_range_formats (Range.NewRange 0 24) 100
              (RangeResponse.NewRangeResponse (@nil string) (Range.NewRange 0 10) 100)
              (@nil string)) as (H1 & _ & H3 & _).
  destruct (content_range_formats (Range.NewRange 0 24) (-1)
              (RangeResponse.NewRangeResponse ["a"; "b"; "c"]%string (Range.NewRange 0 10) 100)
              ["a"; "b"; "c"]%string) as (_ & H2 & _ & H4 & _).
  split; [apply H1; lia|]. split; [apply H2; lia|].
  split; [apply H3; reflexivity|]. apply H4; [discriminate | cbn; lia].
Defined.

(** C7 as the claim words it, with all three forms for both methods,
    fails for [RangeResponse.ContentRange()]: with three items and the
    total unknown, given as [-1], it prints the total and not the star. *)
Lemma content_range_unknown_total_counterexample :
  RangeResponse.ContentRange
    (RangeResponse.NewRangeResponse ["a"; "b"; "c"]%string (Range.NewRange 0 24) (-1))
  = "items 0-2/-1"%string /\
  RangeResponse.ContentRange
    (RangeResponse.NewRangeResponse ["a"; "b"; "c"]%string (Range.NewRange 0 24) (-1))
  <> "items 0-2/*"%string.
Proof. split; [reflexivity | discriminate]. Qed.

(** * The cursor codec: failures *)

(** C5.  [DecodeCursor] of the empty token returns no payload and no
    error.  On a token that is not empty, a failure of the base64
    decoding and a failure of the JSON decoding both end in the one error
    [ErrInvalidCursor], with no payload; and [DecodeCursor] returns no
    other error. *)
Theorem decode_cursor_failure_is_invalid_cursor
    {T Time : Type} `{JSONValue T} `{TimeValue Time} (cursor : string) :
  DecodeCursor (T := T) (Time := Time) EmptyString = (None, None) /\
  (cursor <> EmptyString ->
   base64.DecodeString cursor = None ->
   DecodeCursor (T := T) (Time := Time) cursor = (None, Some ErrInvalidCursor)) /\
  (cursor <> EmptyString ->
   forall b, base64.DecodeString cursor = Some b ->
   Unmarshal (T := T) (Time := Time) b = None ->
   DecodeCursor (T := T) (Time := Time) cursor = (None, Some ErrInvalidCursor)) /\
  (forall e, snd (DecodeCursor (T := T) (Time := Time) cursor) = Some e ->
   e = ErrInvalidCursor /\ fst (DecodeCursor (T := T) (Time := Time) cursor) = None).
Proof.
  split; [reflexivity|]. unfold DecodeCursor.
  destruct (String.eqb_spec cursor EmptyString) as [->|Hne].
  - split; [congruence|]. split; [congruence|]. cbn. discriminate.
  - split; [intros _ ->; reflexivity|].
    split; [intros _ b -> ->; reflexivity|].
    intros e. destruct (base64.DecodeString cursor) as [b|]; cbn.
    + destruct (Unmarshal b); cbn; [discriminate|]. intros [= <-]. auto.
    + intros [= <-]. auto.
Qed.

Lemma decode_cursor_failure_is_invalid_cursor_witness :
  DecodeCursor (T := Z) (Time := gotime.Time) "not-valid-base64!!!"
    = (None, Some ErrInvalidCursor) /\
  DecodeCursor (T := Z) (Time := gotime.Time) "dGhpcyBpcyBub3QganNvbg=="
    = (None, Some ErrInvalidCursor).
Proof.
  split.
  - apply (decode_cursor_failure_is_invalid_cursor (T := Z) (Time := gotime.Time)
             "not-valid-base64!!!"); [discriminate | reflexivity].
  - apply (proj1 (proj2 (proj2
             (decode_cursor_failure_is_invalid_cursor (T := Z) (Time := gotime.Time)
                "dGhpcyBpcyBub3QganNvbg=="))))
      with (b := "this is not json"%string); [discriminate | reflexivity | reflexivity].
Defined.

(** * Decimal numbers: writing and reading back *)

Lemma byteZ_range c : 0 <= byteZ c < 256.
Proof.
  unfold byteZ. pose proof (N_ascii_bounded c). lia.
Qed.

Lemma byteZ_chr z : 0 <= z < 256 -> byteZ (chr z) = z.
Proof.
  intros Hz. unfold byteZ, chr. rewrite N_ascii_embedding by lia. lia.
Qed.

Lemma chr_byteZ c : chr (byteZ c) = c.
Proof. unfold byteZ, chr. rewrite N2Z.id. apply ascii_N_embedding. Qed.

Lemma byteZ_inj c d : byteZ c = byteZ d -> c = d.
Proof. intros H. rewrite <- (chr_byteZ c), <- (chr_byteZ d). now f_equal. Qed.

Lemma digitChar_byte d : 0 <= d <= 9 -> byteZ (strconv.digitChar d) = 48 + d.
Proof. intros Hd. unfold strconv.digitChar. apply byteZ_chr. lia. Qed.

Lemma digitChar_isDigit d : 0 <= d <= 9 -> strconv.isDigit (strconv.digitChar d) = true.
Proof.
  intros Hd. unfold strconv.isDigit. rewrite digitChar_byte by exact Hd.
  apply andb_true_iff. split; lia.
Qed.

Lemma all_chars_app f a b :
  all_chars f (a +:+ b) = all_chars f a && all_chars f b.
Proof.
  induction a as [|c a IH]; [reflexivity|].
  rewrite append_cons. cbn. now rewrite IH, andb_assoc.
Qed.

Lemma decimal_acc_app x y : forall a,
  decimal_acc a (x +:+ y) = decimal_acc (decimal_acc a x) y.
Proof.
  induction x as [|c x IH]; intros a; [reflexivity|].
  rewrite append_cons. cbn. apply IH.
Qed.

Lemma length_app_string a b :
  String.length (a +:+ b) = (String.length a + String.length b)%nat.
Proof.
  induction a as [|c a IH]; [reflexivity|]. rewrite append_cons. cbn. now rewrite IH.
Qed.

(** The digits [formatBits] writes for [u]: they denote [u], there is at
    least one, and the first is zero only for ["0"] itself. *)
Lemma formatBits_digits fuel : forall u acc,
  (1 <= fuel)%nat -> 0 <= u < 2 ^ Z.of_nat fuel ->
  exists c ds,
    strconv.formatBits fuel u acc = String c ds +:+ acc /\
    all_chars strconv.isDigit (String c ds) = true /\
    decimal (String c ds) = u /\
    (u = 0 -> String c ds = "0"%string) /\
    (0 < u -> 49 <= byteZ c <= 57).
Proof.
  induction fuel as [|fuel IH]; intros u acc Hf Hu; [lia|].
  cbn [strconv.formatBits]. destruct (u <? 10) eqn:E.
  - exists (strconv.digitChar u), EmptyString.
    assert (Hd : 0 <= u <= 9) by lia.
    split; [reflexivity|]. split; [cbn; now rewrite digitChar_isDigit|].
    split; [unfold decimal; cbn; rewrite digitChar_byte by exact Hd; lia|].
    split; [intros ->; reflexivity|]. intros Hpos. rewrite digitChar_byte by exact Hd. lia.
  - assert (Hten : 10 <= u) by lia.
    assert (Hf' : (1 <= fuel)%nat).
    { destruct fuel; [cbn in Hu; lia | lia]. }
    assert (Hq : 0 <= u / 10 < 2 ^ Z.of_nat fuel).
    { split; [apply Z.div_pos; lia|].
      apply Z.div_lt_upper_bound; [lia|].
      rewrite Nat2Z.inj_succ, Z.pow_succ_r in Hu by lia. lia. }
    destruct (IH (u / 10) (String (strconv.digitChar (u mod 10)) acc) Hf' Hq)
      as (c & ds & Heq & Hall & Hval & _ & Hfirst).
    pose proof (Z.mod_pos_bound u 10 ltac:(lia)) as Hm.
    exists c, (ds +:+ String (strconv.digitChar (u mod 10)) EmptyString).
    split.
    { rewrite Heq. rewrite !append_cons. f_equal.
      rewrite append_assoc. reflexivity. }
    split.
    { change (String c (ds +:+ String (strconv.digitChar (u mod 10)) ""))
        with (String c ds +:+ String (strconv.digitChar (u mod 10)) "").
      rewrite all_chars_app, Hall. cbn. now rewrite digitChar_isDigit by lia. }
    split.
    { change (String c (ds +:+ String (strconv.digitChar (u mod 10)) ""))
        with (String c ds +:+ String (strconv.digitChar (u mod 10)) "").
      unfold decimal in *. rewrite decimal_acc_app, Hval. cbn.
      rewrite digitChar_byte by lia. pose proof (Z.div_mod u 10 ltac:(lia)). lia. }
    split; [lia|]. intros _. apply Hfirst.
    apply Z.div_str_pos. lia.
Qed.

Lemma FormatUint_digits u :
  0 <= u ->
  exists c ds,
    strconv.FormatUint u = String c ds /\
    all_chars strconv.isDigit (String c ds) = true /\
    decimal (String c ds) = u /\
    (u = 0 -> String c ds = "0"%string) /\
    (0 < u -> 49 <= byteZ c <= 57).
Proof.
  intros Hu. unfold strconv.FormatUint.
  assert (Hb : 0 <= u < 2 ^ Z.of_nat (S (Z.to_nat (Z.log2 u)))).
  { split; [exact Hu|].
    rewrite Nat2Z.inj_succ, Z2Nat.id by apply Z.log2_nonneg.
    destruct (Z.eq_dec u 0) as [->|Hne]; [reflexivity|].
    apply Z.log2_spec. lia. }
  destruct (formatBits_digits (S (Z.to_nat (Z.log2 u))) u EmptyString ltac:(lia) Hb)
    as (c & ds & Heq & H1 & H2 & H3 & H4).
  exists c, ds. rewrite Heq, append_nil_r. auto.
Qed.

(** [ParseInt] reads back what [FormatInt] writes. *)
Lemma ParseInt_FormatInt z : in_int64 z -> strconv.ParseInt (strconv.FormatInt z) = Some z.
Proof.
  unfold in_int64, MinInt64, MaxInt64. intros Hz. unfold strconv.FormatInt.
  destruct (z <? 0) eqn:E.
  - destruct (FormatUint_digits (- z) ltac:(lia)) as (c & ds & Heq & Hall & Hval & _ & _).
    rewrite Heq. unfold strconv.ParseInt.
    change (Ascii.eqb "-" "-") with true. change (Ascii.eqb "-" "+") with false.
    cbn [orb]. rewrite (digitsValue_decimal _ 0 Hall).
    fold (decimal (String c ds)). rewrite Hval.
    destruct (- z <=? 2 ^ 63) eqn:E2; [f_equal; lia | lia].
  - destruct (FormatUint_digits z ltac:(lia)) as (c & ds & Heq & Hall & Hval & _ & _).
    rewrite Heq, (ParseInt_digits (String c ds) ltac:(discriminate) Hall), Hval.
    destruct (z <? 2 ^ 63) eqn:E2; [reflexivity | lia].
Qed.

(** * The scanner on what the encoder writes *)

Lemma closes_value_head rest :
  closes_value rest ->
  exists d r, rest = String d r /\ (byteZ d = 44 \/ byteZ d = 125).
Proof. intros [r [-> | ->]]; eexists _, _; (split; [reflexivity|]); auto. Qed.

Lemma closes_value_not_digit rest :
  closes_value rest ->
  match rest with
  | EmptyString => True
  | String c _ => strconv.isDigit c = false
  end.
Proof. intros [r [-> | ->]]; reflexivity. Qed.

Lemma scanFrac_closed rest :
  closes_value rest -> json.scanFrac rest = Some (EmptyString, rest).
Proof. intros [r [-> | ->]]; reflexivity. Qed.

Lemma scanExp_closed rest :
  closes_value rest -> json.scanExp rest = Some (EmptyString, rest).
Proof. intros [r [-> | ->]]; reflexivity. Qed.

(** A run of digits without a leading zero is scanned as a number, up to
    the byte that closes the value. *)
Lemma scanInt_digits c ds rest :
  all_chars strconv.isDigit (String c ds) = true ->
  (byteZ c = 48 -> ds = EmptyString) ->
  closes_value rest ->
  json.scanInt (String c ds +:+ rest) = Some (String c ds, rest).
Proof.
  intros Hall Hzero Hrest. rewrite append_cons. unfold json.scanInt.
  cbn in Hall. apply andb_true_iff in Hall as [Hc Hds].
  pose proof (isDigit_range c Hc) as Hr.
  destruct (byteZ c =? 48) eqn:E0.
  - rewrite (Hzero ltac:(lia)). reflexivity.
  - destruct ((49 <=? byteZ c) && (byteZ c <=? 57)) eqn:E1.
    + rewrite (span_complete strconv.isDigit ds rest Hds
                 (closes_value_not_digit rest Hrest)).
      reflexivity.
    + apply andb_false_iff in E1. lia.
Qed.

Lemma scanNumber_FormatInt z rest :
  closes_value rest ->
  json.scanNumber (strconv.FormatInt z +:+ rest) = Some (strconv.FormatInt z, rest).
Proof.
  intros Hrest. unfold strconv.FormatInt. destruct (z <? 0) eqn:E.
  - destruct (FormatUint_digits (- z) ltac:(lia)) as (c & ds & Heq & Hall & _ & H0 & Hpos).
    rewrite Heq. unfold json.scanNumber. rewrite append_cons.
    change (byteZ "-" =? 45) with true. cbv iota beta.
    rewrite (scanInt_digits c ds rest Hall) by (try exact Hrest; intros Hc; specialize (Hpos ltac:(lia)); lia).
    rewrite (scanFrac_closed rest Hrest), (scanExp_closed rest Hrest).
    now rewrite !append_nil_r.
  - destruct (FormatUint_digits z ltac:(lia)) as (c & ds & Heq & Hall & _ & H0 & Hpos).
    rewrite Heq. unfold json.scanNumber. rewrite append_cons.
    cbn in Hall. pose proof Hall as Hall'.
    apply andb_true_iff in Hall' as [Hc _]. pose proof (isDigit_range c Hc) as Hr.
    destruct (byteZ c =? 45) eqn:E45; [lia|].
    rewrite <- append_cons.
    rewrite (scanInt_digits c ds rest).
    + rewrite (scanFrac_closed rest Hrest), (scanExp_closed rest Hrest).
      now rewrite append_nil_l, !append_nil_r.
    + cbn. exact Hall.
    + intros Hc0. destruct (Z.eq_dec z 0) as [->|Hne].
      * specialize (H0 eq_refl). now inversion H0.
      * specialize (Hpos ltac:(lia)). lia.
    + exact Hrest.
Qed.

(** * Bit operations as arithmetic *)

Lemma testbit_small lo k n : 0 <= lo < 2 ^ k -> k <= n -> Z.testbit lo n = false.
Proof.
  intros Hlo Hkn. assert (0 <= k).
  { destruct (Z.le_gt_cases 0 k) as [|Hneg]; [assumption|].
    rewrite Z.pow_neg_r in Hlo by exact Hneg. lia. }
  apply Z.testbit_false; [lia|].
  rewrite Z.div_small; [reflexivity|].
  split; [lia|]. apply Z.lt_le_trans with (2 ^ k); [lia|].
  apply Z.pow_le_mono_r; lia.
Qed.

(** [hi | lo] is [hi + lo] when [hi] is a multiple of [2^k] and [lo] is
    below [2^k]. *)
Lemma lor_add q lo k : 0 <= k -> 0 <= lo < 2 ^ k -> Z.lor (q * 2 ^ k) lo = q * 2 ^ k + lo.
Proof.
  intros Hk Hlo. rewrite <- Z.add_lor_land.
  assert (E : Z.land (q * 2 ^ k) lo = 0).
  { apply Z.bits_inj'. intros n Hn. rewrite Z.land_spec, Z.bits_0.
    destruct (Z.lt_ge_cases n k) as [Hlt|Hge].
    - rewrite Z.mul_pow2_bits_low by lia. reflexivity.
    - rewrite (testbit_small lo k n Hlo Hge). apply andb_false_r. }
  rewrite E. lia.
Qed.

Lemma land_mask x k : 0 <= k -> Z.land x (2 ^ k - 1) = x mod 2 ^ k.
Proof.
  intros Hk. rewrite <- Z.land_ones by exact Hk. f_equal.
  rewrite Z.ones_equiv. lia.
Qed.

Lemma land_63 x : Z.land x 63 = x mod 64.
Proof. exact (land_mask x 6 ltac:(lia)). Qed.

Lemma land_255 x : Z.land x 255 = x mod 256.
Proof. exact (land_mask x 8 ltac:(lia)). Qed.

Lemma land_31 x : Z.land x 31 = x mod 32.
Proof. exact (land_mask x 5 ltac:(lia)). Qed.

Lemma land_15 x : Z.land x 15 = x mod 16.
Proof. exact (land_mask x 4 ltac:(lia)). Qed.

Lemma land_7 x : Z.land x 7 = x mod 8.
Proof. exact (land_mask x 3 ltac:(lia)). Qed.

(** * base64: decoding what was encoded *)

Lemma decodeMap_encodeChar i :
  0 <= i < 64 -> base64.decodeMap (base64.encodeChar i) = Some i.
Proof.
  intros Hi.
  assert (exists n, (n < 64)%nat /\ i = Z.of_nat n) as (n & Hn & ->)
    by (exists (Z.to_nat i); lia).
  unfold base64.encodeChar. rewrite Nat2Z.id.
  do 64 (destruct n as [|n]; [reflexivity|]). lia.
Qed.

(** The 24 bits of three bytes. *)
Lemma triple_value a b c :
  0 <= a < 256 -> 0 <= b < 256 -> 0 <= c < 256 ->
  Z.lor (Z.lor (Z.shiftl a 16) (Z.shiftl b 8)) c = a * 65536 + b * 256 + c.
Proof.
  intros Ha Hb Hc. rewrite !Z.shiftl_mul_pow2 by lia.
  rewrite (lor_add a (b * 2 ^ 8) 16) by lia.
  replace (a * 2 ^ 16 + b * 2 ^ 8) with ((a * 256 + b) * 2 ^ 8) by lia.
  rewrite (lor_add (a * 256 + b) c 8) by lia. lia.
Qed.

Lemma quantum_value d0 d1 d2 d3 :
  0 <= d0 < 64 -> 0 <= d1 < 64 -> 0 <= d2 < 64 -> 0 <= d3 < 64 ->
  base64.quantum d0 d1 d2 d3 = d0 * 262144 + d1 * 4096 + d2 * 64 + d3.
Proof.
  intros H0 H1 H2 H3. unfold base64.quantum. rewrite !Z.shiftl_mul_pow2 by lia.
  rewrite (lor_add d0 (d1 * 2 ^ 12) 18) by lia.
  replace (d0 * 2 ^ 18 + d1 * 2 ^ 12) with ((d0 * 64 + d1) * 2 ^ 12) by lia.
  rewrite (lor_add (d0 * 64 + d1) (d2 * 2 ^ 6) 12) by lia.
  replace ((d0 * 64 + d1) * 2 ^ 12 + d2 * 2 ^ 6)
    with ((d0 * 4096 + d1 * 64 + d2) * 2 ^ 6) by lia.
  rewrite (lor_add (d0 * 4096 + d1 * 64 + d2) d3 6) by lia. lia.
Qed.

(** The 6-bit digit at each place of a 24-bit value. *)
Lemma sextet_range x : 0 <= Z.land x 63 < 64.
Proof. rewrite land_63. apply Z.mod_pos_bound. lia. Qed.

Lemma toByte_chr v : 0 <= v < 256 -> base64.toByte v = chr v.
Proof.
  intros Hv. unfold base64.toByte. rewrite land_255, Z.mod_small by lia. reflexivity.
Qed.

(** One full quantum: the four digits of three bytes give the bytes
    back. *)
Lemma quantum_bytes a b c :
  let val := Z.lor (Z.lor (Z.shiftl (byteZ a) 16) (Z.shiftl (byteZ b) 8)) (byteZ c) in
  let q := base64.quantum (Z.land (Z.shiftr val 18) 63) (Z.land (Z.shiftr val 12) 63)
                          (Z.land (Z.shiftr val 6) 63) (Z.land val 63) in
  base64.toByte (Z.shiftr q 16) = a /\
  base64.toByte (Z.shiftr q 8) = b /\
  base64.toByte q = c.
Proof.
  intros val q.
  pose proof (byteZ_range a) as Ha. pose proof (byteZ_range b) as Hb.
  pose proof (byteZ_range c) as Hc.
  assert (Hval : val = byteZ a * 65536 + byteZ b * 256 + byteZ c)
    by (apply triple_value; assumption).
  assert (Hv : 0 <= val < 16777216) by lia.
  assert (Hq : q = val).
  { unfold q. rewrite quantum_value by apply sextet_range.
    rewrite !land_63, !Z.shiftr_div_pow2 by lia.
    change (2 ^ 18) with 262144. change (2 ^ 12) with 4096. change (2 ^ 6) with 64.
    clear Hval q. Z.div_mod_to_equations. lia. }
  rewrite Hq, !Z.shiftr_div_pow2 by lia.
  change (2 ^ 16) with 65536. change (2 ^ 8) with 256.
  assert (H16 : val / 65536 = byteZ a) by (rewrite Hval; Z.div_mod_to_equations; lia).
  assert (H8 : (val / 256) mod 256 = byteZ b) by (rewrite Hval; Z.div_mod_to_equations; lia).
  assert (H0 : val mod 256 = byteZ c) by (rewrite Hval; Z.div_mod_to_equations; lia).
  unfold base64.toByte. rewrite !land_255.
  rewrite H16, H8, H0, (Z.mod_small (byteZ a)) by lia.
  rewrite !chr_byteZ. auto.
Qed.

Lemma quantum_bytes2 a b :
  let val := Z.lor (Z.shiftl (byteZ a) 16) (Z.shiftl (byteZ b) 8) in
  let q := base64.quantum (Z.land (Z.shiftr val 18) 63) (Z.land (Z.shiftr val 12) 63)
                          (Z.land (Z.shiftr val 6) 63) 0 in
  base64.toByte (Z.shiftr q 16) = a /\ base64.toByte (Z.shiftr q 8) = b.
Proof.
  intros val q.
  pose proof (byteZ_range a) as Ha. pose proof (byteZ_range b) as Hb.
  assert (Hval : val = byteZ a * 65536 + byteZ b * 256).
  { unfold val. rewrite !Z.shiftl_mul_pow2 by lia.
    rewrite (lor_add (byteZ a) (byteZ b * 2 ^ 8) 16) by lia. lia. }
  assert (Hv : 0 <= val < 16777216) by lia.
  assert (Hq : q = val).
  { unfold q. rewrite quantum_value by (try apply sextet_range; lia).
    rewrite !land_63, !Z.shiftr_div_pow2 by lia.
    change (2 ^ 18) with 262144. change (2 ^ 12) with 4096. change (2 ^ 6) with 64.
    rewrite Hval. clear Hval q Hv val. Z.div_mod_to_equations. lia. }
  rewrite Hq, !Z.shiftr_div_pow2 by lia.
  change (2 ^ 16) with 65536. change (2 ^ 8) with 256.
  assert (H16 : val / 65536 = byteZ a) by (rewrite Hval; Z.div_mod_to_equations; lia).
  assert (H8 : (val / 256) mod 256 = byteZ b) by (rewrite Hval; Z.div_mod_to_equations; lia).
  unfold base64.toByte. rewrite !land_255.
  rewrite H16, H8, (Z.mod_small (byteZ a)) by lia.
  rewrite !chr_byteZ. auto.
Qed.

Lemma quantum_bytes1 a :
  let val := Z.shiftl (byteZ a) 16 in
  let q := base64.quantum (Z.land (Z.shiftr val 18) 63) (Z.land (Z.shiftr val 12) 63) 0 0 in
  base64.toByte (Z.shiftr q 16) = a.
Proof.
  intros val q.
  pose proof (byteZ_range a) as Ha.
  assert (Hval : val = byteZ a * 65536).
  { unfold val. rewrite !Z.shiftl_mul_pow2 by lia. lia. }
  assert (Hq : q = val).
  { unfold q. rewrite quantum_value by (try apply sextet_range; lia).
    rewrite !land_63, !Z.shiftr_div_pow2 by lia.
    change (2 ^ 18) with 262144. change (2 ^ 12) with 4096.
    rewrite Hval. clear Hval q val. Z.div_mod_to_equations. lia. }
  rewrite Hq, !Z.shiftr_div_pow2 by lia. change (2 ^ 16) with 65536.
  assert (H16 : val / 65536 = byteZ a) by (rewrite Hval; Z.div_mod_to_equations; lia).
  unfold base64.toByte. rewrite !land_255.
  rewrite H16, (Z.mod_small (byteZ a)) by lia. apply chr_byteZ.
Qed.

(** Reading four digits of the alphabet from an empty buffer. *)
Lemma decode_full_quantum d0 d1 d2 d3 t :
  0 <= d0 < 64 -> 0 <= d1 < 64 -> 0 <= d2 < 64 -> 0 <= d3 < 64 ->
  base64.decode []
    (String (base64.encodeChar d0) (String (base64.encodeChar d1)
       (String (base64.encodeChar d2) (String (base64.encodeChar d3) t))))
  = match base64.decode [] t with
    | Some tail =>
        Some (String (base64.toByte (Z.shiftr (base64.quantum d0 d1 d2 d3) 16))
                (String (base64.toByte (Z.shiftr (base64.quantum d0 d1 d2 d3) 8))
                   (String (base64.toByte (base64.quantum d0 d1 d2 d3)) tail)))
    | None => None
    end.
Proof.
  intros H0 H1 H2 H3. cbn [base64.decode].
  rewrite !decodeMap_encodeChar by assumption. reflexivity.
Qed.

(** Reading two or three digits and then meeting the end of the input:
    the quantum is left open, which the padded encoding rejects. *)
Lemma decode_open_quantum2 d0 d1 :
  0 <= d0 < 64 -> 0 <= d1 < 64 ->
  base64.decode []
    (String (base64.encodeChar d0) (String (base64.encodeChar d1) EmptyString)) = None.
Proof.
  intros H0 H1. cbn [base64.decode].
  rewrite !decodeMap_encodeChar by assumption. reflexivity.
Qed.

Lemma decode_open_quantum3 d0 d1 d2 :
  0 <= d0 < 64 -> 0 <= d1 < 64 -> 0 <= d2 < 64 ->
  base64.decode []
    (String (base64.encodeChar d0) (String (base64.encodeChar d1)
       (String (base64.encodeChar d2) EmptyString))) = None.
Proof.
  intros H0 H1 H2. cbn [base64.decode].
  rewrite !decodeMap_encodeChar by assumption. reflexivity.
Qed.

Lemma decode_padded_quantum2 d0 d1 :
  0 <= d0 < 64 -> 0 <= d1 < 64 ->
  base64.decode []
    (String (base64.encodeChar d0) (String (base64.encodeChar d1)
       (String base64.padChar (String base64.padChar EmptyString))))
  = Some (String (base64.toByte (Z.shiftr (base64.quantum d0 d1 0 0) 16)) EmptyString).
Proof.
  intros H0 H1. cbn [base64.decode].
  rewrite !decodeMap_encodeChar by assumption. reflexivity.
Qed.

Lemma decode_padded_quantum3 d0 d1 d2 :
  0 <= d0 < 64 -> 0 <= d1 < 64 -> 0 <= d2 < 64 ->
  base64.decode []
    (String (base64.encodeChar d0) (String (base64.encodeChar d1)
       (String (base64.encodeChar d2) (String base64.padChar EmptyString))))
  = Some (String (base64.toByte (Z.shiftr (base64.quantum d0 d1 d2 0) 16))
            (String (base64.toByte (Z.shiftr (base64.quantum d0 d1 d2 0) 8)) EmptyString)).
Proof.
  intros H0 H1 H2. cbn [base64.decode].
  rewrite !decodeMap_encodeChar by assumption. reflexivity.
Qed.

(** Induction on a byte string three bytes at a time. *)
Lemma string_triple_ind (P : string -> Prop) :
  P EmptyString ->
  (forall a, P (String a EmptyString)) ->
  (forall a b, P (String a (String b EmptyString))) ->
  (forall a b c rest, P rest -> P (String a (String b (String c rest)))) ->
  forall s, P s.
Proof.
  intros H0 H1 H2 H3 s.
  assert (H : P s /\ (forall a, P (String a s)) /\ (forall a b, P (String a (String b s)))).
  { induction s as [|c s (IH0 & IH1 & IH2)]; [auto|].
    split; [exact (IH1 c)|]. split; [exact (fun a => IH2 a c)|].
    intros a b. now apply H3. }
  apply H.
Qed.

(** [DecodeString] undoes [EncodeToString]. *)
Lemma DecodeString_EncodeToString s :
  base64.DecodeString (base64.EncodeToString s) = Some s.
Proof.
  unfold base64.DecodeString.
  induction s as [|a|a b|a b c rest IH] using string_triple_ind.
  - reflexivity.
  - cbn [base64.EncodeToString].
    rewrite decode_padded_quantum2 by apply sextet_range.
    f_equal. f_equal. apply (quantum_bytes1 a).
  - cbn [base64.EncodeToString].
    rewrite decode_padded_quantum3 by apply sextet_range.
    destruct (quantum_bytes2 a b) as [Ea Eb]. f_equal. f_equal; [exact Ea|].
    f_equal. exact Eb.
  - cbn [base64.EncodeToString].
    rewrite decode_full_quantum by apply sextet_range. rewrite IH.
    destruct (quantum_bytes a b c) as (Ea & Eb & Ec). f_equal.
    f_equal; [exact Ea|]. f_equal; [exact Eb|]. f_equal. exact Ec.
Qed.

(** * Tokens without their padding *)

Lemma encodeChar_not_pad d :
  0 <= d < 64 -> Ascii.eqb (base64.encodeChar d) base64.padChar = false.
Proof.
  intros Hd. destruct (Ascii.eqb_spec (base64.encodeChar d) base64.padChar) as [E|]; [|reflexivity].
  pose proof (decodeMap_encodeChar d Hd) as H. rewrite E in H. discriminate H.
Qed.

Lemma trimPadding_cons c t :
  Ascii.eqb c base64.padChar = false -> trimPadding (String c t) = String c (trimPadding t).
Proof.
  intros Hc. cbn [trimPadding]. rewrite Hc. now destruct (trimPadding t).
Qed.

Lemma mod3_step n : (S (S (S n)) mod 3 = n mod 3)%nat.
Proof.
  replace (S (S (S n))) with (n + 1 * 3)%nat by lia. apply Nat.Div0.mod_add.
Qed.

(** Stripping the padding of an encoded text changes nothing when the
    number of bytes is a multiple of three; otherwise it leaves a text
    that [DecodeString] rejects.  The stripped text of a text that is not
    empty is not empty. *)
Lemma trimPadding_EncodeToString s :
  ((String.length s mod 3 = 0)%nat ->
   trimPadding (base64.EncodeToString s) = base64.EncodeToString s) /\
  ((String.length s mod 3 <> 0)%nat ->
   base64.DecodeString (trimPadding (base64.EncodeToString s)) = None) /\
  (s <> EmptyString -> trimPadding (base64.EncodeToString s) <> EmptyString).
Proof.
  unfold base64.DecodeString.
  induction s as [|a|a b|a b c rest IH] using string_triple_ind.
  - split; [reflexivity|]. split; [intros H; now contradict H | congruence].
  - cbn [base64.EncodeToString]. split; [discriminate|].
    rewrite !trimPadding_cons by (apply encodeChar_not_pad, sextet_range).
    change (trimPadding (String base64.padChar (String base64.padChar ""))) with EmptyString.
    split; [intros _; apply decode_open_quantum2; apply sextet_range | discriminate].
  - cbn [base64.EncodeToString]. split; [discriminate|].
    rewrite !trimPadding_cons by (apply encodeChar_not_pad, sextet_range).
    change (trimPadding (String base64.padChar "")) with EmptyString.
    split; [intros _; apply decode_open_quantum3; apply sextet_range | discriminate].
  - destruct IH as (IH0 & IH1 & _). cbn [base64.EncodeToString String.length].
    rewrite mod3_step.
    rewrite !trimPadding_cons by (apply encodeChar_not_pad, sextet_range).
    split; [intros H0; now rewrite (IH0 H0)|].
    split; [|discriminate].
    intros H1. rewrite decode_full_quantum by apply sextet_range.
    now rewrite (IH1 H1).
Qed.

Lemma EncodeToString_nonempty s :
  s <> EmptyString -> String.eqb (base64.EncodeToString s) EmptyString = false.
Proof.
  destruct s as [|a [|b [|c rest]]]; [congruence| | |]; intros _; reflexivity.
Qed.

(** * UTF-8: the bytes of a rune *)

(** Settle the comparisons in the goal that linear arithmetic decides. *)
Ltac settle_tests :=
  repeat match goal with
  | |- context [Z.ltb ?a ?b] =>
      first [ rewrite (proj2 (Z.ltb_lt a b)) by lia
            | rewrite (proj2 (Z.ltb_ge a b)) by lia ]
  | |- context [Z.leb ?a ?b] =>
      first [ rewrite (proj2 (Z.leb_le a b)) by lia
            | rewrite (proj2 (Z.leb_gt a b)) by lia ]
  | |- context [Z.eqb ?a ?b] =>
      first [ rewrite (proj2 (Z.eqb_eq a b)) by lia
            | rewrite (proj2 (Z.eqb_neq a b)) by lia ]
  end;
  cbn [orb andb negb].

Lemma rune2_value p0 b1 :
  194 <= p0 <= 223 -> 128 <= b1 <= 191 ->
  Z.lor (Z.shiftl (Z.land p0 31) 6) (Z.land b1 63) = (p0 - 192) * 64 + (b1 - 128).
Proof.
  intros H0 H1. rewrite land_31, land_63, Z.shiftl_mul_pow2 by lia.
  rewrite lor_add by (try lia; apply Z.mod_pos_bound; lia).
  change (2 ^ 6) with 64. Z.div_mod_to_equations. lia.
Qed.

Lemma rune3_value p0 b1 b2 :
  224 <= p0 <= 239 -> 128 <= b1 <= 191 -> 128 <= b2 <= 191 ->
  Z.lor (Z.lor (Z.shiftl (Z.land p0 15) 12) (Z.shiftl (Z.land b1 63) 6)) (Z.land b2 63)
  = (p0 - 224) * 4096 + (b1 - 128) * 64 + (b2 - 128).
Proof.
  intros H0 H1 H2. rewrite land_15, !land_63, !Z.shiftl_mul_pow2 by lia.
  assert (E0 : p0 mod 16 = p0 - 224) by (Z.div_mod_to_equations; lia).
  assert (E1 : b1 mod 64 = b1 - 128) by (Z.div_mod_to_equations; lia).
  assert (E2 : b2 mod 64 = b2 - 128) by (Z.div_mod_to_equations; lia).
  rewrite E0, E1, E2.
  rewrite (lor_add (p0 - 224) ((b1 - 128) * 2 ^ 6) 12) by lia.
  replace ((p0 - 224) * 2 ^ 12 + (b1 - 128) * 2 ^ 6)
    with (((p0 - 224) * 64 + (b1 - 128)) * 2 ^ 6) by lia.
  rewrite lor_add by lia. lia.
Qed.

Lemma rune4_value p0 b1 b2 b3 :
  240 <= p0 <= 244 -> 128 <= b1 <= 191 -> 128 <= b2 <= 191 -> 128 <= b3 <= 191 ->
  Z.lor (Z.lor (Z.lor (Z.shiftl (Z.land p0 7) 18) (Z.shiftl (Z.land b1 63) 12))
               (Z.shiftl (Z.land b2 63) 6)) (Z.land b3 63)
  = (p0 - 240) * 262144 + (b1 - 128) * 4096 + (b2 - 128) * 64 + (b3 - 128).
Proof.
  intros H0 H1 H2 H3. rewrite land_7, !land_63, !Z.shiftl_mul_pow2 by lia.
  assert (E0 : p0 mod 8 = p0 - 240) by (Z.div_mod_to_equations; lia).
  assert (E1 : b1 mod 64 = b1 - 128) by (Z.div_mod_to_equations; lia).
  assert (E2 : b2 mod 64 = b2 - 128) by (Z.div_mod_to_equations; lia).
  assert (E3 : b3 mod 64 = b3 - 128) by (Z.div_mod_to_equations; lia).
  rewrite E0, E1, E2, E3.
  rewrite (lor_add (p0 - 240) ((b1 - 128) * 2 ^ 12) 18) by lia.
  replace ((p0 - 240) * 2 ^ 18 + (b1 - 128) * 2 ^ 12)
    with (((p0 - 240) * 64 + (b1 - 128)) * 2 ^ 12) by lia.
  rewrite (lor_add ((p0 - 240) * 64 + (b1 - 128)) ((b2 - 128) * 2 ^ 6) 12) by lia.
  replace (((p0 - 240) * 64 + (b1 - 128)) * 2 ^ 12 + (b2 - 128) * 2 ^ 6)
    with (((p0 - 240) * 4096 + (b1 - 128) * 64 + (b2 - 128)) * 2 ^ 6) by lia.
  rewrite lor_add by lia. lia.
Qed.

(** A continuation byte of the encoder: [0x80 | x] for a 6-bit [x]. *)
Lemma cont_byte x : 0 <= x < 64 -> Z.lor 128 x = 128 + x.
Proof. intros Hx. exact (lor_add 2 x 6 ltac:(lia) ltac:(lia)). Qed.

Lemma lead2_byte x : 0 <= x < 64 -> Z.lor 192 x = 192 + x.
Proof. intros Hx. exact (lor_add 3 x 6 ltac:(lia) ltac:(lia)). Qed.

Lemma lead3_byte x : 0 <= x < 16 -> Z.lor 224 x = 224 + x.
Proof. intros Hx. exact (lor_add 14 x 4 ltac:(lia) ltac:(lia)). Qed.

Lemma lead4_byte x : 0 <= x < 8 -> Z.lor 240 x = 240 + x.
Proof. intros Hx. exact (lor_add 30 x 3 ltac:(lia) ltac:(lia)). Qed.

Lemma EncodeRune_2 c0 c1 :
  194 <= byteZ c0 <= 223 -> 128 <= byteZ c1 <= 191 ->
  utf8.EncodeRune ((byteZ c0 - 192) * 64 + (byteZ c1 - 128))
  = String c0 (String c1 EmptyString).
Proof.
  intros H0 H1. unfold utf8.EncodeRune. settle_tests.
  rewrite land_63, Z.shiftr_div_pow2 by lia. change (2 ^ 6) with 64.
  assert (E0 : ((byteZ c0 - 192) * 64 + (byteZ c1 - 128)) / 64 = byteZ c0 - 192)
    by (Z.div_mod_to_equations; lia).
  assert (E1 : ((byteZ c0 - 192) * 64 + (byteZ c1 - 128)) mod 64 = byteZ c1 - 128)
    by (Z.div_mod_to_equations; lia).
  rewrite E0, E1, cont_byte by lia.
  rewrite lead2_byte by lia.
  replace (192 + (byteZ c0 - 192)) with (byteZ c0) by lia.
  replace (128 + (byteZ c1 - 128)) with (byteZ c1) by lia.
  now rewrite !chr_byteZ.
Qed.

Lemma encode3_bytes c0 c1 c2 :
  224 <= byteZ c0 <= 239 -> 128 <= byteZ c1 <= 191 -> 128 <= byteZ c2 <= 191 ->
  utf8.encode3 ((byteZ c0 - 224) * 4096 + (byteZ c1 - 128) * 64 + (byteZ c2 - 128))
  = String c0 (String c1 (String c2 EmptyString)).
Proof.
  intros H0 H1 H2. unfold utf8.encode3.
  rewrite !land_63, !Z.shiftr_div_pow2 by lia.
  change (2 ^ 6) with 64. change (2 ^ 12) with 4096.
  set (r := (byteZ c0 - 224) * 4096 + (byteZ c1 - 128) * 64 + (byteZ c2 - 128)).
  assert (E0 : r / 4096 = byteZ c0 - 224) by (unfold r; Z.div_mod_to_equations; lia).
  assert (E1 : (r / 64) mod 64 = byteZ c1 - 128) by (unfold r; Z.div_mod_to_equations; lia).
  assert (E2 : r mod 64 = byteZ c2 - 128) by (unfold r; Z.div_mod_to_equations; lia).
  rewrite E0, E1, E2, !cont_byte by lia.
  rewrite lead3_byte by lia.
  replace (224 + (byteZ c0 - 224)) with (byteZ c0) by lia.
  replace (128 + (byteZ c1 - 128)) with (byteZ c1) by lia.
  replace (128 + (byteZ c2 - 128)) with (byteZ c2) by lia.
  now rewrite !chr_byteZ.
Qed.

Lemma EncodeRune_3 c0 c1 c2 :
  224 <= byteZ c0 <= 239 ->
  (if byteZ c0 =? 224 then 160 else 128) <= byteZ c1
    <= (if byteZ c0 =? 237 then 159 else 191) ->
  128 <= byteZ c2 <= 191 ->
  utf8.EncodeRune ((byteZ c0 - 224) * 4096 + (byteZ c1 - 128) * 64 + (byteZ c2 - 128))
  = String c0 (String c1 (String c2 EmptyString)).
Proof.
  intros H0 H1 H2.
  assert (H1' : 128 <= byteZ c1 <= 191).
  { destruct (byteZ c0 =? 224), (byteZ c0 =? 237); lia. }
  rewrite <- (encode3_bytes c0 c1 c2 H0 H1' H2).
  unfold utf8.EncodeRune, utf8.MaxRune.
  destruct (byteZ c0 =? 224) eqn:E224; destruct (byteZ c0 =? 237) eqn:E237;
    try (exfalso; lia);
    destruct (Z.le_gt_cases (byteZ c0) 236);
    try (exfalso; lia);
    settle_tests; reflexivity.
Qed.

Lemma EncodeRune_4 c0 c1 c2 c3 :
  240 <= byteZ c0 <= 244 ->
  (if byteZ c0 =? 240 then 144 else 128) <= byteZ c1
    <= (if byteZ c0 =? 244 then 143 else 191) ->
  128 <= byteZ c2 <= 191 -> 128 <= byteZ c3 <= 191 ->
  utf8.EncodeRune ((byteZ c0 - 240) * 262144 + (byteZ c1 - 128) * 4096
                   + (byteZ c2 - 128) * 64 + (byteZ c3 - 128))
  = String c0 (String c1 (String c2 (String c3 EmptyString))).
Proof.
  intros H0 H1 H2 H3.
  assert (H1' : 128 <= byteZ c1 <= 191).
  { destruct (byteZ c0 =? 240), (byteZ c0 =? 244); lia. }
  set (r := (byteZ c0 - 240) * 262144 + (byteZ c1 - 128) * 4096
            + (byteZ c2 - 128) * 64 + (byteZ c3 - 128)).
  assert (Hr : 65536 <= r <= 1114111).
  { unfold r. destruct (byteZ c0 =? 240) eqn:E240; destruct (byteZ c0 =? 244) eqn:E244; lia. }
  unfold utf8.EncodeRune, utf8.MaxRune. settle_tests.
  rewrite !land_63, !Z.shiftr_div_pow2 by lia.
  change (2 ^ 6) with 64. change (2 ^ 12) with 4096. change (2 ^ 18) with 262144.
  assert (E0 : r / 262144 = byteZ c0 - 240) by (unfold r; Z.div_mod_to_equations; lia).
  assert (E1 : (r / 4096) mod 64 = byteZ c1 - 128) by (unfold r; Z.div_mod_to_equations; lia).
  assert (E2 : (r / 64) mod 64 = byteZ c2 - 128) by (unfold r; Z.div_mod_to_equations; lia).
  assert (E3 : r mod 64 = byteZ c3 - 128) by (unfold r; Z.div_mod_to_equations; lia).
  rewrite E0, E1, E2, E3, !cont_byte by lia.
  rewrite lead4_byte by lia.
  replace (240 + (byteZ c0 - 240)) with (byteZ c0) by lia.
  replace (128 + (byteZ c1 - 128)) with (byteZ c1) by lia.
  replace (128 + (byteZ c2 - 128)) with (byteZ c2) by lia.
  replace (128 + (byteZ c3 - 128)) with (byteZ c3) by lia.
  now rewrite !chr_byteZ.
Qed.

Lemma rune_bytes_2 c0 c1 :
  194 <= byteZ c0 <= 223 -> 128 <= byteZ c1 <= 191 ->
  rune_bytes (String c0 (String c1 EmptyString))
             (Z.lor (Z.shiftl (Z.land (byteZ c0) 31) 6) (Z.land (byteZ c1) 63)).
Proof.
  intros H0 H1. split; [cbn; lia|]. split; [cbn; settle_tests; reflexivity|]. split.
  - intros tail. rewrite !append_cons, append_nil_l.
    unfold utf8.DecodeRune. cbv zeta. settle_tests. reflexivity.
  - rewrite rune2_value by assumption. now apply EncodeRune_2.
Qed.

Lemma rune_bytes_3 c0 c1 c2 :
  224 <= byteZ c0 <= 239 ->
  (if byteZ c0 =? 224 then 160 else 128) <= byteZ c1
    <= (if byteZ c0 =? 237 then 159 else 191) ->
  128 <= byteZ c2 <= 191 ->
  rune_bytes (String c0 (String c1 (String c2 EmptyString)))
             (Z.lor (Z.lor (Z.shiftl (Z.land (byteZ c0) 15) 12)
                           (Z.shiftl (Z.land (byteZ c1) 63) 6))
                    (Z.land (byteZ c2) 63)).
Proof.
  intros H0 H1 H2.
  assert (H1' : 128 <= byteZ c1 <= 191).
  { destruct (byteZ c0 =? 224), (byteZ c0 =? 237); lia. }
  split; [cbn; lia|]. split; [cbn; settle_tests; reflexivity|]. split.
  - intros tail. rewrite !append_cons, append_nil_l.
    unfold utf8.DecodeRune. cbv zeta.
    destruct (byteZ c0 =? 224) eqn:E224; destruct (byteZ c0 =? 237) eqn:E237;
      try (exfalso; lia); settle_tests; reflexivity.
  - rewrite rune3_value by assumption. now apply EncodeRune_3.
Qed.

Lemma rune_bytes_4 c0 c1 c2 c3 :
  240 <= byteZ c0 <= 244 ->
  (if byteZ c0 =? 240 then 144 else 128) <= byteZ c1
    <= (if byteZ c0 =? 244 then 143 else 191) ->
  128 <= byteZ c2 <= 191 -> 128 <= byteZ c3 <= 191 ->
  rune_bytes (String c0 (String c1 (String c2 (String c3 EmptyString))))
             (Z.lor (Z.lor (Z.lor (Z.shiftl (Z.land (byteZ c0) 7) 18)
                                  (Z.shiftl (Z.land (byteZ c1) 63) 12))
                           (Z.shiftl (Z.land (byteZ c2) 63) 6))
                    (Z.land (byteZ c3) 63)).
Proof.
  intros H0 H1 H2 H3.
  assert (H1' : 128 <= byteZ c1 <= 191).
  { destruct (byteZ c0 =? 240), (byteZ c0 =? 244); lia. }
  split; [cbn; lia|]. split; [cbn; settle_tests; reflexivity|]. split.
  - intros tail. rewrite !append_cons, append_nil_l.
    unfold utf8.DecodeRune. cbv zeta.
    destruct (byteZ c0 =? 240) eqn:E240; destruct (byteZ c0 =? 244) eqn:E244;
      try (exfalso; lia); settle_tests; reflexivity.
  - rewrite rune4_value by assumption. now apply EncodeRune_4.
Qed.

(** Where [DecodeRune] finds a rune of several bytes, those bytes are
    the encoding of the rune. *)
Lemma DecodeRune_rune_bytes c0 rest r size :
  128 <= byteZ c0 ->
  utf8.DecodeRune (String c0 rest) = (r, size) ->
  ~ (r = utf8.RuneError /\ size = 1%nat) ->
  exists pre tail,
    String c0 rest = pre +:+ tail /\ String.length pre = size /\ rune_bytes pre r.
Proof.
  intros Hc0 Hdec Hok. unfold utf8.DecodeRune in Hdec. cbv zeta in Hdec.
  rewrite (proj2 (Z.ltb_ge (byteZ c0) 128)) in Hdec by lia.
  destruct ((byteZ c0 <? 194) || (244 <? byteZ c0)) eqn:E0;
    [inversion Hdec; subst; now contradict Hok|].
  apply orb_false_iff in E0 as [E0a E0b].
  destruct rest as [|c1 r1]; [inversion Hdec; subst; now contradict Hok|].
  match type of Hdec with
  | (if ?t then _ else _) = _ => destruct t eqn:E1
  end; [inversion Hdec; subst; now contradict Hok|].
  apply orb_false_iff in E1 as [E1a E1b].
  destruct (byteZ c0 <? 224) eqn:E2.
  { inversion Hdec; subst. exists (String c0 (String c1 EmptyString)), r1.
    split; [reflexivity|]. split; [reflexivity|].
    apply rune_bytes_2; [lia|].
    revert E1a E1b. settle_tests. lia. }
  destruct r1 as [|c2 r2]; [inversion Hdec; subst; now contradict Hok|].
  destruct ((byteZ c2 <? 128) || (191 <? byteZ c2)) eqn:E3;
    [inversion Hdec; subst; now contradict Hok|].
  apply orb_false_iff in E3 as [E3a E3b].
  destruct (byteZ c0 <? 240) eqn:E4.
  { inversion Hdec; subst. exists (String c0 (String c1 (String c2 EmptyString))), r2.
    split; [reflexivity|]. split; [reflexivity|].
    apply rune_bytes_3; [lia| |lia].
    revert E1a E1b.
    destruct (byteZ c0 =? 224) eqn:E224; destruct (byteZ c0 =? 237) eqn:E237;
      try (exfalso; lia); settle_tests; lia. }
  destruct r2 as [|c3 r3]; [inversion Hdec; subst; now contradict Hok|].
  destruct ((byteZ c3 <? 128) || (191 <? byteZ c3)) eqn:E5;
    [inversion Hdec; subst; now contradict Hok|].
  apply orb_false_iff in E5 as [E5a E5b].
  inversion Hdec; subst.
  exists (String c0 (String c1 (String c2 (String c3 EmptyString)))), r3.
  split; [reflexivity|]. split; [reflexivity|].
  apply rune_bytes_4; [lia| |lia|lia].
  revert E1a E1b.
  destruct (byteZ c0 =? 240) eqn:E240; destruct (byteZ c0 =? 244) eqn:E244;
    try (exfalso; lia); settle_tests; lia.
Qed.

(** * Valid UTF-8, rune by rune *)

Lemma valid_from_skip x t :
  utf8.valid_from (String.length x) (x +:+ t) = utf8.valid_from 0 t.
Proof. induction x as [|c x IH]; [reflexivity|]. rewrite append_cons. exact IH. Qed.

Lemma rune_bytes_cons pre r :
  rune_bytes pre r ->
  exists c0 pre', pre = String c0 pre' /\ 128 <= byteZ c0 /\
                  String.length pre = S (String.length pre').
Proof.
  intros (Hlen & Hall & _). destruct pre as [|c0 pre']; [cbn in Hlen; lia|].
  exists c0, pre'. cbn in Hall. apply andb_true_iff in Hall as [Hc _].
  split; [reflexivity|]. split; [lia|reflexivity].
Qed.

(** Induction on a valid string: one ASCII byte or one rune of several
    bytes at a time. *)
Lemma valid_string_ind (P : string -> Prop) :
  P EmptyString ->
  (forall c s, byteZ c < 128 -> utf8.ValidString s = true -> P s -> P (String c s)) ->
  (forall pre r s, rune_bytes pre r -> utf8.ValidString s = true -> P s -> P (pre +:+ s)) ->
  forall s, utf8.ValidString s = true -> P s.
Proof.
  intros Hnil Hascii Hrune s.
  assert (H : forall n s, (String.length s <= n)%nat -> utf8.ValidString s = true -> P s).
  { clear s. induction n as [|n IH]; intros s Hlen Hvalid.
    - destruct s; [exact Hnil | cbn in Hlen; lia].
    - destruct s as [|c rest]; [exact Hnil|].
      unfold utf8.ValidString in Hvalid. cbn [utf8.valid_from] in Hvalid.
      unfold utf8.RuneSelf in Hvalid.
      destruct (byteZ c <? 128) eqn:Ec.
      + apply Hascii; [lia | exact Hvalid |]. apply IH; [cbn in Hlen; lia | exact Hvalid].
      + destruct (utf8.DecodeRune (String c rest)) as [r size] eqn:Ed.
        destruct ((r =? utf8.RuneError) && Nat.eqb size 1) eqn:Eerr; [discriminate|].
        assert (Hok : ~ (r = utf8.RuneError /\ size = 1%nat)).
        { intros [-> ->]. discriminate Eerr. }
        destruct (DecodeRune_rune_bytes c rest r size ltac:(lia) Ed Hok)
          as (pre & tail & Hsplit & Hsize & Hrb).
        destruct (rune_bytes_cons pre r Hrb) as (c0 & pre' & -> & _ & Hl).
        rewrite append_cons in Hsplit. injection Hsplit as <- ->.
        rewrite <- Hsize, Hl in Hvalid. cbn [Nat.sub] in Hvalid.
        rewrite Nat.sub_0_r, valid_from_skip in Hvalid.
        rewrite <- append_cons. apply (Hrune _ r); [exact Hrb | exact Hvalid|].
        apply IH; [|exact Hvalid]. cbn in Hlen.
        rewrite length_app_string in Hlen. lia. }
  apply (H (String.length s)). lia.
Qed.

(** * Writing a string and scanning it *)

Lemma appendString_loop_skip x t :
  json.appendString_loop (String.length x) (x +:+ t) = json.appendString_loop 0 t.
Proof. induction x as [|c x IH]; [reflexivity|]. rewrite append_cons. exact IH. Qed.

Lemma unquote_loop_skip x t :
  json.unquote_loop (String.length x) (x +:+ t) = json.unquote_loop 0 t.
Proof. induction x as [|c x IH]; [reflexivity|]. rewrite append_cons. exact IH. Qed.

Lemma str_take_app pre t : str_take (String.length pre) (pre +:+ t) = pre.
Proof.
  induction pre as [|c pre IH]; [now destruct t|].
  rewrite append_cons. cbn. now rewrite IH.
Qed.

Lemma str_take_4_app pre t :
  (String.length pre <= 4)%nat -> exists tail, str_take 4 (pre +:+ t) = pre +:+ tail.
Proof.
  intros Hlen.
  destruct pre as [|a [|b [|c [|d [|e pre]]]]]; try (cbn in Hlen; lia);
    rewrite ?append_cons, ?append_nil_l.
  - exists (str_take 4 t). reflexivity.
  - exists (str_take 3 t). reflexivity.
  - exists (str_take 2 t). reflexivity.
  - exists (str_take 1 t). reflexivity.
  - exists EmptyString. reflexivity.
Qed.

(** What [appendString] writes for one ASCII byte. *)
Lemma appendString_loop_ascii c s :
  byteZ c < 128 ->
  json.appendString_loop 0 (String c s)
  = (if json.htmlSafe (byteZ c) then String c EmptyString else json.escapeByte c)
      +:+ json.appendString_loop 0 s.
Proof.
  intros Hc. cbn [json.appendString_loop]. unfold utf8.RuneSelf.
  now rewrite (proj2 (Z.ltb_lt (byteZ c) 128)) by lia.
Qed.

(** What [appendString] writes for one rune of several bytes: the bytes
    themselves, except for U+2028 and U+2029. *)
Lemma appendString_loop_rune pre r s :
  rune_bytes pre r ->
  json.appendString_loop 0 (pre +:+ s)
  = (if (r =? 8232) || (r =? 8233)
     then "\u202" +:+ String (json.hexChar (Z.land r 15)) EmptyString
     else pre) +:+ json.appendString_loop 0 s.
Proof.
  intros Hrb. destruct (rune_bytes_cons pre r Hrb) as (c0 & pre' & -> & Hc0 & Hl).
  destruct Hrb as (Hlen & _ & Hdec & _).
  rewrite append_cons. cbn [json.appendString_loop]. unfold utf8.RuneSelf.
  rewrite (proj2 (Z.ltb_ge (byteZ c0) 128)) by lia.
  rewrite <- append_cons.
  destruct (str_take_4_app (String c0 pre') s ltac:(lia)) as [tail ->].
  rewrite Hdec, Hl.
  replace (Nat.eqb (S (String.length pre')) 1) with false
    by (symmetry; apply Nat.eqb_neq; cbn in Hlen; lia).
  rewrite andb_false_r. cbn [Nat.sub]. rewrite Nat.sub_0_r.
  rewrite appendString_loop_skip.
  destruct ((r =? 8232) || (r =? 8233)); [reflexivity|].
  now rewrite <- Hl, str_take_app.
Qed.

Lemma scan_through_nil : scan_through EmptyString.
Proof.
  intros t. rewrite append_nil_l. destruct (json.scanString t) as [[a b]|]; reflexivity.
Qed.

Lemma scan_through_app x y : scan_through x -> scan_through y -> scan_through (x +:+ y).
Proof.
  intros Hx Hy t. rewrite append_assoc, Hx, Hy.
  destruct (json.scanString t) as [[a b]|]; cbn; [|reflexivity].
  now rewrite append_assoc.
Qed.

Lemma unquote_through_nil : unquote_through EmptyString EmptyString.
Proof.
  intros t. rewrite append_nil_l. destruct (json.unquote_loop 0 t); reflexivity.
Qed.

Lemma unquote_through_app x1 y1 x2 y2 :
  unquote_through x1 y1 -> unquote_through x2 y2 ->
  unquote_through (x1 +:+ x2) (y1 +:+ y2).
Proof.
  intros H1 H2 t. rewrite append_assoc, H1, H2.
  destruct (json.unquote_loop 0 t); cbn; [|reflexivity].
  now rewrite append_assoc.
Qed.

(** One ASCII byte, as [appendString] writes it, is scanned and is
    unquoted to the byte. *)
Lemma scan_through_ascii c :
  byteZ c < 128 ->
  scan_through (if json.htmlSafe (byteZ c) then String c EmptyString
                else json.escapeByte c).
Proof.
  intros Hc t.
  destruct c as [[] [] [] [] [] [] [] []];
    try (exfalso; vm_compute in Hc; discriminate Hc);
    cbv - [json.scanString option_map fst snd];
    cbn [json.scanString]; cbv - [json.scanString option_map fst snd];
    destruct (json.scanString t) as [[a b]|]; reflexivity.
Qed.

Lemma unquote_through_ascii c :
  byteZ c < 128 ->
  unquote_through (if json.htmlSafe (byteZ c) then String c EmptyString
                   else json.escapeByte c)
                  (String c EmptyString).
Proof.
  intros Hc t.
  destruct c as [[] [] [] [] [] [] [] []];
    try (exfalso; vm_compute in Hc; discriminate Hc);
    cbv - [json.unquote_loop option_map];
    cbn [json.unquote_loop]; cbv - [json.unquote_loop option_map];
    destruct (json.unquote_loop 0 t); reflexivity.
Qed.

(** Bytes from 128 on are scanned as they are. *)
Lemma scan_through_high pre :
  all_chars (fun c => 128 <=? byteZ c) pre = true -> scan_through pre.
Proof.
  induction pre as [|c pre IH]; intros Hall; [apply scan_through_nil|].
  cbn in Hall. apply andb_true_iff in Hall as [Hc Hpre].
  intros t. rewrite append_cons. cbn [json.scanString]. settle_tests.
  rewrite (IH Hpre t). destruct (json.scanString t) as [[a b]|]; reflexivity.
Qed.

Lemma unquote_through_rune pre r : rune_bytes pre r -> unquote_through pre pre.
Proof.
  intros Hrb t. destruct (rune_bytes_cons pre r Hrb) as (c0 & pre' & -> & Hc0 & Hl).
  destruct Hrb as (Hlen & _ & Hdec & Henc).
  rewrite append_cons. cbn [json.unquote_loop]. unfold utf8.RuneSelf. settle_tests.
  rewrite <- append_cons, Hdec, Henc, Hl. cbn [Nat.sub]. rewrite Nat.sub_0_r.
  now rewrite unquote_loop_skip.
Qed.

(** The escapes written for U+2028 and U+2029. *)
Lemma scan_through_u202 r :
  r = 8232 \/ r = 8233 ->
  scan_through ("\u202" +:+ String (json.hexChar (Z.land r 15)) EmptyString).
Proof.
  intros [-> | ->] t;
    cbv - [json.scanString option_map fst snd];
    cbn [json.scanString]; cbv - [json.scanString option_map fst snd];
    destruct (json.scanString t) as [[a b]|]; reflexivity.
Qed.

Lemma unquote_through_u202 pre r :
  rune_bytes pre r -> r = 8232 \/ r = 8233 ->
  unquote_through ("\u202" +:+ String (json.hexChar (Z.land r 15)) EmptyString) pre.
Proof.
  intros (_ & _ & _ & Henc) Hr t. rewrite <- Henc.
  destruct Hr as [-> | ->];
    cbv - [json.unquote_loop option_map];
    cbn [json.unquote_loop]; cbv - [json.unquote_loop option_map];
    destruct (json.unquote_loop 0 t); reflexivity.
Qed.

Lemma is_u202 r : (r =? 8232) || (r =? 8233) = true -> r = 8232 \/ r = 8233.
Proof. intros H. apply orb_true_iff in H. lia. Qed.

(** What [appendString] writes for a valid string is scanned whole and
    is unquoted to the string. *)
Lemma appendString_loop_through s :
  utf8.ValidString s = true ->
  scan_through (json.appendString_loop 0 s) /\
  unquote_through (json.appendString_loop 0 s) s.
Proof.
  intros Hvalid.
  apply (valid_string_ind
           (fun s => scan_through (json.appendString_loop 0 s) /\
                     unquote_through (json.appendString_loop 0 s) s));
    [ | intros c s' Hc Hs [IH1 IH2] | intros pre r s' Hrb Hs [IH1 IH2] | exact Hvalid].
  - split; [apply scan_through_nil | apply unquote_through_nil].
  - rewrite (appendString_loop_ascii c s' Hc). split.
    + apply scan_through_app; [now apply scan_through_ascii | exact IH1].
    + change (String c s') with (String c EmptyString +:+ s').
      apply unquote_through_app; [now apply unquote_through_ascii | exact IH2].
  - rewrite (appendString_loop_rune pre r s' Hrb).
    destruct ((r =? 8232) || (r =? 8233)) eqn:Er.
    + apply is_u202 in Er. split.
      * apply scan_through_app; [now apply scan_through_u202 | exact IH1].
      * apply unquote_through_app; [now apply (unquote_through_u202 pre r) | exact IH2].
    + split.
      * apply scan_through_app; [apply scan_through_high, Hrb | exact IH1].
      * apply unquote_through_app; [now apply (unquote_through_rune pre r) | exact IH2].
Qed.

Lemma scanString_quote rest :
  json.scanString (String quoteChar rest) = Some (EmptyString, rest).
Proof. reflexivity. Qed.

Lemma scanString_appendString s rest :
  utf8.ValidString s = true ->
  json.scanString (json.appendString_loop 0 s +:+ String quoteChar rest)
  = Some (json.appendString_loop 0 s, rest).
Proof.
  intros Hs. rewrite (proj1 (appendString_loop_through s Hs)), scanString_quote.
  cbn [option_map fst snd]. now rewrite append_nil_r.
Qed.

Lemma unquote_appendString s :
  utf8.ValidString s = true -> json.unquote (json.appendString_loop 0 s) = Some s.
Proof.
  intros Hs. unfold json.unquote.
  rewrite <- (append_nil_r (json.appendString_loop 0 s)).
  rewrite (proj2 (appendString_loop_through s Hs)).
  cbn [json.unquote_loop option_map]. now rewrite append_nil_r.
Qed.

(** * Values in a JSON text *)

Lemma parse_value_string fuel depth s raw r :
  json.scanString s = Some (raw, r) ->
  json.parse_value (S fuel) depth (String quoteChar s) = Some (json.JString raw, r).
Proof.
  intros Hs. cbn [json.parse_value].
  change (json.skipSpace (String quoteChar s)) with (String quoteChar s).
  cbv iota beta zeta.
  change (byteZ quoteChar =? 123) with false.
  change (byteZ quoteChar =? 91) with false.
  change (byteZ quoteChar =? 34) with true.
  cbv iota. now rewrite Hs.
Qed.

Lemma skipSpace_not_space c s : json.isSpace c = false -> json.skipSpace (String c s) = String c s.
Proof. intros H. cbn. now rewrite H. Qed.

Lemma FormatInt_head z :
  exists c s, strconv.FormatInt z = String c s /\
              (byteZ c = 45 \/ strconv.isDigit c = true).
Proof.
  unfold strconv.FormatInt. destruct (z <? 0) eqn:E.
  - eexists _, _. split; [reflexivity|]. left. reflexivity.
  - destruct (FormatUint_digits z) as (c & ds & Heq & Hall & _); [lia|].
    rewrite Heq. eexists _, _. split; [reflexivity|].
    right. cbn in Hall. now apply andb_true_iff in Hall as [Hc _].
Qed.

Lemma parse_value_number fuel depth z rest :
  closes_value rest ->
  json.parse_value (S fuel) depth (strconv.FormatInt z +:+ rest)
  = Some (json.JNumber (strconv.FormatInt z), rest).
Proof.
  intros Hrest. pose proof (scanNumber_FormatInt z rest Hrest) as Hscan.
  destruct (FormatInt_head z) as (c & s & Heq & Hc). rewrite Heq in *.
  rewrite append_cons in *.
  cbn [json.parse_value].
  assert (Hb : byteZ c = 45 \/ 48 <= byteZ c <= 57).
  { destruct Hc as [Hc|Hc]; [now left | right].
    pose proof (isDigit_range c Hc). lia. }
  rewrite skipSpace_not_space.
  2:{ unfold json.isSpace. cbv zeta. destruct Hb; settle_tests; reflexivity. }
  cbv iota beta zeta.
  replace (byteZ c =? 123) with false by (symmetry; apply Z.eqb_neq; lia).
  replace (byteZ c =? 91) with false by (symmetry; apply Z.eqb_neq; lia).
  replace (byteZ c =? 34) with false by (symmetry; apply Z.eqb_neq; lia).
  replace ((byteZ c =? 45) || strconv.isDigit c) with true.
  2:{ symmetry. apply orb_true_iff. destruct Hc as [Hc|Hc]; [left; lia | now right]. }
  cbv iota. now rewrite Hscan.
Qed.

(** * The value types *)

Lemma scans_as_fuel raw jv :
  raw <> EmptyString ->
  (forall fuel rest, closes_value rest ->
     json.parse_value (S fuel) 1 (raw +:+ rest) = Some (jv, rest)) ->
  scans_as raw jv.
Proof.
  intros Hne H fuel rest Hfuel Hrest. destruct fuel as [|fuel]; [|now apply H].
  destruct raw; [congruence | cbn in Hfuel; lia].
Qed.

#[global] Instance int_Lossless : LosslessJSON Z in_int64.
Proof.
  split.
  - intros v _ Hv. cbn in Hv. cbn. lia.
  - intros v Hok _. exists (strconv.FormatInt v), (json.JNumber (strconv.FormatInt v)).
    split; [reflexivity|]. split.
    + apply scans_as_fuel.
      * destruct (FormatInt_head v) as (c & s & -> & _). discriminate.
      * intros fuel rest Hrest. now apply parse_value_number.
    + intros cur. cbn. now apply ParseInt_FormatInt.
Qed.

Lemma appendString_app_rest s rest :
  json.appendString s +:+ rest
  = String quoteChar (json.appendString_loop 0 s +:+ String quoteChar rest).
Proof.
  unfold json.appendString. now rewrite append_cons, append_assoc, append_cons, append_nil_l.
Qed.

Lemma scans_as_appendString s :
  utf8.ValidString s = true ->
  scans_as (json.appendString s) (json.JString (json.appendString_loop 0 s)).
Proof.
  intros Hs. apply scans_as_fuel; [discriminate|].
  intros fuel rest _. rewrite appendString_app_rest.
  apply parse_value_string. now apply scanString_appendString.
Qed.

#[global] Instance string_Lossless : LosslessJSON string (fun s => utf8.ValidString s = true).
Proof.
  split.
  - intros v _ Hv. cbn in Hv. now apply String.eqb_eq in Hv.
  - intros v Hok _.
    exists (json.appendString v), (json.JString (json.appendString_loop 0 v)).
    split; [reflexivity|]. split; [now apply scans_as_appendString|].
    intros cur. cbn. now apply unquote_appendString.
Qed.

#[global] Instance bool_Lossless : LosslessJSON bool (fun _ => True).
Proof.
  split.
  - intros [|] _ Hv; [discriminate | reflexivity].
  - intros [|] _ Hv; [|discriminate].
    exists "true"%string, (json.JBool true). split; [reflexivity|]. split.
    + apply scans_as_fuel; [discriminate|]. intros fuel rest _. reflexivity.
    + intros cur. reflexivity.
Qed.

(** * Plain text and the time stamp *)

Lemma plainByte_facts c :
  plainByte c = true ->
  32 <= byteZ c < 128 /\ byteZ c <> 34 /\ byteZ c <> 92 /\
  byteZ c <> 60 /\ byteZ c <> 62 /\ byteZ c <> 38.
Proof.
  unfold plainByte, json.htmlSafe, utf8.RuneSelf. intros H.
  repeat (apply andb_true_iff in H as [H ?]).
  repeat match goal with
  | H : negb _ = true |- _ => apply negb_true_iff, Z.eqb_neq in H
  end.
  lia.
Qed.

Lemma plainByte_htmlSafe c : plainByte c = true -> json.htmlSafe (byteZ c) = true.
Proof. unfold plainByte. intros H. now apply andb_true_iff in H as [H _]. Qed.

Lemma scan_through_plain text : all_chars plainByte text = true -> scan_through text.
Proof.
  induction text as [|c text IH]; intros Hall; [apply scan_through_nil|].
  cbn in Hall. apply andb_true_iff in Hall as [Hc Htext].
  change (String c text) with (String c EmptyString +:+ text).
  apply scan_through_app; [|now apply IH].
  pose proof (scan_through_ascii c ltac:(pose proof (plainByte_facts c Hc); lia)) as H.
  now rewrite (plainByte_htmlSafe c Hc) in H.
Qed.

Lemma compactEscape_plain text :
  all_chars plainByte text = true -> json.compactEscape 0 text = text.
Proof.
  induction text as [|c text IH]; intros Hall; [reflexivity|].
  cbn in Hall. apply andb_true_iff in Hall as [Hc Htext].
  pose proof (plainByte_facts c Hc) as Hf.
  cbn [json.compactEscape]. cbv zeta. settle_tests.
  rewrite (IH Htext). now destruct text as [|c1 [|c2 text]].
Qed.

Lemma scanString_plain text rest :
  all_chars plainByte text = true ->
  json.scanString (text +:+ String quoteChar rest) = Some (text, rest).
Proof.
  intros Hall. rewrite (scan_through_plain text Hall), scanString_quote.
  cbn [option_map fst snd]. now rewrite append_nil_r.
Qed.

Lemma quoted_app_rest text rest :
  String quoteChar (text +:+ String quoteChar EmptyString) +:+ rest
  = String quoteChar (text +:+ String quoteChar rest).
Proof. now rewrite append_cons, append_assoc, append_cons, append_nil_l. Qed.

Lemma scans_as_plain text :
  all_chars plainByte text = true ->
  scans_as (String quoteChar (text +:+ String quoteChar EmptyString)) (json.JString text).
Proof.
  intros Hall. apply scans_as_fuel; [discriminate|].
  intros fuel rest _. rewrite quoted_app_rest.
  apply parse_value_string. now apply scanString_plain.
Qed.

Lemma compact_plain text :
  all_chars plainByte text = true ->
  json.compact (String quoteChar (text +:+ String quoteChar EmptyString))
  = Some (String quoteChar (text +:+ String quoteChar EmptyString)).
Proof.
  intros Hall. unfold json.compact, json.parse.
  rewrite (parse_value_string _ 0 _ text EmptyString (scanString_plain text EmptyString Hall)).
  cbn [json.skipSpace json.print]. now rewrite (compactEscape_plain text Hall).
Qed.

Section TimeFacts.
Context {Time : Type} `{TimeValue Time}.

Lemma marshalTime_plain (t : Time) text :
  appendStrictRFC3339 t = Some text -> all_chars plainByte text = true ->
  marshalTime t = Some (String quoteChar (text +:+ String quoteChar EmptyString)).
Proof.
  intros Hf Hall. unfold marshalTime, MarshalJSON_Time. rewrite Hf.
  now apply compact_plain.
Qed.
End TimeFacts.

Lemma plainByte_digitChar d : 0 <= d <= 9 -> plainByte (strconv.digitChar d) = true.
Proof.
  intros Hd. unfold plainByte, json.htmlSafe, utf8.RuneSelf.
  rewrite digitChar_byte by exact Hd. settle_tests. reflexivity.
Qed.

(** ** The coding of times *)

Lemma digitsValue_2 a b :
  0 <= a <= 9 -> 0 <= b <= 9 ->
  strconv.digitsValue 0
    (String (strconv.digitChar a) (String (strconv.digitChar b) EmptyString))
  = Some (a * 10 + b).
Proof.
  intros Ha Hb. cbn [strconv.digitsValue].
  rewrite !digitChar_isDigit, !digitChar_byte by assumption. f_equal. lia.
Qed.

Lemma digitsValue_4 a b c d :
  0 <= a <= 9 -> 0 <= b <= 9 -> 0 <= c <= 9 -> 0 <= d <= 9 ->
  strconv.digitsValue 0
    (String (strconv.digitChar a) (String (strconv.digitChar b)
       (String (strconv.digitChar c) (String (strconv.digitChar d) EmptyString))))
  = Some (((a * 10 + b) * 10 + c) * 10 + d).
Proof.
  intros Ha Hb Hc Hd. cbn [strconv.digitsValue].
  rewrite !digitChar_isDigit, !digitChar_byte by assumption. f_equal. lia.
Qed.

Lemma parseUint_2 n lo hi :
  0 <= n <= 99 -> lo <= n <= hi ->
  gotime.parseUint
    (String (strconv.digitChar (n / 10)) (String (strconv.digitChar (n mod 10)) EmptyString))
    lo hi
  = (true, n).
Proof.
  intros Hn Hr. unfold gotime.parseUint.
  rewrite digitsValue_2 by (Z.div_mod_to_equations; lia).
  replace (n / 10 * 10 + n mod 10) with n by (Z.div_mod_to_equations; lia).
  destruct (Z.ltb_spec n lo); [lia|]. destruct (Z.ltb_spec hi n); [lia|]. reflexivity.
Qed.

Lemma parseUint_4 n lo hi :
  0 <= n <= 9999 -> lo <= n <= hi ->
  gotime.parseUint
    (String (strconv.digitChar (n / 1000)) (String (strconv.digitChar (n / 100 mod 10))
       (String (strconv.digitChar (n / 10 mod 10))
          (String (strconv.digitChar (n mod 10)) EmptyString))))
    lo hi
  = (true, n).
Proof.
  intros Hn Hr. unfold gotime.parseUint.
  rewrite digitsValue_4 by (Z.div_mod_to_equations; lia).
  replace (((n / 1000 * 10 + n / 100 mod 10) * 10 + n / 10 mod 10) * 10 + n mod 10)
    with n by (Z.div_mod_to_equations; lia).
  destruct (Z.ltb_spec n lo); [lia|]. destruct (Z.ltb_spec hi n); [lia|]. reflexivity.
Qed.

Lemma wholeSecondUTC_ranges x :
  gotime.wholeSecondUTC x = true ->
  0 <= gotime.year x <= 9999 /\ 1 <= gotime.month x <= 12 /\
  1 <= gotime.day x <= gotime.daysIn (gotime.month x) (gotime.year x) /\
  gotime.day x <= 31 /\
  0 <= gotime.hour x <= 23 /\
  0 <= gotime.minute x <= 59 /\ 0 <= gotime.second x <= 59 /\
  gotime.nanosecond x = 0 /\ gotime.offset x = 0.
Proof.
  unfold gotime.wholeSecondUTC, gotime.valid, gotime.between. intros H.
  repeat (apply andb_true_iff in H as [H ?]).
  assert (gotime.daysIn (gotime.month x) (gotime.year x) <= 31).
  { unfold gotime.daysIn.
    destruct (gotime.month x =? 2); [destruct (gotime.isLeap _); lia|].
    destruct ((gotime.month x =? 4) || (gotime.month x =? 6)
              || (gotime.month x =? 9) || (gotime.month x =? 11)); lia. }
  lia.
Qed.

Lemma appendInt_2 n :
  0 <= n <= 99 ->
  gotime.appendInt n 2
  = String (strconv.digitChar (n / 10)) (String (strconv.digitChar (n mod 10)) EmptyString).
Proof.
  intros Hn. unfold gotime.appendInt. rewrite Z.abs_eq by lia.
  destruct (Z.ltb_spec n 0); [lia|]. destruct (Z.ltb_spec n 100); [|lia].
  cbn [Z.eqb Pos.eqb andb]. apply append_nil_l.
Qed.

Lemma appendInt_4 n :
  0 <= n <= 9999 ->
  gotime.appendInt n 4
  = String (strconv.digitChar (n / 1000)) (String (strconv.digitChar (n / 100 mod 10))
      (String (strconv.digitChar (n / 10 mod 10))
         (String (strconv.digitChar (n mod 10)) EmptyString))).
Proof.
  intros Hn. unfold gotime.appendInt. rewrite Z.abs_eq by lia.
  destruct (Z.ltb_spec n 0); [lia|]. destruct (Z.ltb_spec n 10000); [|lia].
  cbn [Z.eqb Pos.eqb andb]. apply append_nil_l.
Qed.

(** The text of a time of UTC at a whole second. *)
Lemma appendFormatRFC3339_utc x :
  gotime.wholeSecondUTC x = true ->
  gotime.appendFormatRFC3339 x
  = gotime.appendInt (gotime.year x) 4 +:+ String "-" (gotime.appendInt (gotime.month x) 2
      +:+ String "-" (gotime.appendInt (gotime.day x) 2
      +:+ String "T" (gotime.appendInt (gotime.hour x) 2
      +:+ String ":" (gotime.appendInt (gotime.minute x) 2
      +:+ String ":" (gotime.appendInt (gotime.second x) 2 +:+ "Z"))))).
Proof.
  intros Hok. destruct (wholeSecondUTC_ranges x Hok) as (_ & _ & _ & _ & _ & _ & _ & Hn & Ho).
  unfold gotime.appendFormatRFC3339, gotime.appendNano. rewrite Hn, Ho.
  cbn [Z.eqb]. rewrite ?append_assoc, ?append_cons, ?append_nil_l. reflexivity.
Qed.

Lemma isLeap_daysBefore y m :
  1 <= m <= 12 -> 0 <= gotime.daysBeforeMonth m y <= 335.
Proof.
  intros Hm. unfold gotime.daysBeforeMonth.
  destruct (gotime.isLeap y && (3 <=? m));
    repeat match goal with |- context [m =? ?k] => destruct (Z.eqb_spec m k) end; lia.
Qed.

Lemma daysBeforeMonth_first y m :
  1 <= m <= 12 -> gotime.daysBeforeMonth m y = 0 -> m = 1.
Proof.
  intros Hm. unfold gotime.daysBeforeMonth.
  destruct (gotime.isLeap y && (3 <=? m));
    repeat match goal with |- context [m =? ?k] => destruct (Z.eqb_spec m k) end; lia.
Qed.

Lemma IsZero_utc x :
  gotime.wholeSecondUTC x = true -> gotime.IsZero x = true -> x = gotime.zero.
Proof.
  intros Hok Hz. destruct (wholeSecondUTC_ranges x Hok)
    as (Hy & Hm & Hd & Hd' & Hh & Hi & He & Hn & Ho).
  unfold gotime.IsZero in Hz. apply andb_true_iff in Hz as [Hz _].
  apply Z.eqb_eq in Hz. unfold gotime.sec in Hz. rewrite Ho in Hz.
  pose proof (isLeap_daysBefore (gotime.year x) (gotime.month x) Hm) as Hb.
  assert (Hyear : gotime.year x = 1).
  { unfold gotime.daysBeforeYear in Hz.
    destruct (Z.eq_dec (gotime.year x) 1) as [E|E]; [exact E|].
    exfalso. destruct (Z.le_gt_cases (gotime.year x) 0) as [H0|H2].
    - assert (gotime.year x = 0) by lia. rewrite H in Hz, Hb.
      change (365 * (0 - 1) + (0 - 1) / 4 - (0 - 1) / 100 + (0 - 1) / 400) with (-366) in Hz.
      lia.
    - assert (0 <= (gotime.year x - 1) / 4 - (gotime.year x - 1) / 100
                   + (gotime.year x - 1) / 400)
        by (Z.div_mod_to_equations; lia).
      lia. }
  rewrite Hyear in Hz, Hb. change (gotime.daysBeforeYear 1) with 0 in Hz.
  assert (Hmonth0 : gotime.daysBeforeMonth (gotime.month x) 1 = 0) by lia.
  pose proof (daysBeforeMonth_first 1 (gotime.month x) Hm Hmonth0) as Hmonth.
  destruct x as [y m d h i e n o]. cbn in *. subst.
  unfold gotime.zero. f_equal; lia.
Qed.

#[global] Instance gotime_Lossless :
  LosslessTime gotime.Time (fun x => gotime.wholeSecondUTC x = true).
Proof.
  split.
  - intros x Hok Hz. exact (IsZero_utc x Hok Hz).
  - intros x Hok _. destruct (wholeSecondUTC_ranges x Hok)
      as (Hy & Hm & Hd & Hd' & Hh & Hi & He & Hn & Ho).
    cbn [appendStrictRFC3339 parseStrictRFC3339 gotime_TimeValue].
    unfold gotime.appendStrictRFC3339, gotime.parseStrictRFC3339.
    rewrite (appendFormatRFC3339_utc x Hok).
    rewrite appendInt_4, !appendInt_2 by lia.
    rewrite !append_cons, !append_nil_l.
    eexists. split; [reflexivity|]. split.
    + cbn [all_chars].
      rewrite !plainByte_digitChar by (Z.div_mod_to_equations; lia). reflexivity.
    + unfold gotime.parseRFC3339.
      cbn [String.length Nat.ltb Nat.leb String.substring str_drop].
      rewrite parseUint_4, !parseUint_2 by lia.
      destruct x as [y m d h i e n o]. cbn in Hn, Ho. subst n o. reflexivity.
Qed.

(** * The members of the object that [Marshal] writes *)

Lemma closes_value_comma t : closes_value (String "," t).
Proof. exists t. now left. Qed.

Lemma closes_value_brace t : closes_value (String "}" t).
Proof. exists t. now right. Qed.

(** One member, [name], a colon and the text of the value, followed
    either by the closing brace or by a comma and further members. *)
Lemma parse_member_step name text jv ms tail fuel rest :
  scan_through name -> scans_as text jv ->
  (String.length text <= fuel)%nat ->
  (ms = [] /\ tail = EmptyString) \/
  (exists t, tail = String "," t /\
             json.parse_members fuel 1 (t +:+ String "}" rest) = Some (ms, rest)) ->
  json.parse_members (S fuel) 1
    (String quoteChar (name +:+ String quoteChar EmptyString)
       +:+ ":" +:+ text +:+ tail +:+ String "}" rest)
  = Some ((name, jv) :: ms, rest).
Proof.
  intros Hname Htext Hfuel Hcont.
  rewrite append_cons, append_assoc, !append_cons, append_nil_l.
  cbn [json.parse_members].
  change (json.skipSpace (String quoteChar ?x)) with (String quoteChar x).
  cbv iota beta. change (byteZ quoteChar =? 34) with true. cbv iota.
  rewrite (Hname _), scanString_quote. cbn [option_map fst snd].
  rewrite append_nil_r.
  change (json.skipSpace (String ":" ?x)) with (String ":"%char x).
  cbv iota beta. change (byteZ ":" =? 58) with true. cbv iota.
  rewrite append_nil_l.
  destruct Hcont as [[-> ->] | (t & -> & Hparse)].
  - rewrite append_nil_l.
    rewrite (Htext fuel _ Hfuel (closes_value_brace rest)).
    reflexivity.
  - rewrite append_cons.
    rewrite (Htext fuel _ Hfuel (closes_value_comma _)).
    change (json.skipSpace (String "," ?x)) with (String ","%char x).
    cbv iota beta. change (byteZ "," =? 44) with true. cbv iota.
    now rewrite Hparse.
Qed.

Lemma encodeFields_false fs ms :
  fields_scan fs ms ->
  forall tail, encodeFields false fs = Some tail ->
  forall fuel rest, (String.length tail <= fuel)%nat ->
  (ms = [] /\ tail = EmptyString) \/
  (exists t, tail = String "," t /\
             json.parse_members fuel 1 (t +:+ String "}" rest) = Some (ms, rest)).
Proof.
  induction 1 as [|name enc fs ms Hfs IH|name text jv fs ms Hname Htext Hfs IH];
    intros tail Henc fuel rest Hfuel.
  - left. cbn in Henc. injection Henc as <-. auto.
  - cbn in Henc. now apply IH.
  - right. cbn [encodeFields] in Henc.
    destruct (encodeFields false fs) as [tail'|] eqn:Etail; [|discriminate].
    injection Henc as <-.
    eexists. split; [rewrite append_cons, append_nil_l; reflexivity|].
    rewrite !length_app_string in Hfuel. cbn [String.length] in Hfuel.
    rewrite !length_app_string in Hfuel. cbn [String.length] in Hfuel.
    destruct fuel as [|fuel]; [lia|].
    rewrite !append_assoc.
    apply parse_member_step; [exact Hname | exact Htext | lia |].
    apply (IH tail' eq_refl fuel rest). lia.
Qed.

Lemma encodeFields_true fs ms :
  fields_scan fs ms ->
  forall body, encodeFields true fs = Some body ->
  forall fuel rest, (String.length body < fuel)%nat ->
  (ms = [] /\ body = EmptyString) \/
  ((exists b, body = String quoteChar b) /\
   json.parse_members fuel 1 (body +:+ String "}" rest) = Some (ms, rest)).
Proof.
  induction 1 as [|name enc fs ms Hfs IH|name text jv fs ms Hname Htext Hfs IH];
    intros body Henc fuel rest Hfuel.
  - left. cbn in Henc. injection Henc as <-. auto.
  - cbn in Henc. now apply IH.
  - right. cbn [encodeFields] in Henc.
    destruct (encodeFields false fs) as [tail|] eqn:Etail; [|discriminate].
    injection Henc as <-. rewrite append_nil_l.
    split; [eexists; rewrite append_cons; reflexivity|].
    rewrite !length_app_string in Hfuel. cbn [String.length] in Hfuel.
    rewrite !length_app_string in Hfuel. cbn [String.length] in Hfuel.
    destruct fuel as [|fuel]; [lia|].
    rewrite !append_assoc.
    apply parse_member_step; [exact Hname | exact Htext | lia |].
    apply (encodeFields_false fs ms Hfs tail Etail fuel rest). lia.
Qed.

(** The text of an object whose fields are read back as [ms] parses to
    the object of the members [ms]. *)
Lemma parse_object fs ms body :
  fields_scan fs ms -> encodeFields true fs = Some body ->
  json.parse ("{" +:+ body +:+ "}") = Some (json.JObject ms).
Proof.
  intros Hfs Henc. unfold json.parse.
  rewrite append_cons, append_nil_l.
  change (String.length (String "{" (body +:+ "}")))
    with (S (String.length (body +:+ "}"))).
  assert (Hn : (String.length body < String.length (body +:+ "}"))%nat)
    by (rewrite length_app_string; cbn; lia).
  generalize dependent (String.length (body +:+ "}")). intros n Hn.
  cbn [json.parse_value].
  change (json.skipSpace (String "{" ?x)) with (String "{"%char x).
  cbv iota beta zeta. change (byteZ "{" =? 123) with true. cbv iota.
  change (json.maxNestingDepth <=? 0) with false. cbv iota.
  destruct (encodeFields_true fs ms Hfs body Henc (S n) EmptyString ltac:(lia))
    as [[-> ->] | [[b ->] Hparse]].
  - reflexivity.
  - rewrite append_cons.
    change (json.skipSpace (String quoteChar ?x)) with (String quoteChar x).
    cbv iota beta. change (byteZ quoteChar =? 125) with false. cbv iota.
    rewrite <- append_cons. change (0 + 1) with 1. rewrite Hparse. reflexivity.
Qed.

Lemma fields_scan_cons f m1 fs m2 :
  fields_scan [f] m1 -> fields_scan fs m2 -> fields_scan (f :: fs) (m1 ++ m2).
Proof.
  intros H1 H2. inversion H1 as [|name enc fs' ms' Hnil|name text jv fs' ms' Hn Ht Hnil]; subst.
  - inversion Hnil; subst. now apply fields_scan_omit.
  - inversion Hnil; subst. now apply fields_scan_keep.
Qed.

Lemma fields_scan_encodes fs ms :
  fields_scan fs ms -> forall first, exists body, encodeFields first fs = Some body.
Proof.
  induction 1 as [|name enc fs ms Hfs IH|name text jv fs ms Hname Htext Hfs IH];
    intros first.
  - eexists. reflexivity.
  - cbn. apply IH.
  - cbn [encodeFields]. destruct (IH false) as [tail ->]. eexists. reflexivity.
Qed.

Section RoundTrip.
Context {T Time : Type} `{JSONValue T} `{TimeValue Time}.
Context (okV : T -> Prop) (okT : Time -> Prop).
Context `{!LosslessJSON T okV} `{!LosslessTime Time okT}.

Lemma decodeMembers_app (m1 m2 : list (string * json.value)) (cur : CursorData T Time) :
decodeMembers (m1 ++ m2) cur
= match decodeMembers m1 cur with
  | Some c => decodeMembers m2 c
  | None => None
  end.
Proof.
revert cur. induction m1 as [|[k jv] m1 IH]; intros cur; [reflexivity|].
cbn [app decodeMembers]. destruct (json.unquote k) as [key|]; [|reflexivity].
destruct (json.fieldOf cursorFields key) as [f|]; [|apply IH].
destruct (decodeField f jv cur); [apply IH | reflexivity].
Qed.

Lemma scan_through_key (name : string) :
all_chars plainByte name = true -> scan_through name.
Proof. apply scan_through_plain. Qed.

(** The field [id]. *)
Lemma field_id (id : string) :
utf8.ValidString id = true ->
exists m,
  fields_scan [("id"%string, String.eqb id EmptyString, Some (json.appendString id))] m /\
  forall (v : T) (t : Time) o,
    decodeMembers m (mkCursorData EmptyString v t o) = Some (mkCursorData id v t o).
Proof.
intros Hid. destruct (String.eqb_spec id EmptyString) as [->|Hne].
- exists []. split; [apply fields_scan_omit, fields_scan_nil | reflexivity].
- exists [("id"%string, json.JString (json.appendString_loop 0 id))]. split.
  + apply fields_scan_keep;
      [now apply scan_through_key | now apply scans_as_appendString | apply fields_scan_nil].
  + intros v t o. cbn [decodeMembers].
    change (json.unquote "id") with (Some "id"%string). cbv iota beta.
    change (json.fieldOf cursorFields "id") with (Some FieldID). cbv iota beta.
    cbn [decodeField]. now rewrite (unquote_appendString id Hid).
Qed.

(** The field [v]. *)
Lemma field_v (v : T) :
okV v ->
exists m,
  fields_scan [("v"%string, isEmptyValue v, marshalValue v)] m /\
  forall id (t : Time) o,
    decodeMembers m (mkCursorData id zeroValue t o) = Some (mkCursorData id v t o).
Proof.
intros Hv. destruct (isEmptyValue v) eqn:Ev.
- exists []. split; [apply fields_scan_omit, fields_scan_nil|].
  intros id t o. cbn. now rewrite (empty_is_zero v Hv Ev).
- destruct (marshal_unmarshal v Hv Ev) as (text & jv & Hm & Hscan & Hun).
  exists [("v"%string, jv)]. split.
  + rewrite Hm. apply fields_scan_keep;
      [now apply scan_through_key | exact Hscan | apply fields_scan_nil].
  + intros id t o. cbn [decodeMembers].
    change (json.unquote "v") with (Some "v"%string). cbv iota beta.
    change (json.fieldOf cursorFields "v") with (Some FieldValue). cbv iota beta.
    cbn [decodeField Value]. now rewrite Hun.
Qed.

(** The field [ts]. *)
Lemma field_ts (t : Time) :
okT t ->
exists m,
  fields_scan [("ts"%string, IsZero t, marshalTime t)] m /\
  forall id (v : T) o,
    decodeMembers m (mkCursorData id v zeroTime o) = Some (mkCursorData id v t o).
Proof.
intros Ht. destruct (IsZero t) eqn:Ez.
- exists []. split; [apply fields_scan_omit, fields_scan_nil|].
  intros id v o. cbn. now rewrite (zero_is_zeroTime t Ht Ez).
- destruct (format_parse t Ht Ez) as (text & Hf & Hplain & Hp).
  exists [("ts"%string, json.JString text)]. split.
  + rewrite (marshalTime_plain t text Hf Hplain). apply fields_scan_keep;
      [now apply scan_through_key | now apply scans_as_plain | apply fields_scan_nil].
  + intros id v o. cbn [decodeMembers].
    change (json.unquote "ts") with (Some "ts"%string). cbv iota beta.
    change (json.fieldOf cursorFields "ts") with (Some FieldTimestamp). cbv iota beta.
    cbn [decodeField]. now rewrite Hp.
Qed.

(** The field [o]. *)
Lemma field_o (o : Z) :
in_int64 o ->
exists m,
  fields_scan [("o"%string, o =? 0, Some (strconv.FormatInt o))] m /\
  forall id (v : T) (t : Time),
    decodeMembers m (mkCursorData id v t 0) = Some (mkCursorData id v t o).
Proof.
intros Ho. destruct (Z.eqb_spec o 0) as [->|Hne].
- exists []. split; [apply fields_scan_omit, fields_scan_nil | reflexivity].
- exists [("o"%string, json.JNumber (strconv.FormatInt o))]. split.
  + apply fields_scan_keep; [now apply scan_through_key | | apply fields_scan_nil].
    apply scans_as_fuel.
    * destruct (FormatInt_head o) as (c & s & -> & _). discriminate.
    * intros fuel rest Hrest. now apply parse_value_number.
  + intros id v t. cbn [decodeMembers].
    change (json.unquote "o") with (Some "o"%string). cbv iota beta.
    change (json.fieldOf cursorFields "o") with (Some FieldOffset). cbv iota beta.
    cbn [decodeField]. now rewrite (ParseInt_FormatInt o Ho).
Qed.

Lemma fields_of_payload (d : CursorData T Time) :
representable okV okT d ->
exists ms,
  fields_scan (structFields d) ms /\
  decodeMembers ms zeroCursorData = Some d.
Proof.
intros (Hid & Hv & Ht & Ho). destruct d as [id v t o]. cbn in Hid, Hv, Ht, Ho.
destruct (field_id id Hid) as (m1 & S1 & D1).
destruct (field_v v Hv) as (m2 & S2 & D2).
destruct (field_ts t Ht) as (m3 & S3 & D3).
destruct (field_o o Ho) as (m4 & S4 & D4).
exists (m1 ++ m2 ++ m3 ++ m4). split.
- unfold structFields. cbn [ID Value Timestamp Offset].
  apply fields_scan_cons; [exact S1|].
  apply fields_scan_cons; [exact S2|].
  apply fields_scan_cons; [exact S3|].
  exact S4.
- unfold zeroCursorData.
  rewrite decodeMembers_app, D1, decodeMembers_app, D2, decodeMembers_app, D3.
  apply D4.
Qed.

(** [json.Unmarshal] reads back what [json.Marshal] wrote. *)
Lemma Unmarshal_Marshal (d : CursorData T Time) :
representable okV okT d ->
exists b, Marshal d = Some b /\ Unmarshal b = Some d.
Proof.
intros Hd. destruct (fields_of_payload d Hd) as (ms & Hscan & Hdec).
destruct (fields_scan_encodes _ _ Hscan true) as [body Hbody].
exists ("{" +:+ body +:+ "}"). split.
- unfold Marshal. now rewrite Hbody.
- unfold Unmarshal. rewrite (parse_object _ _ _ Hscan Hbody). exact Hdec.
Qed.

End RoundTrip.

(** * The cursor codec: round trip *)

Section CursorRoundTrip.
Context {T Time : Type} `{JSONValue T} `{TimeValue Time}.
Context (okV : T -> Prop) (okT : Time -> Prop).
Context `{!LosslessJSON T okV} `{!LosslessTime Time okT}.

Lemma Marshal_nonempty (p : CursorData T Time) b :
Marshal p = Some b -> b <> EmptyString.
Proof.
unfold Marshal. destruct (encodeFields true (structFields p)); [|discriminate].
intros [= <-]. rewrite append_cons. discriminate.
Qed.

(** The token of a representable payload is the padded base64url text
  of its JSON bytes, and [DecodeCursor] reads the payload back from
  it. *)
Lemma token_of_payload (p : CursorData T Time) :
representable okV okT p ->
exists b,
  Marshal p = Some b /\ b <> EmptyString /\
  EncodeCursor (Some p) = (base64.EncodeToString b, None) /\
  DecodeCursor (base64.EncodeToString b) = (Some p, None).
Proof.
intros Hp. destruct (Unmarshal_Marshal okV okT p Hp) as (b & Hm & Hu).
pose proof (Marshal_nonempty p b Hm) as Hb.
exists b. repeat split; [exact Hm | exact Hb | |].
- unfold EncodeCursor. now rewrite Hm.
- unfold DecodeCursor.
  rewrite (EncodeToString_nonempty b Hb), DecodeString_EncodeToString, Hu.
  reflexivity.
Qed.

(** C3, amended.  For every representable payload [p], [DecodeCursor]
  succeeds and returns [p] on the padded token that [EncodeCursor]
  produces.  The token with its trailing padding stripped is the same
  token when the length of the JSON bytes is a multiple of three; in
  every other case it is a different, non-empty text that
  [DecodeCursor] rejects with [ErrInvalidCursor]. *)
Theorem padded_token_accepted_stripped_token_rejected (p : CursorData T Time) :
representable okV okT p ->
exists b token,
  Marshal p = Some b /\
  EncodeCursor (Some p) = (token, None) /\
  DecodeCursor token = (Some p, None) /\
  ((String.length b mod 3 = 0)%nat -> trimPadding token = token) /\
  ((String.length b mod 3 <> 0)%nat ->
     trimPadding token <> token /\
     trimPadding token <> EmptyString /\
     DecodeCursor (T := T) (Time := Time) (trimPadding token)
     = (None, Some ErrInvalidCursor)).
Proof.
intros Hp. destruct (token_of_payload p Hp) as (b & Hm & Hb & Henc & Hdec).
destruct (trimPadding_EncodeToString b) as (Hsame & Hbad & Hne).
exists b, (base64.EncodeToString b).
split; [exact Hm|]. split; [exact Henc|]. split; [exact Hdec|].
split; [exact Hsame|]. intros Hmod. specialize (Hbad Hmod). specialize (Hne Hb).
split; [|split; [exact Hne|]].
- intros Heq. rewrite Heq, DecodeString_EncodeToString in Hbad. discriminate.
- unfold DecodeCursor. rewrite Hbad.
  destruct (String.eqb_spec (trimPadding (base64.EncodeToString b)) EmptyString);
    [contradiction | reflexivity].
Qed.

End CursorRoundTrip.

(** C1, amended.  The round-trip law on the lossless domain.  For
    every value type and time type, and every set of their values on
    which the JSON coding loses nothing, a payload whose identifier is
    valid UTF-8, whose offset is an [int] and whose value and time lie in
    those sets round-trips: [EncodeCursor] succeeds with a token and
    [DecodeCursor] at the same value type succeeds on it and returns a
    payload equal to the first in each of its four fields.  This covers
    the value types [int], [string] (of valid UTF-8) and [bool], with a
    timestamp that is a time of UTC at a whole second of the years 0 to
    9999, the zero time among them. *)
Theorem cursor_round_trip :
  (forall (T Time : Type) (HV : JSONValue T) (HT : TimeValue Time)
          (okV : T -> Prop) (okT : Time -> Prop),
     LosslessJSON T okV -> LosslessTime Time okT ->
     forall p : CursorData T Time, representable okV okT p -> round_trips p) /\
  (forall p : CursorData Z gotime.Time,
     utf8.ValidString (ID p) = true -> in_int64 (Value p) ->
     gotime.wholeSecondUTC (Timestamp p) = true -> in_int64 (Offset p) ->
     round_trips p) /\
  (forall p : CursorData string gotime.Time,
     utf8.ValidString (ID p) = true -> utf8.ValidString (Value p) = true ->
     gotime.wholeSecondUTC (Timestamp p) = true -> in_int64 (Offset p) ->
     round_trips p) /\
  (forall p : CursorData bool gotime.Time,
     utf8.ValidString (ID p) = true ->
     gotime.wholeSecondUTC (Timestamp p) = true -> in_int64 (Offset p) ->
     round_trips p).
Proof.
  assert (Hlaw : forall (T Time : Type) (HV : JSONValue T) (HT : TimeValue Time)
                        (okV : T -> Prop) (okT : Time -> Prop),
             LosslessJSON T okV -> LosslessTime Time okT ->
             forall p : CursorData T Time, representable okV okT p -> round_trips p).
  { intros T Time HV HT okV okT LV LT p Hp.
    destruct (token_of_payload okV okT p Hp) as (b & _ & _ & Henc & Hdec).
    exists (base64.EncodeToString b). split; [exact Henc|].
    exists p. now repeat split. }
  split; [exact Hlaw|]. split; [|split].
  - intros p Hid Hv Ht Ho.
    apply (Hlaw Z gotime.Time _ _ in_int64 (fun x => gotime.wholeSecondUTC x = true) _ _).
    exact (conj Hid (conj Hv (conj Ht Ho))).
  - intros p Hid Hv Ht Ho.
    apply (Hlaw string gotime.Time _ _ (fun s => utf8.ValidString s = true)
             (fun x => gotime.wholeSecondUTC x = true) _ _).
    exact (conj Hid (conj Hv (conj Ht Ho))).
  - intros p Hid Ht Ho.
    apply (Hlaw bool gotime.Time _ _ (fun _ => True)
             (fun x => gotime.wholeSecondUTC x = true) _ _).
    exact (conj Hid (conj I (conj Ht Ho))).
Qed.

Lemma cursor_round_trip_witness :
  utf8.ValidString (ID sample_payload) = true /\ in_int64 (Value sample_payload) /\
  gotime.wholeSecondUTC (Timestamp sample_payload) = true /\
  in_int64 (Offset sample_payload) /\
  round_trips sample_payload.
Proof.
  split; [reflexivity|]. split; [unfold in_int64, MinInt64, MaxInt64; simpl; lia|].
  split; [reflexivity|]. split; [unfold in_int64, MinInt64, MaxInt64; simpl; lia|].
  apply (proj1 (proj2 cursor_round_trip) sample_payload);
    [reflexivity
    | unfold in_int64, MinInt64, MaxInt64; simpl; lia
    | reflexivity
    | unfold in_int64, MinInt64, MaxInt64; simpl; lia].
Defined.

(** C1 as the claim words it fails.  The payload whose identifier is
    the byte [0xff] has only fields that JSON takes: [EncodeCursor]
    succeeds on it.  [DecodeCursor] succeeds on the token as well, but the
    identifier it returns is the replacement character [U+FFFD], which
    the encoder wrote in place of the byte: the payload does not
    round-trip. *)
Lemma cursor_round_trip_invalid_utf8_counterexample :
  EncodeCursor (Some bad_utf8_payload) = ("eyJpZCI6Ilx1ZmZmZCJ9"%string, None) /\
  DecodeCursor (T := Z) (Time := gotime.Time) "eyJpZCI6Ilx1ZmZmZCJ9"
  = (Some (mkCursorData (utf8.EncodeRune utf8.RuneError) 0 gotime.zero 0), None) /\
  ID (mkCursorData (T := Z) (Time := gotime.Time) (utf8.EncodeRune utf8.RuneError)
        0 gotime.zero 0)
  <> ID bad_utf8_payload /\
  ~ round_trips bad_utf8_payload.
Proof.
  assert (Henc : EncodeCursor (Some bad_utf8_payload)
                 = ("eyJpZCI6Ilx1ZmZmZCJ9"%string, None)) by (vm_compute; reflexivity).
  assert (Hdec : DecodeCursor (T := Z) (Time := gotime.Time) "eyJpZCI6Ilx1ZmZmZCJ9"
                 = (Some (mkCursorData (utf8.EncodeRune utf8.RuneError) 0 gotime.zero 0),
                    None)) by (vm_compute; reflexivity).
  split; [exact Henc|]. split; [exact Hdec|]. split; [vm_compute; discriminate|].
  intros (token & He & q & Hd & Hid & _).
  rewrite Henc in He. injection He as <-. rewrite Hdec in Hd. injection Hd as <-.
  revert Hid. vm_compute. discriminate.
Qed.

Lemma padded_token_accepted_stripped_token_rejected_witness :
  representable in_int64 (fun x => gotime.wholeSecondUTC x = true) id_payload /\
  exists b token,
    Marshal id_payload = Some b /\
    EncodeCursor (Some id_payload) = (token, None) /\
    DecodeCursor token = (Some id_payload, None) /\
    ((String.length b mod 3 = 0)%nat -> trimPadding token = token) /\
    ((String.length b mod 3 <> 0)%nat ->
       trimPadding token <> token /\
       trimPadding token <> EmptyString /\
       DecodeCursor (T := Z) (Time := gotime.Time) (trimPadding token)
       = (None, Some ErrInvalidCursor)).
Proof.
  assert (Hrep : representable in_int64 (fun x => gotime.wholeSecondUTC x = true) id_payload).
  { unfold representable, in_int64, MinInt64, MaxInt64. cbn.
    repeat split; try reflexivity; lia. }
  split; [exact Hrep|].
  exact (padded_token_accepted_stripped_token_rejected
           in_int64 (fun x => gotime.wholeSecondUTC x = true) id_payload Hrep).
Defined.

(** C3 as the claim words it fails: the payload with the identifier [1]
    is representable, its token ends in two padding bytes, and
    [DecodeCursor] rejects the token without them. *)
Lemma stripped_token_rejected_counterexample :
  representable in_int64 (fun x => gotime.wholeSecondUTC x = true) id_payload /\
  EncodeCursor (Some id_payload) = ("eyJpZCI6IjEifQ=="%string, None) /\
  DecodeCursor (T := Z) (Time := gotime.Time) "eyJpZCI6IjEifQ=="
  = (Some id_payload, None) /\
  trimPadding "eyJpZCI6IjEifQ==" = "eyJpZCI6IjEifQ"%string /\
  DecodeCursor (T := Z) (Time := gotime.Time) "eyJpZCI6IjEifQ"
  = (None, Some ErrInvalidCursor).
Proof.
  split.
  - unfold representable, in_int64, MinInt64, MaxInt64. cbn.
    repeat split; try reflexivity; lia.
  - repeat split; vm_compute; reflexivity.
Qed.

(** * The offset paginator: pages and totals *)

(** Case analysis on the integer tests of a goal. *)
Ltac split_tests :=
  rewrite ?Z.gtb_ltb, ?Z.geb_leb;
  repeat match goal with
         | |- context [?a <? ?b] => destruct (Z.ltb_spec a b)
         | |- context [?a <=? ?b] => destruct (Z.leb_spec a b)
         | |- context [?a =? ?b] => destruct (Z.eqb_spec a b)
         end;
  cbn [andb orb negb].

Lemma load_bind {V A} (l : loc) (k : V -> M V A) (h : gmap loc V) v :
  h !! l = Some v -> (load l ≫= k) h = k v h.
Proof. intros Hl. apply bind_Some, load_eq, Hl. Qed.

(** What [TotalPages] returns: zero when there is nothing to count, else
    the least number of pages that hold [total] items. *)
Lemma TotalPages_run h p v total :
  h !! p = Some v -> in_int64 total ->
  exists tp,
    Paginator.TotalPages p total h = Some (tp, h) /\
    (total <= 0 \/ Paginator.PageSize v <= 0 -> tp = 0) /\
    (0 < total -> 0 < Paginator.PageSize v ->
     (tp - 1) * Paginator.PageSize v < total <= tp * Paginator.PageSize v).
Proof.
  intros Hp Htotal. unfold Paginator.TotalPages. rewrite (load_bind _ _ _ _ Hp).
  set (ps := Paginator.PageSize v) in *.
  destruct (Z.leb_spec total 0) as [H1|H1]; cbn [orb].
  { exists 0. split; [reflexivity|]. split; [reflexivity | lia]. }
  destruct (Z.leb_spec ps 0) as [H2|H2]; cbn [orb].
  { exists 0. split; [reflexivity|]. split; [reflexivity | lia]. }
  assert (Hq : Z.quot total ps = total / ps) by (apply Z.quot_div_nonneg; lia).
  assert (Hr : Z.rem total ps = total mod ps) by (apply Z.rem_mod_nonneg; lia).
  rewrite Hq, Hr.
  pose proof (Z.div_mod total ps ltac:(lia)) as Hdm.
  pose proof (Z.mod_pos_bound total ps ltac:(lia)) as Hmod.
  assert (Hge : 0 <= total / ps) by (apply Z.div_pos; lia).
  unfold in_int64, MinInt64, MaxInt64 in Htotal.
  rewrite (Z.gtb_ltb (total mod ps)).
  destruct (Z.ltb_spec 0 (total mod ps)) as [H3|H3].
  - assert (Hps : 2 <= ps).
    { destruct (Z.eq_dec ps 1) as [E|E]; [|lia]. rewrite E, Z.mod_1_r in H3. lia. }
    assert (Hle : total / ps + 1 <= 2 ^ 63 - 1) by nia.
    rewrite wrap64_id by (unfold in_int64, MinInt64, MaxInt64; lia).
    unfold MaxInt64. rewrite Z.gtb_ltb.
    destruct (Z.ltb_spec (2 ^ 63 - 1) (total / ps + 1)); [lia|].
    exists (total / ps + 1). split; [reflexivity|]. split; [lia | nia].
  - assert (Hle : total / ps <= 2 ^ 63 - 1) by nia.
    unfold MaxInt64. rewrite Z.gtb_ltb.
    destruct (Z.ltb_spec (2 ^ 63 - 1) (total / ps)); [lia|].
    exists (total / ps). split; [reflexivity|]. split; [lia | nia].
Qed.

(** [TotalPages(total)] leaves the store as it is.  It is 0 when [total]
    is not positive or the page size is not positive; otherwise it is the
    least number of pages of that size that hold [total] items. *)
Theorem total_pages_is_ceiling
    (h : gmap loc Paginator.t) (p : loc) (v : Paginator.t) (total : Z) :
  h !! p = Some v -> in_int64 total ->
  exists tp,
    Paginator.TotalPages p total h = Some (tp, h) /\
    (total <= 0 \/ Paginator.PageSize v <= 0 -> tp = 0) /\
    (0 < total -> 0 < Paginator.PageSize v ->
     1 <= tp /\
     (tp - 1) * Paginator.PageSize v < total <= tp * Paginator.PageSize v).
Proof.
  intros Hp Htotal. destruct (TotalPages_run h p v total Hp Htotal) as (tp & E & H0 & H1).
  exists tp. split; [exact E|]. split; [exact H0|].
  intros Ht Hps. specialize (H1 Ht Hps). split; [nia | exact H1].
Qed.

Lemma total_pages_is_ceiling_witness :
  exists tp,
    Paginator.TotalPages 1%positive 101 {[ 1%positive := Paginator.mk 3 20 ]}
    = Some (tp, {[ 1%positive := Paginator.mk 3 20 ]}) /\
    (0 < 101 -> 0 < 20 -> 1 <= tp /\ (tp - 1) * 20 < 101 <= tp * 20).
Proof.
  destruct (total_pages_is_ceiling
              {[ 1%positive := Paginator.mk 3 20 ]} 1%positive (Paginator.mk 3 20) 101)
    as (tp & E & _ & H); [reflexivity | unfold in_int64, MinInt64, MaxInt64; lia |].
  exists tp. split; [exact E | exact H].
Defined.

Lemma page_below_total page tp ps total :
  0 < ps -> (tp - 1) * ps < total <= tp * ps ->
  (page < tp <-> page * ps < total).
Proof.
  intros Hps Htp. split; intros H.
  - assert (page * ps <= (tp - 1) * ps) by (apply Z.mul_le_mono_nonneg_r; lia). lia.
  - destruct (Z.lt_ge_cases page tp) as [Hlt|Hge]; [exact Hlt|].
    assert (tp * ps <= page * ps) by (apply Z.mul_le_mono_nonneg_r; lia). lia.
Qed.

Lemma HasNext_run h p v total :
  h !! p = Some v -> in_int64 total ->
  1 <= Paginator.Page v -> 0 < Paginator.PageSize v ->
  Paginator.HasNext p total h
  = Some (Paginator.Page v * Paginator.PageSize v <? total, h).
Proof.
  intros Hp Htotal Hpage Hps. unfold Paginator.HasNext.
  rewrite (load_bind _ _ _ _ Hp).
  destruct (TotalPages_run h p v total Hp Htotal) as (tp & E & H0 & H1).
  rewrite (bind_Some _ _ _ _ _ E). unfold mret, M_ret, ret. f_equal. f_equal.
  destruct (Z.lt_ge_cases 0 total) as [Ht|Ht].
  - specialize (H1 Ht Hps).
    pose proof (page_below_total (Paginator.Page v) tp _ total Hps H1).
    split_tests; try reflexivity; lia.
  - rewrite H0 by lia.
    assert (0 < Paginator.Page v * Paginator.PageSize v) by (apply Z.mul_pos_pos; lia).
    split_tests; try reflexivity; lia.
Qed.

(** [HasNext(total)] on a paginator with a page of at least 1 and a
    positive page size is true exactly when items lie beyond the page,
    that is when [Page * PageSize < total]. *)
Theorem has_next_iff_items_beyond_page
    (h : gmap loc Paginator.t) (p : loc) (v : Paginator.t) (total : Z) :
  h !! p = Some v -> in_int64 total ->
  1 <= Paginator.Page v -> 0 < Paginator.PageSize v ->
  exists b,
    Paginator.HasNext p total h = Some (b, h) /\
    (b = true <-> Paginator.Page v * Paginator.PageSize v < total).
Proof.
  intros Hp Htotal Hpage Hps.
  exists (Paginator.Page v * Paginator.PageSize v <? total).
  split; [apply HasNext_run; assumption | apply Z.ltb_lt].
Qed.

Lemma has_next_iff_items_beyond_page_witness :
  exists b,
    Paginator.HasNext 1%positive 100 {[ 1%positive := Paginator.mk 5 20 ]}
    = Some (b, {[ 1%positive := Paginator.mk 5 20 ]}) /\
    (b = true <-> 5 * 20 < 100).
Proof.
  apply (has_next_iff_items_beyond_page
           {[ 1%positive := Paginator.mk 5 20 ]} 1%positive (Paginator.mk 5 20) 100);
    [reflexivity | unfold in_int64, MinInt64, MaxInt64; lia
    | simpl Paginator.Page; lia | simpl Paginator.PageSize; lia].
Defined.

Lemma IsLastPage_run h p v total :
  h !! p = Some v -> in_int64 total ->
  1 <= Paginator.Page v -> 0 < Paginator.PageSize v ->
  Paginator.IsLastPage p total h
  = Some ((0 <? total) && (total <=? Paginator.Page v * Paginator.PageSize v), h).
Proof.
  intros Hp Htotal Hpage Hps. unfold Paginator.IsLastPage.
  destruct (TotalPages_run h p v total Hp Htotal) as (tp & E & H0 & H1).
  rewrite (bind_Some _ _ _ _ _ E), (load_bind _ _ _ _ Hp).
  unfold mret, M_ret, ret. f_equal. f_equal.
  destruct (Z.lt_ge_cases 0 total) as [Ht|Ht].
  - specialize (H1 Ht Hps).
    pose proof (page_below_total (Paginator.Page v) tp _ total Hps H1).
    assert (0 < tp) by nia.
    split_tests; try reflexivity; lia.
  - rewrite H0 by lia.
    assert (0 < Paginator.Page v * Paginator.PageSize v) by (apply Z.mul_pos_pos; lia).
    split_tests; try reflexivity; lia.
Qed.

(** On a paginator with a page of at least 1 and a positive page size:
    when [total] is positive, [IsLastPage(total)] is the negation of
    [HasNext(total)]; when [total] is not positive, both are false. *)
Theorem is_last_page_complements_has_next
    (h : gmap loc Paginator.t) (p : loc) (v : Paginator.t) (total : Z) :
  h !! p = Some v -> in_int64 total ->
  1 <= Paginator.Page v -> 0 < Paginator.PageSize v ->
  exists last next,
    Paginator.IsLastPage p total h = Some (last, h) /\
    Paginator.HasNext p total h = Some (next, h) /\
    (0 < total -> last = negb next) /\
    (total <= 0 -> last = false /\ next = false).
Proof.
  intros Hp Htotal Hpage Hps. eexists _, _.
  split; [apply (IsLastPage_run h p v total); assumption|].
  split; [apply (HasNext_run h p v total); assumption|].
  split; intros Ht; split_tests; try lia; auto.
Qed.

Lemma is_last_page_complements_has_next_witness :
  exists last next,
    Paginator.IsLastPage 1%positive 100 {[ 1%positive := Paginator.mk 5 20 ]}
    = Some (last, {[ 1%positive := Paginator.mk 5 20 ]}) /\
    Paginator.HasNext 1%positive 100 {[ 1%positive := Paginator.mk 5 20 ]}
    = Some (next, {[ 1%positive := Paginator.mk 5 20 ]}) /\
    (0 < 100 -> last = negb next) /\
    (100 <= 0 -> last = false /\ next = false).
Proof.
  apply (is_last_page_complements_has_next
           {[ 1%positive := Paginator.mk 5 20 ]} 1%positive (Paginator.mk 5 20) 100);
    [reflexivity | unfold in_int64, MinInt64, MaxInt64; lia
    | simpl Paginator.Page; lia | simpl Paginator.PageSize; lia].
Defined.

(** * The offset paginator: clamping and stepping *)

Lemma TotalPages_nonneg h p v total tp :
  h !! p = Some v -> in_int64 total ->
  Paginator.TotalPages p total h = Some (tp, h) -> 0 <= tp.
Proof.
  intros Hp Htotal E. destruct (TotalPages_run h p v total Hp Htotal) as (tp' & E' & H0 & H1).
  rewrite E in E'. injection E' as <-.
  destruct (Z.lt_ge_cases 0 total) as [Ht|Ht]; [|rewrite H0; lia].
  destruct (Z.lt_ge_cases 0 (Paginator.PageSize v)) as [Hs|Hs]; [|rewrite H0; lia].
  specialize (H1 Ht Hs). nia.
Qed.

Lemma Clamp_run h p v total tp :
  h !! p = Some v -> in_int64 total ->
  Paginator.TotalPages p total h = Some (tp, h) ->
  Paginator.Clamp p total h
  = if (if tp =? 0 then 1 else tp) <? Paginator.Page v
    then Some (fresh (dom h),
               <[fresh (dom h) := Paginator.mk (if tp =? 0 then 1 else tp)
                                               (Paginator.PageSize v)]> h)
    else Some (p, h).
Proof.
  intros Hp Htotal E. pose proof (TotalPages_nonneg h p v total tp Hp Htotal E) as Htp.
  unfold Paginator.Clamp. rewrite (bind_Some _ _ _ _ _ E), (load_bind _ _ _ _ Hp).
  rewrite Z.gtb_ltb.
  destruct ((if tp =? 0 then 1 else tp) <? Paginator.Page v); [|reflexivity].
  rewrite (PaginatorFacts.WithPage_eq h p v _ Hp).
  destruct (Z.eqb_spec tp 0) as [->|Hne]; [reflexivity|].
  destruct (Z.ltb_spec tp 1); [lia | reflexivity].
Qed.

(** [Clamp(total)] returns the receiver itself, and writes nothing, when
    the page is at most the greater of 1 and [TotalPages(total)];
    otherwise it returns an object that the store did not hold, at that
    last page and with the page size of the receiver, and the receiver
    holds the same value afterwards. *)
Theorem clamp_returns_receiver_or_fresh_copy
    (h : gmap loc Paginator.t) (p : loc) (v : Paginator.t) (total : Z) :
  h !! p = Some v -> in_int64 total ->
  exists tp q h',
    Paginator.TotalPages p total h = Some (tp, h) /\
    Paginator.Clamp p total h = Some (q, h') /\
    (Paginator.Page v <= Z.max 1 tp -> q = p /\ h' = h) /\
    (Z.max 1 tp < Paginator.Page v ->
     q <> p /\ h !! q = None /\ h' !! p = Some v /\
     h' !! q = Some (Paginator.mk (Z.max 1 tp) (Paginator.PageSize v))).
Proof.
  intros Hp Htotal. destruct (TotalPages_run h p v total Hp Htotal) as (tp & E & _).
  pose proof (TotalPages_nonneg h p v total tp Hp Htotal E) as Htp.
  assert (Hmax : (if tp =? 0 then 1 else tp) = Z.max 1 tp)
    by (destruct (Z.eqb_spec tp 0); lia).
  pose proof (Clamp_run h p v total tp Hp Htotal E) as Hc. rewrite Hmax in Hc.
  exists tp. destruct (Z.ltb_spec (Z.max 1 tp) (Paginator.Page v)) as [Hlt|Hge].
  - exists (fresh (dom h)), (<[fresh (dom h) := Paginator.mk (Z.max 1 tp) (Paginator.PageSize v)]> h).
    split; [exact E|]. split; [exact Hc|]. split; [lia|]. intros _.
    pose proof (fresh_lookup_None h) as Hfresh.
    assert (Hne : fresh (dom h) <> p) by congruence.
    split; [exact Hne|]. split; [exact Hfresh|].
    split; [rewrite lookup_insert_ne by exact Hne; exact Hp | apply lookup_insert_eq].
  - exists p, h. split; [exact E|]. split; [exact Hc|]. split; [auto | lia].
Qed.

Lemma clamp_returns_receiver_or_fresh_copy_witness :
  exists tp q h',
    Paginator.TotalPages 1%positive 100 {[ 1%positive := Paginator.mk 9 20 ]}
    = Some (tp, {[ 1%positive := Paginator.mk 9 20 ]}) /\
    Paginator.Clamp 1%positive 100 {[ 1%positive := Paginator.mk 9 20 ]} = Some (q, h') /\
    (9 <= Z.max 1 tp -> q = 1%positive /\ h' = {[ 1%positive := Paginator.mk 9 20 ]}) /\
    (Z.max 1 tp < 9 ->
     q <> 1%positive /\
     ({[ 1%positive := Paginator.mk 9 20 ]} : gmap loc Paginator.t) !! q = None /\
     h' !! 1%positive = Some (Paginator.mk 9 20) /\
     h' !! q = Some (Paginator.mk (Z.max 1 tp) 20)).
Proof.
  apply (clamp_returns_receiver_or_fresh_copy
           {[ 1%positive := Paginator.mk 9 20 ]} 1%positive (Paginator.mk 9 20) 100);
    [reflexivity | unfold in_int64, MinInt64, MaxInt64; lia].
Defined.

Lemma Offset_exact h p v :
  h !! p = Some v -> 1 <= Paginator.Page v ->
  0 <= (Paginator.Page v - 1) * Paginator.PageSize v <= MaxInt64 ->
  0 < Paginator.PageSize v ->
  Paginator.Offset p h = Some ((Paginator.Page v - 1) * Paginator.PageSize v, h).
Proof.
  intros Hp Hpage Hprod Hps. rewrite (Offset_eq h p v Hp).
  assert (Hle : Paginator.Page v - 1 <= MaxInt64).
  { unfold MaxInt64 in *. nia. }
  rewrite (wrap64_id (Paginator.Page v - 1))
    by (unfold in_int64, MinInt64, MaxInt64 in *; lia).
  rewrite wrap64_id by (unfold in_int64, MinInt64, MaxInt64 in *; lia).
  reflexivity.
Qed.

(** Clamping a valid paginator against a positive [total] gives a valid
    paginator whose page is not empty: [IsEmpty(total)] is false on the
    result. *)
Theorem clamped_page_is_not_empty
    (h : gmap loc Paginator.t) (p : loc) (v : Paginator.t) (total : Z) :
  h !! p = Some v -> valid v -> in_int64 total -> 0 < total ->
  exists q h' v',
    Paginator.Clamp p total h = Some (q, h') /\
    h' !! q = Some v' /\ valid v' /\
    Paginator.IsEmpty q total h' = Some (false, h').
Proof.
  intros Hp (Hpage & Hps1 & Hps2) Htotal Hpos. unfold MinPageSize, MaxPageSize in *.
  destruct (TotalPages_run h p v total Hp Htotal) as (tp & E & _ & H1).
  specialize (H1 Hpos ltac:(lia)).
  assert (Htp : 1 <= tp) by nia.
  rewrite (Clamp_run h p v total tp Hp Htotal E).
  destruct (Z.eqb_spec tp 0) as [?|_]; [lia|].
  assert (Hempty : forall h' q page,
            h' !! q = Some (Paginator.mk page (Paginator.PageSize v)) ->
            1 <= page <= tp ->
            Paginator.IsEmpty q total h' = Some (false, h')).
  { intros h' q page Hq Hrange. unfold Paginator.IsEmpty.
    assert (Hle : (page - 1) * Paginator.PageSize v <= (tp - 1) * Paginator.PageSize v)
      by (apply Z.mul_le_mono_nonneg_r; lia).
    assert (Hge : 0 <= (page - 1) * Paginator.PageSize v) by (apply Z.mul_nonneg_nonneg; lia).
    erewrite bind_Some; cycle 1.
    { apply (Offset_exact h' q _ Hq); cbn; try lia.
      unfold in_int64, MinInt64, MaxInt64 in *. lia. }
    unfold mret, M_ret, ret. cbn. rewrite Z.geb_leb.
    destruct (Z.leb_spec total ((page - 1) * Paginator.PageSize v)); [lia | reflexivity]. }
  destruct (Z.ltb_spec tp (Paginator.Page v)) as [Hlt|Hge].
  - eexists _, _, _. split; [reflexivity|]. split; [apply lookup_insert_eq|].
    split; [unfold valid, MinPageSize, MaxPageSize; cbn; lia|].
    apply (Hempty _ _ tp); [apply lookup_insert_eq | lia].
  - exists p, h, v. split; [reflexivity|]. split; [exact Hp|].
    split; [unfold valid, MinPageSize, MaxPageSize; lia|].
    apply (Hempty _ _ (Paginator.Page v)); [destruct v; exact Hp | lia].
Qed.

Lemma clamped_page_is_not_empty_witness :
  exists q h' v',
    Paginator.Clamp 1%positive 100 {[ 1%positive := Paginator.mk 9 20 ]} = Some (q, h') /\
    h' !! q = Some v' /\ valid v' /\
    Paginator.IsEmpty q 100 h' = Some (false, h').
Proof.
  apply (clamped_page_is_not_empty
           {[ 1%positive := Paginator.mk 9 20 ]} 1%positive (Paginator.mk 9 20) 100);
    [reflexivity
    | unfold valid, MinPageSize, MaxPageSize; simpl Paginator.Page;
      simpl Paginator.PageSize; lia
    | unfold in_int64, MinInt64, MaxInt64; lia
    | lia].
Defined.

Lemma NextPage_WithPage h p v :
  h !! p = Some v -> 1 <= Paginator.Page v < MaxInt64 ->
  forall A (k : loc -> M Paginator.t A),
    (n ← Paginator.NextPage p; q ← Paginator.WithPage p n; k q) h
    = k (fresh (dom h))
        (<[fresh (dom h) := Paginator.mk (Paginator.Page v + 1) (Paginator.PageSize v)]> h).
Proof.
  intros Hp Hpage A k. unfold Paginator.NextPage.
  erewrite bind_Some; cycle 1.
  { rewrite (load_bind _ _ _ _ Hp). reflexivity. }
  rewrite wrap64_id by (unfold in_int64, MinInt64, MaxInt64 in *; lia).
  rewrite (bind_Some _ _ _ _ _ (PaginatorFacts.WithPage_eq h p v _ Hp)).
  destruct (Z.ltb_spec (Paginator.Page v + 1) 1); [lia | reflexivity].
Qed.

(** The pages tile the items.  On a valid paginator whose page ends
    within [int64], [Items()] is the pair of [(Page - 1) * PageSize] and
    [Page * PageSize], and the offset of the next page, reached by
    [WithPage(NextPage())], is the end of this one. *)
Theorem pages_tile_the_items
    (h : gmap loc Paginator.t) (p : loc) (v : Paginator.t) :
  h !! p = Some v -> valid v ->
  Paginator.Page v < MaxInt64 ->
  Paginator.Page v * Paginator.PageSize v <= MaxInt64 ->
  Paginator.Items p h
  = Some (((Paginator.Page v - 1) * Paginator.PageSize v,
           Paginator.Page v * Paginator.PageSize v), h) /\
  exists h',
    (n ← Paginator.NextPage p; q ← Paginator.WithPage p n; Paginator.Offset q) h
    = Some (Paginator.Page v * Paginator.PageSize v, h').
Proof.
  intros Hp (Hpage & Hps1 & Hps2) Hmax Hend. unfold MinPageSize, MaxPageSize in *.
  assert (Hge : 0 <= (Paginator.Page v - 1) * Paginator.PageSize v)
    by (apply Z.mul_nonneg_nonneg; lia).
  split.
  - unfold Paginator.Items.
    rewrite (bind_Some _ _ _ _ _ (Offset_exact h p v Hp Hpage ltac:(lia) ltac:(lia))).
    rewrite (load_bind _ _ _ _ Hp). unfold mret, M_ret, ret. do 3 f_equal.
    rewrite wrap64_id by (unfold in_int64, MinInt64, MaxInt64 in *; lia). lia.
  - eexists. rewrite (NextPage_WithPage h p v Hp ltac:(lia)).
    rewrite (Offset_exact _ _ _ (lookup_insert_eq _ _ _)); cbn.
    + f_equal. f_equal. lia.
    + lia.
    + replace (Paginator.Page v + 1 - 1) with (Paginator.Page v) by lia.
      split; [apply Z.mul_nonneg_nonneg; lia | exact Hend].
    + lia.
Qed.

Lemma pages_tile_the_items_witness :
  Paginator.Items 1%positive {[ 1%positive := Paginator.mk 3 20 ]}
  = Some (((3 - 1) * 20, 3 * 20), {[ 1%positive := Paginator.mk 3 20 ]}) /\
  exists h',
    (n ← Paginator.NextPage 1%positive; q ← Paginator.WithPage 1%positive n;
     Paginator.Offset q) {[ 1%positive := Paginator.mk 3 20 ]}
    = Some (3 * 20, h').
Proof.
  apply (pages_tile_the_items
           {[ 1%positive := Paginator.mk 3 20 ]} 1%positive (Paginator.mk 3 20));
    [reflexivity
    | unfold valid, MinPageSize, MaxPageSize; simpl Paginator.Page;
      simpl Paginator.PageSize; lia
    | unfold MaxInt64; simpl Paginator.Page; lia
    | unfold MaxInt64; simpl Paginator.Page; simpl Paginator.PageSize; lia].
Defined.

(** [PreviousPage()] is never below 1, whatever the page of the
    receiver; and on a valid paginator below the greatest page it undoes
    [NextPage()]: the previous page of [WithPage(NextPage())] is the page
    of the receiver. *)
Theorem previous_page_undoes_next_page
    (h : gmap loc Paginator.t) (p : loc) (v : Paginator.t) :
  h !! p = Some v -> in_int64 (Paginator.Page v) ->
  (exists n, Paginator.PreviousPage p h = Some (n, h) /\ 1 <= n) /\
  (1 <= Paginator.Page v < MaxInt64 ->
   exists h',
     (n ← Paginator.NextPage p; q ← Paginator.WithPage p n; Paginator.PreviousPage q) h
     = Some (Paginator.Page v, h')).
Proof.
  intros Hp Hin. split.
  - unfold Paginator.PreviousPage. rewrite (load_bind _ _ _ _ Hp).
    eexists. split; [reflexivity|].
    destruct (Z.leb_spec (Paginator.Page v) 1); [lia|].
    rewrite wrap64_id by (unfold in_int64, MinInt64, MaxInt64 in *; lia). lia.
  - intros Hpage. eexists. rewrite (NextPage_WithPage h p v Hp Hpage).
    unfold Paginator.PreviousPage. rewrite (load_bind _ _ _ _ (lookup_insert_eq _ _ _)).
    cbn. destruct (Z.leb_spec (Paginator.Page v + 1) 1); [lia|].
    rewrite wrap64_id by (unfold in_int64, MinInt64, MaxInt64 in *; lia).
    unfold mret, M_ret, ret. do 2 f_equal. lia.
Qed.

Lemma previous_page_undoes_next_page_witness :
  (exists n, Paginator.PreviousPage 1%positive {[ 1%positive := Paginator.mk 3 20 ]}
             = Some (n, {[ 1%positive := Paginator.mk 3 20 ]}) /\ 1 <= n) /\
  (1 <= 3 < MaxInt64 ->
   exists h',
     (n ← Paginator.NextPage 1%positive; q ← Paginator.WithPage 1%positive n;
      Paginator.PreviousPage q) {[ 1%positive := Paginator.mk 3 20 ]}
     = Some (3, h')).
Proof.
  apply (previous_page_undoes_next_page
           {[ 1%positive := Paginator.mk 3 20 ]} 1%positive (Paginator.mk 3 20));
    [reflexivity | unfold in_int64, MinInt64, MaxInt64; simpl Paginator.Page; lia].
Defined.

(** * Ranges: headers, sizes and conversions *)

Lemma FormatInt_nonneg z :
  0 <= z ->
  strconv.FormatInt z <> EmptyString /\
  all_chars strconv.isDigit (strconv.FormatInt z) = true /\
  decimal (strconv.FormatInt z) = z.
Proof.
  intros Hz. unfold strconv.FormatInt. destruct (Z.ltb_spec z 0); [lia|].
  destruct (FormatUint_digits z Hz) as (c & ds & -> & Hall & Hval & _).
  split; [discriminate|]. split; [exact Hall | exact Hval].
Qed.

(** [ParseRangeHeader] reads back the header that [Header()] writes: for
    a range that [Validate] accepts, with a unit of one or more word
    bytes, parsing the header gives the same range and no error. *)
Theorem header_parses_back (r : Range.t) :
  Range.Validate r = None ->
  in_int64 (Range.Start r) -> in_int64 (Range.End r) ->
  Range.Unit r <> EmptyString -> all_chars isWordChar (Range.Unit r) = true ->
  Range.ParseRangeHeader (Range.Header r) = (Some r, None).
Proof.
  intros Hv Hs He Hu Hw. destruct r as [start end_ unit]. cbn in *.
  unfold Range.Validate in Hv. cbn in Hv.
  destruct (Z.ltb_spec start 0) as [|Hs0]; [discriminate|].
  destruct (Z.ltb_spec end_ start) as [|Hes]; [discriminate|].
  destruct (FormatInt_nonneg start Hs0) as (Hn1 & Hd1 & Hv1).
  destruct (FormatInt_nonneg end_ ltac:(lia)) as (Hn2 & Hd2 & Hv2).
  unfold Range.Header. cbn [Range.Unit Range.Start Range.End].
  rewrite (ParseRangeHeader_grammar _ unit (strconv.FormatInt start) (strconv.FormatInt end_)).
  - rewrite Hv1, Hv2. unfold in_int64, MinInt64, MaxInt64 in *.
    destruct (Z.ltb_spec start (2 ^ 63)); [|lia].
    destruct (String.eqb_spec (strconv.FormatInt end_) EmptyString); [contradiction|].
    destruct (Z.ltb_spec end_ (2 ^ 63)); [|lia].
    unfold Range.Validate. cbn.
    destruct (Z.ltb_spec start 0); [lia|]. destruct (Z.ltb_spec end_ start); [lia|].
    reflexivity.
  - unfold range_grammar. repeat split; assumption.
Qed.

Lemma header_parses_back_witness :
  Range.ParseRangeHeader (Range.Header (Range.NewRange 0 24))
  = (Some (Range.NewRange 0 24), None).
Proof.
  apply (header_parses_back (Range.NewRange 0 24));
    [reflexivity
    | unfold in_int64, MinInt64, MaxInt64; simpl Range.Start; lia
    | unfold in_int64, MinInt64, MaxInt64; simpl Range.End; lia
    | discriminate
    | reflexivity].
Defined.

(** The size of a range that [Validate] accepts is [End - Start + 1],
    at least 1, with one exception: the range from 0 to the greatest
    [int64] has a size beyond [int64], and [Size()] returns the least
    [int64] for it. *)
Theorem size_of_valid_range (r : Range.t) :
  Range.Validate r = None ->
  in_int64 (Range.Start r) -> in_int64 (Range.End r) ->
  (Range.Start r = 0 /\ Range.End r = MaxInt64 -> Range.Size r = MinInt64) /\
  (~ (Range.Start r = 0 /\ Range.End r = MaxInt64) ->
   Range.Size r = Range.End r - Range.Start r + 1 /\ 1 <= Range.Size r).
Proof.
  intros Hv Hs He. unfold Range.Validate in Hv. unfold Range.Size.
  destruct (Z.ltb_spec (Range.Start r) 0) as [|Hs0]; [discriminate|].
  destruct (Z.ltb_spec (Range.End r) (Range.Start r)) as [|Hes]; [discriminate|].
  unfold in_int64, MinInt64, MaxInt64 in *.
  rewrite (wrap64_id (Range.End r - Range.Start r))
    by (unfold in_int64, MinInt64, MaxInt64; lia).
  split.
  - intros [-> ->]. reflexivity.
  - intros Hne. rewrite wrap64_id by (unfold in_int64, MinInt64, MaxInt64; lia). lia.
Qed.

Lemma size_of_valid_range_witness :
  (Range.Start (Range.NewRange 0 MaxInt64) = 0 /\
   Range.End (Range.NewRange 0 MaxInt64) = MaxInt64 ->
   Range.Size (Range.NewRange 0 MaxInt64) = MinInt64) /\
  (~ (Range.Start (Range.NewRange 0 MaxInt64) = 0 /\
      Range.End (Range.NewRange 0 MaxInt64) = MaxInt64) ->
   Range.Size (Range.NewRange 0 MaxInt64)
   = Range.End (Range.NewRange 0 MaxInt64) - Range.Start (Range.NewRange 0 MaxInt64) + 1 /\
   1 <= Range.Size (Range.NewRange 0 MaxInt64)).
Proof.
  apply (size_of_valid_range (Range.NewRange 0 MaxInt64));
    [reflexivity
    | unfold in_int64, MinInt64, MaxInt64; simpl Range.Start; lia
    | unfold in_int64, MinInt64, MaxInt64; simpl Range.End; lia].
Defined.

Lemma RangeFromOffsetLimit_eq offset limit :
  1 <= limit -> in_int64 offset -> offset + limit - 1 <= MaxInt64 ->
  Range.RangeFromOffsetLimit offset limit = Range.mk offset (offset + limit - 1) "items".
Proof.
  intros Hl Ho Hend. unfold Range.RangeFromOffsetLimit.
  destruct (Z.leb_spec limit 0); [lia|].
  change (wrap64 (offset + limit) - 1) with (wrap64 (offset + limit) + -1).
  rewrite wrap64_add_l.
  rewrite wrap64_id by (unfold in_int64, MinInt64, MaxInt64 in *; lia).
  f_equal; lia.
Qed.

(** [RangeFromOffsetLimit(offset, limit)] with an offset that is not
    negative and a positive limit, the last index within [int64], is a
    range that [Validate] accepts, which starts at the offset and whose
    size is the limit, so that [SQLClause()] names that limit and that
    offset.  With a limit that is not positive the range is the single
    item at the offset, of size 1 and not empty. *)
Theorem range_from_offset_limit_size (offset limit : Z) :
  0 <= offset -> in_int64 offset -> in_int64 limit ->
  (1 <= limit -> offset + limit - 1 <= MaxInt64 ->
   Range.Validate (Range.RangeFromOffsetLimit offset limit) = None /\
   Range.Start (Range.RangeFromOffsetLimit offset limit) = offset /\
   Range.Size (Range.RangeFromOffsetLimit offset limit) = limit /\
   Range.SQLClause (Range.RangeFromOffsetLimit offset limit)
   = "LIMIT " +:+ strconv.FormatInt limit +:+ " OFFSET " +:+ strconv.FormatInt offset) /\
  (limit <= 0 ->
   Range.RangeFromOffsetLimit offset limit = Range.mk offset offset "items" /\
   Range.Size (Range.RangeFromOffsetLimit offset limit) = 1).
Proof.
  intros Ho Hoin Hlin. unfold in_int64, MinInt64, MaxInt64 in *. split.
  - intros Hl Hend. rewrite RangeFromOffsetLimit_eq
      by (unfold in_int64, MinInt64, MaxInt64; lia).
    assert (Hsize : Range.Size (Range.mk offset (offset + limit - 1) "items") = limit).
    { unfold Range.Size. cbn. destruct (Z.ltb_spec (offset + limit - 1) offset); [lia|].
      replace (offset + limit - 1 - offset) with (limit - 1) by lia.
      rewrite (wrap64_id (limit - 1)) by (unfold in_int64, MinInt64, MaxInt64; lia).
      rewrite wrap64_id by (unfold in_int64, MinInt64, MaxInt64; lia). lia. }
    split.
    + unfold Range.Validate. cbn. destruct (Z.ltb_spec offset 0); [lia|].
      destruct (Z.ltb_spec (offset + limit - 1) offset); [lia | reflexivity].
    + split; [reflexivity|]. split; [exact Hsize|].
      unfold Range.SQLClause. now rewrite Hsize.
  - intros Hl. unfold Range.RangeFromOffsetLimit.
    destruct (Z.leb_spec limit 0); [|lia]. split; [reflexivity|].
    unfold Range.Size. cbn. rewrite Z.ltb_irrefl, Z.sub_diag. reflexivity.
Qed.

Lemma range_from_offset_limit_size_witness :
  (1 <= 25 -> 50 + 25 - 1 <= MaxInt64 ->
   Range.Validate (Range.RangeFromOffsetLimit 50 25) = None /\
   Range.Start (Range.RangeFromOffsetLimit 50 25) = 50 /\
   Range.Size (Range.RangeFromOffsetLimit 50 25) = 25 /\
   Range.SQLClause (Range.RangeFromOffsetLimit 50 25)
   = "LIMIT " +:+ strconv.FormatInt 25 +:+ " OFFSET " +:+ strconv.FormatInt 50) /\
  (25 <= 0 ->
   Range.RangeFromOffsetLimit 50 25 = Range.mk 50 50 "items" /\
   Range.Size (Range.RangeFromOffsetLimit 50 25) = 1).
Proof.
  apply (range_from_offset_limit_size 50 25);
    [lia | unfold in_int64, MinInt64, MaxInt64; lia | unfold in_int64, MinInt64, MaxInt64; lia].
Defined.

(** * Computations that end in a known object *)

Section Yields.
Context {V : Type}.
Implicit Types (h : gmap loc V) (v : V).

Lemma insert_fresh_subseteq h v : h ⊆ <[fresh (dom h) := v]> h.
Proof. apply insert_subseteq, fresh_lookup_None. Qed.

Lemma yields_new v : yields (new v) v.
Proof.
  intros h. eexists _, _. split; [apply new_eq|].
  split; [apply lookup_insert_eq | apply insert_fresh_subseteq].
Qed.

Lemma yields_bind (m : M V loc) (k : loc -> M V loc) v (f : V -> V) :
  yields m v -> acts_as k f -> yields (m ≫= k) (f v).
Proof.
  intros Hm Hk h. destruct (Hm h) as (q & h1 & E & Hq & Hsub).
  destruct (Hk h1 q v Hq) as (q' & h2 & E' & Hq' & Hsub').
  exists q', h2. split; [rewrite (bind_Some _ _ _ _ _ E); exact E'|].
  split; [exact Hq' | etrans; eassumption].
Qed.

Lemma acts_as_bind (k1 k2 : loc -> M V loc) (f1 f2 : V -> V) :
  acts_as k1 f1 -> acts_as k2 f2 -> acts_as (fun p => k1 p ≫= k2) (fun v => f2 (f1 v)).
Proof.
  intros H1 H2 h p v Hp. destruct (H1 h p v Hp) as (q & h1 & E & Hq & Hsub).
  destruct (H2 h1 q _ Hq) as (q' & h2 & E' & Hq' & Hsub').
  exists q', h2. split; [rewrite (bind_Some _ _ _ _ _ E); exact E'|].
  split; [exact Hq' | etrans; eassumption].
Qed.

Lemma acts_as_ret : acts_as (V := V) ret (fun v => v).
Proof. intros h p v Hp. exists p, h. split; [reflexivity|]. split; [exact Hp | reflexivity]. Qed.

Lemma acts_as_ext (k : loc -> M V loc) (f g : V -> V) :
  (forall v, f v = g v) -> acts_as k f -> acts_as k g.
Proof.
  intros Hfg Hk h p v Hp. destruct (Hk h p v Hp) as (q & h' & E & Hq & Hsub).
  exists q, h'. rewrite <- Hfg. auto.
Qed.

Lemma acts_as_if (b : bool) (k1 k2 : loc -> M V loc) (f1 f2 : V -> V) :
  acts_as k1 f1 -> acts_as k2 f2 ->
  acts_as (fun p => if b then k1 p else k2 p) (fun v => if b then f1 v else f2 v).
Proof. destruct b; auto. Qed.

End Yields.

Lemma acts_as_WithPage page :
  acts_as (fun p => Paginator.WithPage p page)
          (fun v => Paginator.mk (if page <? 1 then DefaultPage else page)
                                 (Paginator.PageSize v)).
Proof.
  intros h p v Hp. eexists _, _. split; [apply (PaginatorFacts.WithPage_eq h p v), Hp|].
  split; [apply lookup_insert_eq | apply insert_fresh_subseteq].
Qed.

Lemma acts_as_WithPageSize size :
  acts_as (fun p => Paginator.WithPageSize p size)
          (fun v => Paginator.mk (Paginator.Page v) (clampSize size)).
Proof.
  intros h p v Hp. eexists _, _. split; [apply (PaginatorFacts.WithPageSize_eq h p v), Hp|].
  split; [apply lookup_insert_eq | apply insert_fresh_subseteq].
Qed.

Lemma yields_NewFromValues page size :
  yields (Paginator.NewFromValues page size)
         (Paginator.mk (if page <? 1 then DefaultPage else page) (clampSize size)).
Proof.
  unfold Paginator.NewFromValues.
  apply (yields_bind _ _ _
           (fun v => Paginator.mk (if page <? 1 then DefaultPage else page) (clampSize size))
           (yields_new _)).
  apply (acts_as_bind _ _ _ _ (acts_as_WithPage page) (acts_as_WithPageSize size)).
Qed.

(** [ToPaginator()] on any range, also one that [Validate] rejects, ends
    in a paginator that [Paginator.Validate] accepts; its page size is
    the size of the range, replaced by [DefaultPageSize] when the size is
    not positive and by [MaxPageSize] when it is larger than that. *)
Theorem to_paginator_is_valid (r : Range.t) (h : gmap loc Paginator.t) :
  exists q h' v,
    Range.ToPaginator r h = Some (q, h') /\ h' !! q = Some v /\ valid v /\
    Paginator.PageSize v
    = (if Range.Size r <=? 0 then DefaultPageSize else Z.min (Range.Size r) MaxPageSize) /\
    Paginator.Validate q h' = Some (None, h').
Proof.
  unfold Range.ToPaginator.
  set (size := if (if Range.Size r <=? 0 then DefaultPageSize else Range.Size r) >? MaxPageSize
               then MaxPageSize
               else if Range.Size r <=? 0 then DefaultPageSize else Range.Size r).
  assert (Hsize : size = if Range.Size r <=? 0 then DefaultPageSize
                         else Z.min (Range.Size r) MaxPageSize).
  { unfold size, DefaultPageSize, MaxPageSize. rewrite !Z.gtb_ltb.
    destruct (Z.leb_spec (Range.Size r) 0).
    - reflexivity.
    - destruct (Z.ltb_spec 1000 (Range.Size r)); lia. }
  assert (Hrange : MinPageSize <= size <= MaxPageSize).
  { rewrite Hsize. unfold MinPageSize, DefaultPageSize, MaxPageSize.
    destruct (Z.leb_spec (Range.Size r) 0); lia. }
  set (page := wrap64 (Z.quot (Range.Start r) size + 1)).
  destruct (yields_NewFromValues page size h) as (q & h' & E & Hq & _).
  assert (Hclamp : clampSize size = size) by (apply PaginatorFacts.clampSize_cases, Hrange).
  rewrite Hclamp in Hq.
  assert (Hvalid : valid (Paginator.mk (if page <? 1 then DefaultPage else page) size)).
  { split; cbn; [|exact Hrange]. unfold DefaultPage. destruct (Z.ltb_spec page 1); lia. }
  eexists q, h', _. split; [exact E|]. split; [exact Hq|]. split; [exact Hvalid|].
  split; [exact Hsize|]. apply (PaginatorFacts.Validate_valid _ _ _ Hq Hvalid).
Qed.



(** * Range responses *)

Lemma NewRangeResponse_End {T} (items : list T) (r : Range.t) (total : Z) :
  items <> [] -> in_int64 (Range.Start r) ->
  Range.Start r + Z.of_nat (length items) - 1 <= MaxInt64 ->
  RangeResponse.End (RangeResponse.NewRangeResponse items r total)
  = Range.Start r + Z.of_nat (length items) - 1.
Proof.
  intros Hne Hs Hend. unfold RangeResponse.NewRangeResponse. cbn [RangeResponse.End].
  destruct items as [|x items]; [congruence|].
  rewrite Z.gtb_ltb. destruct (Z.ltb_spec 0 (Z.of_nat (length (x :: items)))) as [Hl|Hl];
    [|cbn [length] in Hl; lia].
  change (wrap64 (Range.Start r + Z.of_nat (length (x :: items))) - 1)
    with (wrap64 (Range.Start r + Z.of_nat (length (x :: items))) + -1).
  rewrite wrap64_add_l.
  rewrite wrap64_id by (unfold in_int64, MinInt64, MaxInt64 in *; lia). lia.
Qed.



(** The two writers of the Content-Range header agree on a full range:
    for a range that [Validate] accepts, a response with as many items
    as the size of the range, and a total that is not negative,
    [RangeResponse.ContentRange()] is [Range.ContentRangeHeader(total)]. *)
Theorem content_range_agrees_on_full_range
    {T : Type} (items : list T) (r : Range.t) (total : Z) :
  Range.Validate r = None ->
  in_int64 (Range.Start r) -> in_int64 (Range.End r) ->
  Z.of_nat (length items) = Range.Size r ->
  0 <= total ->
  RangeResponse.ContentRange (RangeResponse.NewRangeResponse items r total)
  = Range.ContentRangeHeader r total.
Proof.
  intros Hv Hs He Hlen Htotal. unfold Range.Validate in Hv.
  destruct (Z.ltb_spec (Range.Start r) 0) as [|Hs0]; [discriminate|].
  destruct (Z.ltb_spec (Range.End r) (Range.Start r)) as [|Hes]; [discriminate|].
  assert (Hsize : Range.Size r = Range.End r - Range.Start r + 1).
  { unfold Range.Size in *. destruct (Z.ltb_spec (Range.End r) (Range.Start r)); [lia|].
    unfold in_int64, MinInt64, MaxInt64 in *.
    rewrite (wrap64_id (Range.End r - Range.Start r)) in *
      by (unfold in_int64, MinInt64, MaxInt64; lia).
    destruct (Z.eq_dec (Range.End r - Range.Start r) (2 ^ 63 - 1)) as [E|E].
    - rewrite E in Hlen. change (wrap64 (2 ^ 63 - 1 + 1)) with (- 2 ^ 63) in Hlen. lia.
    - rewrite wrap64_id by (unfold in_int64, MinInt64, MaxInt64; lia). reflexivity. }
  assert (Hne : items <> []).
  { intros ->. cbn in Hlen. lia. }
  unfold RangeResponse.ContentRange, Range.ContentRangeHeader.
  rewrite (NewRangeResponse_End items r total Hne Hs)
    by (unfold in_int64, MinInt64, MaxInt64 in *; lia).
  cbn [RangeResponse.NewRangeResponse RangeResponse.Items RangeResponse.Unit
       RangeResponse.Start RangeResponse.Total].
  destruct (Z.eqb_spec (Z.of_nat (length items)) 0); [lia|].
  destruct (Z.ltb_spec total 0); [lia|].
  replace (Range.Start r + Z.of_nat (length items) - 1) with (Range.End r) by lia.
  reflexivity.
Qed.

Lemma content_range_agrees_on_full_range_witness :
  RangeResponse.ContentRange
    (RangeResponse.NewRangeResponse ["a"; "b"; "c"]%string (Range.NewRange 10 12) 100)
  = Range.ContentRangeHeader (Range.NewRange 10 12) 100.
Proof.
  apply (content_range_agrees_on_full_range ["a"; "b"; "c"]%string (Range.NewRange 10 12) 100);
    [reflexivity
    | unfold in_int64, MinInt64, MaxInt64; simpl Range.Start; lia
    | unfold in_int64, MinInt64, MaxInt64; simpl Range.End; lia
    | reflexivity
    | lia].
Defined.

(** * Parsing queries *)

Section QuerySteps.
Context {V : Type}.

(** One step of a parser: a key whose value, when usable, is handed to a
    with-X method. *)
Lemma acts_as_query_step (q : gmap string (list string)) (key : string)
    (k : loc -> Z -> M V loc) (f : Z -> V -> V) :
  (forall n, acts_as (fun p => k p n) (f n)) ->
  acts_as
    (fun p =>
       let s := Get q key in
       if negb (String.eqb s "") then
         match strconv.Atoi s with
         | Some n => if n >? 0 then k p n else ret p
         | None => ret p
         end
       else ret p)
    (fun v => match queryInt q key with Some n => f n v | None => v end).
Proof.
  intros Hk. unfold queryInt. cbv zeta.
  destruct (String.eqb (Get q key) ""); cbn [negb]; [apply acts_as_ret|].
  destruct (strconv.Atoi (Get q key)) as [n|]; [|apply acts_as_ret].
  destruct (n >? 0); [apply Hk | apply acts_as_ret].
Qed.

Lemma acts_as_guarded_query_step (q : gmap string (list string)) (key : string)
    (guard : bool) (k : loc -> Z -> M V loc) (f : Z -> V -> V) :
  (forall n, acts_as (fun p => k p n) (f n)) ->
  acts_as
    (fun p =>
       let s := Get q key in
       if negb (String.eqb s "") && guard then
         match strconv.Atoi s with
         | Some n => if n >? 0 then k p n else ret p
         | None => ret p
         end
       else ret p)
    (fun v => if guard then match queryInt q key with Some n => f n v | None => v end
              else v).
Proof.
  intros Hk. unfold queryInt. cbv zeta.
  destruct guard; [|rewrite andb_false_r; apply acts_as_ret]. rewrite andb_true_r.
  destruct (String.eqb (Get q key) ""); cbn [negb]; [apply acts_as_ret|].
  destruct (strconv.Atoi (Get q key)) as [n|]; [|apply acts_as_ret].
  destruct (n >? 0); [apply Hk | apply acts_as_ret].
Qed.

End QuerySteps.

Lemma queryInt_positive q key n : queryInt q key = Some n -> 0 < n.
Proof.
  unfold queryInt. destruct (String.eqb (Get q key) ""); [discriminate|].
  destruct (strconv.Atoi (Get q key)) as [m|]; [|discriminate].
  rewrite Z.gtb_ltb. destruct (Z.ltb_spec 0 m); [|discriminate]. now intros [= <-].
Qed.

(** The size that [FromQuery] takes from a query. *)
Lemma FromQuery_yields (q : gmap string (list string)) :
  yields (Paginator.FromQuery q)
    (Paginator.mk
       (match queryInt q "page" with Some n => n | None => DefaultPage end)
       (if String.eqb (Get q "page_size") ""
        then match queryInt q "per_page" with
             | Some n => clampSize n
             | None => match queryInt q "limit" with
                       | Some n => clampSize n
                       | None => DefaultPageSize
                       end
             end
        else match queryInt q "page_size" with
             | Some n => clampSize n
             | None => DefaultPageSize
             end)).
Proof.
  set (f1 := fun v => match queryInt q "page" with
                      | Some n => Paginator.mk (if n <? 1 then DefaultPage else n)
                                               (Paginator.PageSize v)
                      | None => v
                      end).
  set (f2 := fun v => match queryInt q "page_size" with
                      | Some n => Paginator.mk (Paginator.Page v) (clampSize n)
                      | None => v
                      end).
  set (f3 := fun v => if String.eqb (Get q "page_size") ""
                      then match queryInt q "limit" with
                           | Some n => Paginator.mk (Paginator.Page v) (clampSize n)
                           | None => v
                           end
                      else v).
  set (f4 := fun v => if String.eqb (Get q "page_size") ""
                      then match queryInt q "per_page" with
                           | Some n => Paginator.mk (Paginator.Page v) (clampSize n)
                           | None => v
                           end
                      else v).
  assert (Hy : yields (Paginator.FromQuery q)
                 (f4 (f3 (f2 (f1 (Paginator.mk DefaultPage DefaultPageSize)))))).
  { unfold Paginator.FromQuery.
    apply (yields_bind _ _ _ (fun v => f4 (f3 (f2 (f1 v)))) (yields_new _)).
    apply (acts_as_bind _ _ f1 (fun v => f4 (f3 (f2 v)))).
    { apply (acts_as_query_step q "page" (fun p n => Paginator.WithPage p n)
               (fun n v => Paginator.mk (if n <? 1 then DefaultPage else n)
                                        (Paginator.PageSize v))).
      intros n. apply acts_as_WithPage. }
    apply (acts_as_bind _ _ f2 (fun v => f4 (f3 v))).
    { apply (acts_as_query_step q "page_size" (fun p n => Paginator.WithPageSize p n)
               (fun n v => Paginator.mk (Paginator.Page v) (clampSize n))).
      intros n. apply acts_as_WithPageSize. }
    apply (acts_as_bind _ _ f3 (fun v => f4 v)).
    { apply (acts_as_guarded_query_step q "limit" (String.eqb (Get q "page_size") "")
               (fun p n => Paginator.WithPageSize p n)
               (fun n v => Paginator.mk (Paginator.Page v) (clampSize n))).
      intros n. apply acts_as_WithPageSize. }
    apply (acts_as_bind _ _ f4 (fun v => v)).
    { apply (acts_as_guarded_query_step q "per_page" (String.eqb (Get q "page_size") "")
               (fun p n => Paginator.WithPageSize p n)
               (fun n v => Paginator.mk (Paginator.Page v) (clampSize n))).
      intros n. apply acts_as_WithPageSize. }
    apply acts_as_ret. }
  replace (Paginator.mk _ _) with (f4 (f3 (f2 (f1 (Paginator.mk DefaultPage DefaultPageSize)))));
    [exact Hy|].
  unfold f1, f2, f3, f4.
  destruct (queryInt q "page") as [n|] eqn:Epage.
  - apply queryInt_positive in Epage. destruct (Z.ltb_spec n 1); [lia|].
    destruct (String.eqb (Get q "page_size") "") eqn:Eps.
    + assert (Hnone : queryInt q "page_size" = None) by (unfold queryInt; now rewrite Eps).
      rewrite Hnone.
      destruct (queryInt q "limit"), (queryInt q "per_page"); reflexivity.
    + destruct (queryInt q "page_size"); reflexivity.
  - destruct (String.eqb (Get q "page_size") "") eqn:Eps.
    + assert (Hnone : queryInt q "page_size" = None) by (unfold queryInt; now rewrite Eps).
      rewrite Hnone.
      destruct (queryInt q "limit"), (queryInt q "per_page"); reflexivity.
    + destruct (queryInt q "page_size"); reflexivity.
Qed.

(** [FromQuery] reads the page from the key [page] and the page size
    from [page_size], [per_page] and [limit], in this order of
    precedence: a [page_size] that is present decides alone, so that an
    unusable one gives [DefaultPageSize] whatever the other two keys say;
    without it a usable [per_page] wins over [limit].  A value is usable
    when [Atoi] reads it and it is positive; sizes are clamped as by
    [WithPageSize].  Every object of the store before is unchanged. *)
Theorem from_query_precedence (q : gmap string (list string)) :
  yields (Paginator.FromQuery q)
    (Paginator.mk
       (match queryInt q "page" with Some n => n | None => DefaultPage end)
       (if String.eqb (Get q "page_size") ""
        then match queryInt q "per_page" with
             | Some n => clampSize n
             | None => match queryInt q "limit" with
                       | Some n => clampSize n
                       | None => DefaultPageSize
                       end
             end
        else match queryInt q "page_size" with
             | Some n => clampSize n
             | None => DefaultPageSize
             end)).
Proof.
  intros h. destruct (FromQuery_yields q h) as (p & h' & E & Hp & Hsub).
  exists p, h'. auto.
Qed.

Lemma QueryParams_run h p v :
  h !! p = Some v ->
  Paginator.QueryParams p h
  = Some (<["page_size"%string := [strconv.FormatInt (Paginator.PageSize v)]]>
            (<["page"%string := [strconv.FormatInt (Paginator.Page v)]]> ∅), h).
Proof. intros Hp. unfold Paginator.QueryParams. now rewrite (load_bind _ _ _ _ Hp). Qed.

Lemma FormatInt_nonempty z : strconv.FormatInt z <> EmptyString.
Proof. destruct (FormatInt_head z) as (c & s & -> & _). discriminate. Qed.

Lemma queryInt_FormatInt q key n :
  Get q key = strconv.FormatInt n -> in_int64 n -> 0 < n -> queryInt q key = Some n.
Proof.
  intros Hget Hin Hpos. unfold queryInt. rewrite Hget.
  destruct (String.eqb_spec (strconv.FormatInt n) ""); [now apply FormatInt_nonempty in e|].
  unfold strconv.Atoi. rewrite (ParseInt_FormatInt n Hin).
  rewrite Z.gtb_ltb. destruct (Z.ltb_spec 0 n); [reflexivity | lia].
Qed.

(** [FromQuery] reads back what [QueryParams()] writes: from the query
    parameters of a valid paginator it builds a new paginator with the
    same page and page size, and the receiver is unchanged. *)
Theorem from_query_of_query_params
    (h : gmap loc Paginator.t) (p : loc) (v : Paginator.t) :
  h !! p = Some v -> valid v -> in_int64 (Paginator.Page v) ->
  exists q h',
    (params ← Paginator.QueryParams p; Paginator.FromQuery params) h = Some (q, h') /\
    h' !! q = Some v /\ h' !! p = Some v.
Proof.
  intros Hp (Hpage & Hps1 & Hps2) Hin. unfold MinPageSize, MaxPageSize in *.
  rewrite (bind_Some _ _ _ _ _ (QueryParams_run h p v Hp)).
  set (params := <["page_size"%string := [strconv.FormatInt (Paginator.PageSize v)]]>
                   (<["page"%string := [strconv.FormatInt (Paginator.Page v)]]> ∅)).
  destruct (FromQuery_yields params h) as (q & h' & E & Hq & Hsub).
  assert (Gpage : Get params "page" = strconv.FormatInt (Paginator.Page v)).
  { unfold Get, params. rewrite lookup_insert_ne by discriminate.
    now rewrite lookup_insert_eq. }
  assert (Gsize : Get params "page_size" = strconv.FormatInt (Paginator.PageSize v)).
  { unfold Get, params. now rewrite lookup_insert_eq. }
  rewrite (queryInt_FormatInt params "page" _ Gpage Hin ltac:(lia)) in Hq.
  rewrite (queryInt_FormatInt params "page_size" _ Gsize) in Hq
    by (unfold in_int64, MinInt64, MaxInt64; lia).
  rewrite Gsize in Hq.
  destruct (String.eqb_spec (strconv.FormatInt (Paginator.PageSize v)) "") as [e|_];
    [now apply FormatInt_nonempty in e|].
  rewrite (proj2 (proj2 (PaginatorFacts.clampSize_cases (Paginator.PageSize v)))) in Hq
    by (unfold MinPageSize, MaxPageSize; lia).
  exists q, h'. split; [exact E|]. split; [destruct v; exact Hq|].
  apply (lookup_weaken _ _ _ _ Hp Hsub).
Qed.

Lemma from_query_of_query_params_witness :
  exists q h',
    (params ← Paginator.QueryParams 1%positive; Paginator.FromQuery params)
      {[ 1%positive := Paginator.mk 3 25 ]} = Some (q, h') /\
    h' !! q = Some (Paginator.mk 3 25) /\ h' !! 1%positive = Some (Paginator.mk 3 25).
Proof.
  apply (from_query_of_query_params
           {[ 1%positive := Paginator.mk 3 25 ]} 1%positive (Paginator.mk 3 25));
    [reflexivity
    | unfold valid, MinPageSize, MaxPageSize; simpl Paginator.Page;
      simpl Paginator.PageSize; lia
    | unfold in_int64, MinInt64, MaxInt64; simpl Paginator.Page; lia].
Defined.

(** * The query string *)

Lemma QueryEscape_kept s :
  all_chars (fun c => negb (url.shouldEscape c)) s = true -> url.QueryEscape s = s.
Proof.
  induction s as [|c s IH]; [reflexivity|]. cbn. intros H.
  apply andb_true_iff in H as [Hc Hs]. apply negb_true_iff in Hc. rewrite Hc.
  now rewrite IH.
Qed.

Lemma all_chars_impl (f g : ascii -> bool) s :
  (forall c, f c = true -> g c = true) -> all_chars f s = true -> all_chars g s = true.
Proof.
  intros Hfg. induction s as [|c s IH]; [reflexivity|]. cbn. intros H.
  apply andb_true_iff in H as [Hc Hs]. now rewrite (Hfg c Hc), IH.
Qed.

Lemma isDigit_kept c : strconv.isDigit c = true -> negb (url.shouldEscape c) = true.
Proof.
  unfold strconv.isDigit, url.shouldEscape. intros H. apply andb_true_iff in H as [H1 H2].
  cbv zeta. rewrite H1, H2. cbn [andb]. now rewrite orb_true_r.
Qed.

Lemma QueryEscape_FormatInt z : url.QueryEscape (strconv.FormatInt z) = strconv.FormatInt z.
Proof.
  apply QueryEscape_kept. unfold strconv.FormatInt.
  assert (Hu : forall u, 0 <= u ->
            all_chars (fun c => negb (url.shouldEscape c)) (strconv.FormatUint u) = true).
  { intros u Hu. destruct (FormatUint_digits u Hu) as (c & ds & -> & Hall & _).
    revert Hall. apply all_chars_impl, isDigit_kept. }
  destruct (Z.ltb_spec z 0).
  - cbn [all_chars]. rewrite Hu by lia. reflexivity.
  - apply Hu. lia.
Qed.

Lemma page_params_page (a b : string) :
  (<["page_size"%string := [b]]> (<["page"%string := [a]]> ∅) : gmap string (list string))
    !! "page"%string = Some [a].
Proof. vm_compute. reflexivity. Qed.

Lemma page_params_page_size (a b : string) :
  (<["page_size"%string := [b]]> (<["page"%string := [a]]> ∅) : gmap string (list string))
    !! "page_size"%string = Some [b].
Proof. vm_compute. reflexivity. Qed.

Lemma writeValues_single k v buf :
  url.writeValues k [v] buf
  = (if Nat.ltb 0 (String.length buf) then buf +:+ "&" else buf)
      +:+ k +:+ "=" +:+ url.QueryEscape v.
Proof. reflexivity. Qed.

Lemma Encode_page_params a b :
  url.Encode (<["page_size"%string := [b]]> (<["page"%string := [a]]> ∅))
  = "page=" +:+ url.QueryEscape a +:+ "&page_size=" +:+ url.QueryEscape b.
Proof.
  unfold url.Encode.
  assert (E1 : size (<["page_size"%string := [b]]>
                       (<["page"%string := [a]]> (∅ : gmap string (list string)))) = 2%nat)
    by (vm_compute; reflexivity).
  assert (E2 : url.sortKeys
                 (map fst (map_to_list
                    (<["page_size"%string := [b]]>
                       (<["page"%string := [a]]> (∅ : gmap string (list string))))))
               = ["page"; "page_size"]%string)
    by (vm_compute; reflexivity).
  rewrite E1, E2. cbn [Nat.eqb fold_left].
  rewrite page_params_page, page_params_page_size.
  change (default [] (Some [a])) with [a]. change (default [] (Some [b])) with [b].
  rewrite !writeValues_single.
  change (url.QueryEscape "page") with "page"%string.
  change (url.QueryEscape "page_size") with "page_size"%string.
  change (Nat.ltb 0 (String.length "")) with false. cbv iota.
  rewrite append_nil_l.
  assert (Hlen : Nat.ltb 0 (String.length ("page" +:+ "=" +:+ url.QueryEscape a)) = true)
    by (rewrite !append_cons; reflexivity).
  rewrite Hlen. rewrite !append_assoc. reflexivity.
Qed.

(** [QueryString()] of any paginator is [page=P&page_size=S] with the
    page and the page size in decimal: the keys come in this order and no
    byte of the numbers, not even a minus sign, is escaped. *)
Theorem query_string_form (h : gmap loc Paginator.t) (p : loc) (v : Paginator.t) :
  h !! p = Some v ->
  Paginator.QueryString p h
  = Some ("page=" +:+ strconv.FormatInt (Paginator.Page v)
            +:+ "&page_size=" +:+ strconv.FormatInt (Paginator.PageSize v), h).
Proof.
  intros Hp. unfold Paginator.QueryString.
  rewrite (bind_Some _ _ _ _ _ (QueryParams_run h p v Hp)).
  unfold mret, M_ret, ret. now rewrite Encode_page_params, !QueryEscape_FormatInt.
Qed.

Lemma query_string_form_witness :
  Paginator.QueryString 1%positive {[ 1%positive := Paginator.mk 3 25 ]}
  = Some ("page=" +:+ strconv.FormatInt 3 +:+ "&page_size=" +:+ strconv.FormatInt 25,
          {[ 1%positive := Paginator.mk 3 25 ]}).
Proof.
  apply (query_string_form {[ 1%positive := Paginator.mk 3 25 ]} 1%positive
           (Paginator.mk 3 25)); reflexivity.
Defined.

(** * The cursor paginator: parsing queries *)

Lemma acts_as_WithCursor cursor :
  acts_as (fun c => CursorPaginator.WithCursor c cursor)
          (fun v => CursorPaginator.mk cursor (CursorPaginator.Limit v)
                                       (CursorPaginator.Forward v)).
Proof.
  intros h c v Hc. eexists _, _.
  split; [apply (CursorPaginatorFacts.WithCursor_eq h c v), Hc|].
  split; [apply lookup_insert_eq | apply insert_fresh_subseteq].
Qed.

Lemma acts_as_WithForward forward :
  acts_as (fun c => CursorPaginator.WithForward c forward)
          (fun v => CursorPaginator.mk (CursorPaginator.Cursor v) (CursorPaginator.Limit v)
                                       forward).
Proof.
  intros h c v Hc. eexists _, _.
  split; [apply (CursorPaginatorFacts.WithForward_eq h c v), Hc|].
  split; [apply lookup_insert_eq | apply insert_fresh_subseteq].
Qed.

Lemma acts_as_WithLimit limit :
  acts_as (fun c => CursorPaginator.WithLimit c limit)
          (fun v => CursorPaginator.mk (CursorPaginator.Cursor v) (clampSize limit)
                                       (CursorPaginator.Forward v)).
Proof.
  intros h c v Hc. eexists _, _.
  split; [apply (CursorPaginatorFacts.WithLimit_eq h c v), Hc|].
  split; [apply lookup_insert_eq | apply insert_fresh_subseteq].
Qed.

Lemma acts_as_cursor_step (s : string) (forward : option bool) :
  acts_as
    (fun c =>
       if negb (String.eqb s "") then
         match forward with
         | Some f => c ← CursorPaginator.WithCursor c s; CursorPaginator.WithForward c f
         | None => CursorPaginator.WithCursor c s
         end
       else ret c)
    (fun v =>
       if String.eqb s "" then v
       else CursorPaginator.mk s (CursorPaginator.Limit v)
              (match forward with Some f => f | None => CursorPaginator.Forward v end)).
Proof.
  destruct (String.eqb s ""); cbn [negb]; [apply acts_as_ret|].
  destruct forward as [f|].
  - apply (acts_as_bind _ _ _ _ (acts_as_WithCursor s) (acts_as_WithForward f)).
  - apply acts_as_WithCursor.
Qed.

Lemma acts_as_limit_forward n f :
  acts_as (fun c => c ← CursorPaginator.WithLimit c n; CursorPaginator.WithForward c f)
          (fun v => CursorPaginator.mk (CursorPaginator.Cursor v) (clampSize n) f).
Proof. apply (acts_as_bind _ _ _ _ (acts_as_WithLimit n) (acts_as_WithForward f)). Qed.

(** What [CursorFromQuery] takes from a query. *)
Lemma CursorFromQuery_yields (q : gmap string (list string)) :
  yields (CursorPaginator.CursorFromQuery q)
    (CursorPaginator.mk
       (if negb (String.eqb (Get q "before") "") then Get q "before"
        else if negb (String.eqb (Get q "after") "") then Get q "after"
        else Get q "cursor")
       (match queryInt q "last" with
        | Some n => clampSize n
        | None => match queryInt q "first" with
                  | Some n => clampSize n
                  | None => match queryInt q "limit" with
                            | Some n => clampSize n
                            | None => DefaultPageSize
                            end
                  end
        end)
       (match queryInt q "last" with
        | Some _ => false
        | None => match queryInt q "first" with
                  | Some _ => true
                  | None => String.eqb (Get q "before") ""
                  end
        end)).
Proof.
  set (f1 := fun v => if String.eqb (Get q "cursor") "" then v
                      else CursorPaginator.mk (Get q "cursor") (CursorPaginator.Limit v)
                             (CursorPaginator.Forward v)).
  set (f2 := fun v => if String.eqb (Get q "after") "" then v
                      else CursorPaginator.mk (Get q "after") (CursorPaginator.Limit v) true).
  set (f3 := fun v => if String.eqb (Get q "before") "" then v
                      else CursorPaginator.mk (Get q "before") (CursorPaginator.Limit v) false).
  set (f4 := fun v => match queryInt q "limit" with
                      | Some n => CursorPaginator.mk (CursorPaginator.Cursor v) (clampSize n)
                                    (CursorPaginator.Forward v)
                      | None => v
                      end).
  set (f5 := fun v => match queryInt q "first" with
                      | Some n => CursorPaginator.mk (CursorPaginator.Cursor v) (clampSize n) true
                      | None => v
                      end).
  set (f6 := fun v => match queryInt q "last" with
                      | Some n => CursorPaginator.mk (CursorPaginator.Cursor v) (clampSize n) false
                      | None => v
                      end).
  assert (Hy : yields (CursorPaginator.CursorFromQuery q)
                 (f6 (f5 (f4 (f3 (f2 (f1 (CursorPaginator.mk "" DefaultPageSize true)))))))).
  { unfold CursorPaginator.CursorFromQuery, CursorPaginator.NewCursor.
    apply (yields_bind _ _ _ (fun v => f6 (f5 (f4 (f3 (f2 (f1 v)))))) (yields_new _)).
    apply (acts_as_bind _ _ f1 (fun v => f6 (f5 (f4 (f3 (f2 v)))))).
    { exact (acts_as_cursor_step (Get q "cursor") None). }
    apply (acts_as_bind _ _ f2 (fun v => f6 (f5 (f4 (f3 v))))).
    { exact (acts_as_cursor_step (Get q "after") (Some true)). }
    apply (acts_as_bind _ _ f3 (fun v => f6 (f5 (f4 v)))).
    { exact (acts_as_cursor_step (Get q "before") (Some false)). }
    apply (acts_as_bind _ _ f4 (fun v => f6 (f5 v))).
    { apply (acts_as_query_step q "limit" (fun c n => CursorPaginator.WithLimit c n)
               (fun n v => CursorPaginator.mk (CursorPaginator.Cursor v) (clampSize n)
                             (CursorPaginator.Forward v))).
      intros n. apply acts_as_WithLimit. }
    apply (acts_as_bind _ _ f5 (fun v => f6 v)).
    { apply (acts_as_query_step q "first"
               (fun c n => c ← CursorPaginator.WithLimit c n; CursorPaginator.WithForward c true)
               (fun n v => CursorPaginator.mk (CursorPaginator.Cursor v) (clampSize n) true)).
      intros n. apply acts_as_limit_forward. }
    apply (acts_as_bind _ _ f6 (fun v => v)).
    { apply (acts_as_query_step q "last"
               (fun c n => c ← CursorPaginator.WithLimit c n; CursorPaginator.WithForward c false)
               (fun n v => CursorPaginator.mk (CursorPaginator.Cursor v) (clampSize n) false)).
      intros n. apply acts_as_limit_forward. }
    apply acts_as_ret. }
  replace (CursorPaginator.mk _ _ _)
    with (f6 (f5 (f4 (f3 (f2 (f1 (CursorPaginator.mk "" DefaultPageSize true)))))));
    [exact Hy|].
  unfold f1, f2, f3, f4, f5, f6.
  destruct (String.eqb_spec (Get q "cursor") "") as [Ec|Ec];
    destruct (String.eqb (Get q "after") ""); destruct (String.eqb (Get q "before") "");
    destruct (queryInt q "limit"), (queryInt q "first"), (queryInt q "last");
    cbn; try rewrite Ec; reflexivity.
Qed.

(** [CursorFromQuery] takes the cursor from [before], else from
    [after], else from [cursor]; the limit from [last], else [first],
    else [limit], clamped as by [WithLimit], with [DefaultPageSize] when
    none is usable; and the direction is backward when [last] is usable,
    else forward when [first] is usable, else backward exactly when
    [before] is given.  A number is usable when [Atoi] reads it and it is
    positive.  Every object of the store before is unchanged. *)
Theorem cursor_from_query_precedence (q : gmap string (list string)) :
  yields (CursorPaginator.CursorFromQuery q)
    (CursorPaginator.mk
       (if negb (String.eqb (Get q "before") "") then Get q "before"
        else if negb (String.eqb (Get q "after") "") then Get q "after"
        else Get q "cursor")
       (match queryInt q "last" with
        | Some n => clampSize n
        | None => match queryInt q "first" with
                  | Some n => clampSize n
                  | None => match queryInt q "limit" with
                            | Some n => clampSize n
                            | None => DefaultPageSize
                            end
                  end
        end)
       (match queryInt q "last" with
        | Some _ => false
        | None => match queryInt q "first" with
                  | Some _ => true
                  | None => String.eqb (Get q "before") ""
                  end
        end)).
Proof.
  intros h. destruct (CursorFromQuery_yields q h) as (c & h' & E & Hc & Hsub).
  exists c, h'. auto.
Qed.

(** Whatever the query, [CursorFromQuery] ends in a cursor paginator
    whose limit lies between [MinPageSize] and [MaxPageSize]. *)
Theorem cursor_from_query_limit_in_bounds
    (q : gmap string (list string)) (h : gmap loc CursorPaginator.t) :
  exists c h' v,
    CursorPaginator.CursorFromQuery q h = Some (c, h') /\ h' !! c = Some v /\
    MinPageSize <= CursorPaginator.Limit v <= MaxPageSize.
Proof.
  destruct (CursorFromQuery_yields q h) as (c & h' & E & Hc & _).
  eexists c, h', _. split; [exact E|]. split; [exact Hc|].
  cbn [CursorPaginator.Limit].
  destruct (queryInt q "last"); [apply PaginatorFacts.clampSize_bounds|].
  destruct (queryInt q "first"); [apply PaginatorFacts.clampSize_bounds|].
  destruct (queryInt q "limit"); [apply PaginatorFacts.clampSize_bounds|].
  unfold MinPageSize, DefaultPageSize, MaxPageSize. lia.
Qed.

(** * The cursor paginator: query parameters *)

Lemma queryInt_absent q key : Get q key = EmptyString -> queryInt q key = None.
Proof. intros Hget. unfold queryInt. now rewrite Hget. Qed.

Ltac get_key := unfold Get; vm_compute; reflexivity.

Lemma cursor_params_after (a b : string) :
  let params : gmap string (list string) :=
    <["limit"%string := [a]]> (<["after"%string := [b]]> ∅) in
  Get params "cursor" = EmptyString /\ Get params "after" = b /\
  Get params "before" = EmptyString /\ Get params "limit" = a /\
  Get params "first" = EmptyString /\ Get params "last" = EmptyString.
Proof. repeat split; get_key. Qed.

Lemma cursor_params_before (a b : string) :
  let params : gmap string (list string) :=
    <["limit"%string := [a]]> (<["before"%string := [b]]> ∅) in
  Get params "cursor" = EmptyString /\ Get params "after" = EmptyString /\
  Get params "before" = b /\ Get params "limit" = a /\
  Get params "first" = EmptyString /\ Get params "last" = EmptyString.
Proof. repeat split; get_key. Qed.

Lemma cursor_params_limit (a : string) :
  let params : gmap string (list string) := <["limit"%string := [a]]> ∅ in
  Get params "cursor" = EmptyString /\ Get params "after" = EmptyString /\
  Get params "before" = EmptyString /\ Get params "limit" = a /\
  Get params "first" = EmptyString /\ Get params "last" = EmptyString.
Proof. repeat split; get_key. Qed.

(** [CursorFromQuery] reads back what [QueryParams()] writes, up to the
    direction of a paginator without cursor: from the query parameters
    of a cursor paginator whose limit is within the bounds it builds a
    new paginator with the same cursor and limit; the direction is the
    same when a cursor is set, and forward when none is set, since the
    parameters then carry no direction.  The receiver is unchanged. *)
Theorem cursor_from_query_of_query_params
    (h : gmap loc CursorPaginator.t) (c : loc) (v : CursorPaginator.t) :
  h !! c = Some v ->
  MinPageSize <= CursorPaginator.Limit v <= MaxPageSize ->
  exists c' h',
    (params ← CursorPaginator.QueryParams c; CursorPaginator.CursorFromQuery params) h
    = Some (c', h') /\
    h' !! c' = Some (CursorPaginator.mk (CursorPaginator.Cursor v) (CursorPaginator.Limit v)
                       (CursorPaginator.Forward v
                        || String.eqb (CursorPaginator.Cursor v) "")) /\
    h' !! c = Some v.
Proof.
  intros Hc Hlimit. unfold MinPageSize, MaxPageSize in Hlimit.
  unfold CursorPaginator.QueryParams. rewrite (bind_Some _ _ _ _ _ (load_bind _ _ _ _ Hc)).
  match goal with |- context [CursorPaginator.CursorFromQuery ?m] => set (params := m) end.
  destruct (CursorFromQuery_yields params h) as (c' & h' & E & Hc' & Hsub).
  exists c', h'. split; [exact E|]. split; [|apply (lookup_weaken _ _ _ _ Hc Hsub)].
  rewrite Hc'. f_equal.
  assert (Hclamp : clampSize (CursorPaginator.Limit v) = CursorPaginator.Limit v)
    by (apply PaginatorFacts.clampSize_cases; unfold MinPageSize, MaxPageSize; lia).
  assert (Hin : in_int64 (CursorPaginator.Limit v))
    by (unfold in_int64, MinInt64, MaxInt64; lia).
  unfold params. destruct v as [cursor limit forward]. cbn [CursorPaginator.Cursor
    CursorPaginator.Limit CursorPaginator.Forward] in *.
  destruct (String.eqb_spec cursor "") as [->|Hne]; cbn [negb].
  - destruct (cursor_params_limit (strconv.FormatInt limit)) as (G1 & G2 & G3 & G4 & G5 & G6).
    rewrite (queryInt_absent _ _ G6), (queryInt_absent _ _ G5).
    rewrite (queryInt_FormatInt _ "limit" limit G4 Hin ltac:(lia)).
    rewrite G1, G2, G3, Hclamp. cbn. now rewrite orb_true_r.
  - rewrite orb_false_r. destruct forward.
    + destruct (cursor_params_after (strconv.FormatInt limit) cursor)
        as (G1 & G2 & G3 & G4 & G5 & G6).
      rewrite (queryInt_absent _ _ G6), (queryInt_absent _ _ G5).
      rewrite (queryInt_FormatInt _ "limit" limit G4 Hin ltac:(lia)).
      rewrite G1, G2, G3, Hclamp. cbn [String.eqb negb].
      destruct (String.eqb_spec cursor ""); [contradiction | reflexivity].
    + destruct (cursor_params_before (strconv.FormatInt limit) cursor)
        as (G1 & G2 & G3 & G4 & G5 & G6).
      rewrite (queryInt_absent _ _ G6), (queryInt_absent _ _ G5).
      rewrite (queryInt_FormatInt _ "limit" limit G4 Hin ltac:(lia)).
      rewrite G1, G2, G3, Hclamp.
      destruct (String.eqb_spec cursor ""); [contradiction | reflexivity].
Qed.

Lemma cursor_from_query_of_query_params_witness :
  exists c' h',
    (params ← CursorPaginator.QueryParams 1%positive;
     CursorPaginator.CursorFromQuery params)
      {[ 1%positive := CursorPaginator.mk "abc" 50 false ]}
    = Some (c', h') /\
    h' !! c' = Some (CursorPaginator.mk "abc" 50 (false || String.eqb "abc" "")) /\
    h' !! 1%positive = Some (CursorPaginator.mk "abc" 50 false).
Proof.
  apply (cursor_from_query_of_query_params
           {[ 1%positive := CursorPaginator.mk "abc" 50 false ]} 1%positive
           (CursorPaginator.mk "abc" 50 false));
    [reflexivity
    | unfold MinPageSize, MaxPageSize; simpl CursorPaginator.Limit; lia].
Defined.

(** * The cursor codec: tokens *)

Lemma encodeChar_word d :
  0 <= d < 64 ->
  isWordChar (base64.encodeChar d) || Ascii.eqb (base64.encodeChar d) "-" = true.
Proof.
  intros Hd.
  assert (exists n, (n < 64)%nat /\ d = Z.of_nat n) as (n & Hn & ->)
    by (exists (Z.to_nat d); lia).
  unfold base64.encodeChar. rewrite Nat2Z.id.
  do 64 (destruct n as [|n]; [reflexivity|]). lia.
Qed.

Lemma EncodeToString_alphabet s :
  all_chars (fun c => isWordChar c || Ascii.eqb c "-" || Ascii.eqb c "=")
            (base64.EncodeToString s) = true /\
  (String.length (base64.EncodeToString s) mod 4 = 0)%nat.
Proof.
  induction s as [|a|a b|a b c rest [IH1 IH2]] using string_triple_ind.
  - split; reflexivity.
  - cbn [base64.EncodeToString all_chars String.length].
    rewrite !encodeChar_word by apply sextet_range. split; reflexivity.
  - cbn [base64.EncodeToString all_chars String.length].
    rewrite !encodeChar_word by apply sextet_range. split; reflexivity.
  - cbn [base64.EncodeToString all_chars String.length].
    rewrite !encodeChar_word by apply sextet_range. rewrite IH1. split; [reflexivity|].
    change (S (S (S (S (String.length (base64.EncodeToString rest))))))
      with (4 + String.length (base64.EncodeToString rest))%nat.
    rewrite <- Nat.Div0.add_mod_idemp_l. exact IH2.
Qed.

Section CursorTokens.
Context {T Time : Type} `{JSONValue T} `{TimeValue Time}.
Context (okV : T -> Prop) (okT : Time -> Prop).
Context `{!LosslessJSON T okV} `{!LosslessTime Time okT}.

(** The token that [EncodeCursor] returns, for any payload or none, and
    also beside an error, is made of letters, digits and the three bytes
    [-], [_] and [=] only, and its length is a multiple of four. *)
Theorem cursor_token_alphabet (data : option (CursorData T Time)) :
  all_chars (fun c => isWordChar c || Ascii.eqb c "-" || Ascii.eqb c "=")
            (fst (EncodeCursor data)) = true /\
  (String.length (fst (EncodeCursor data)) mod 4 = 0)%nat.
Proof.
  unfold EncodeCursor. destruct data as [d|]; [|split; reflexivity].
  destruct (Marshal d) as [b|]; [|split; reflexivity].
  apply EncodeToString_alphabet.
Qed.

(** [NewCursorFromValue] followed by [DecodeCursor] at the same value
    type gives the payload that holds the value and nothing else, for a
    value within a lossless coding. *)
Theorem new_cursor_from_value_round_trip (value : T) :
  okV value -> okT zeroTime ->
  exists token,
    NewCursorFromValue (Time := Time) value = (token, None) /\
    DecodeCursor token = (Some (mkCursorData EmptyString value zeroTime 0), None).
Proof.
  intros Hv Ht. unfold NewCursorFromValue.
  destruct (token_of_payload okV okT (mkCursorData EmptyString value zeroTime 0))
    as (b & _ & _ & Henc & Hdec).
  { split; [reflexivity|]. split; [exact Hv|]. split; [exact Ht|].
    unfold in_int64, MinInt64, MaxInt64. cbn. lia. }
  exists (base64.EncodeToString b). split; [exact Henc | exact Hdec].
Qed.

(** [EncodeCursor] is injective on what round-trips: two inputs, each
    nil or a representable payload, that get the same token without
    error are equal.  In particular only the nil payload gets the empty
    token. *)
Theorem encode_cursor_injective (x y : option (CursorData T Time)) :
  (forall p, x = Some p -> representable okV okT p) ->
  (forall p, y = Some p -> representable okV okT p) ->
  fst (EncodeCursor x) = fst (EncodeCursor y) ->
  x = y.
Proof.
  intros Hx Hy Heq.
  assert (Hsome : forall p, representable okV okT p ->
            exists b, b <> EmptyString /\
                      EncodeCursor (Some p) = (base64.EncodeToString b, None) /\
                      DecodeCursor (base64.EncodeToString b) = (Some p, None)).
  { intros p Hp. destruct (token_of_payload okV okT p Hp) as (b & _ & Hb & He & Hd).
    exists b. auto. }
  assert (Hne : forall b, b <> EmptyString -> base64.EncodeToString b <> EmptyString).
  { intros b Hb E. pose proof (EncodeToString_nonempty b Hb) as Hf.
    rewrite E in Hf. discriminate. }
  destruct x as [p|], y as [q|]; [| | |reflexivity].
  - destruct (Hsome p (Hx p eq_refl)) as (b & Hb & He & Hd).
    destruct (Hsome q (Hy q eq_refl)) as (b' & Hb' & He' & Hd').
    rewrite He, He' in Heq. cbn in Heq. rewrite Heq in Hd. rewrite Hd in Hd'.
    now injection Hd' as ->.
  - destruct (Hsome p (Hx p eq_refl)) as (b & Hb & He & _).
    rewrite He in Heq. cbn in Heq. now apply Hne in Heq.
  - destruct (Hsome q (Hy q eq_refl)) as (b & Hb & He & _).
    rewrite He in Heq. cbn in Heq. symmetry in Heq. now apply Hne in Heq.
Qed.

End CursorTokens.

Lemma new_cursor_from_value_round_trip_witness :
  exists token,
    NewCursorFromValue (Time := gotime.Time) 42 = (token, None) /\
    DecodeCursor token = (Some (mkCursorData EmptyString 42 gotime.zero 0), None).
Proof.
  assert (Hv : in_int64 42) by (unfold in_int64, MinInt64, MaxInt64; lia).
  assert (Ht : gotime.wholeSecondUTC gotime.zero = true) by reflexivity.
  exact (new_cursor_from_value_round_trip (T := Z) (Time := gotime.Time)
           in_int64 (fun x => gotime.wholeSecondUTC x = true) 42 Hv Ht).
Defined.

Lemma encode_cursor_injective_witness :
  (fst (EncodeCursor (Some sample_payload)) = fst (EncodeCursor (Some sample_payload))) /\
  Some sample_payload = Some sample_payload.
Proof.
  split; [reflexivity|].
  apply (encode_cursor_injective in_int64 (fun x => gotime.wholeSecondUTC x = true)
           (Some sample_payload) (Some sample_payload)).
  - intros p [= <-]. unfold representable, in_int64, MinInt64, MaxInt64. simpl.
    repeat split; try reflexivity; lia.
  - intros p [= <-]. unfold representable, in_int64, MinInt64, MaxInt64. simpl.
    repeat split; try reflexivity; lia.
  - reflexivity.
Defined.

(** * Connections *)

Section ConnectionFacts.
Context {T : Type}.

(** A loop that stores [g item] at the index of each item fills the
    slice from that index on with the images of the items. *)
Lemma rangeLoop_insert {A B} (g : A -> B) (rest : list A) :
  forall (i : nat) (st : list B),
    length st = (i + length rest)%nat ->
    Connection.rangeLoop (fun st i x => <[i := g x]> st) i rest st
    = take i st ++ map g rest.
Proof.
  induction rest as [|x rest IH]; intros i st Hlen; cbn [Connection.rangeLoop map].
  - rewrite app_nil_r. symmetry. apply take_ge. cbn in Hlen. lia.
  - cbn [length] in Hlen. rewrite IH by (rewrite length_insert; lia).
    rewrite (take_S_r _ i (g x)) by (apply list_lookup_insert_eq; lia).
    rewrite take_insert_ge by lia. now rewrite <- app_assoc.
Qed.

Lemma rangeLoop_loopBody (f : T -> string) (n : nat) (rest : list T) :
  forall (i : nat) (edges : list (Connection.Edge T)) (s e : string),
    length edges = n -> (i + length rest)%nat = n ->
    Connection.rangeLoop (Connection.loopBody f n) i rest (edges, s, e)
    = (take i edges ++ map (fun x => Connection.mkEdge x (f x)) rest,
       match rest with
       | x :: _ => if Nat.eqb i 0 then f x else s
       | [] => s
       end,
       match last rest with
       | Some x => f x
       | None => e
       end).
Proof.
  induction rest as [|x rest IH]; intros i edges s e Hlen Hn;
    cbn [Connection.rangeLoop map].
  - rewrite app_nil_r. cbn in Hn. rewrite take_ge by lia. reflexivity.
  - cbn [length] in Hn. cbn [Connection.loopBody].
    rewrite IH by (rewrite ?length_insert; lia).
    rewrite (take_S_r _ i (Connection.mkEdge x (f x)))
      by (apply list_lookup_insert_eq; lia).
    rewrite take_insert_ge by lia. rewrite <- app_assoc. cbn [app].
    f_equal; [f_equal|].
    + destruct rest as [|y rest]; [reflexivity|]. reflexivity.
    + destruct rest as [|y rest].
      * cbn [last length] in *.
        destruct (Z.eqb_spec (Z.of_nat i) (Z.of_nat n - 1)); [reflexivity | lia].
      * change (last (x :: y :: rest)) with (last (y :: rest)).
        destruct (last (y :: rest)) eqn:E; [reflexivity|].
        apply last_None in E. discriminate.
Qed.

(** [NewConnection] makes one edge for each item, in order, each with
    the item as its node and the cursor that the cursor function gives
    for the item; [Nodes()] gives the items back, and [Count()] is their
    number. *)
Theorem connection_nodes_are_the_items
    (zero : T) (items : list T) (cursorFn : T -> string)
    (hasPrev hasNext : bool) (total : Z) :
  let c := Connection.NewConnection zero items cursorFn hasPrev hasNext total in
  Connection.Edges c = map (fun x => Connection.mkEdge x (cursorFn x)) items /\
  Connection.Nodes zero c = items /\
  Connection.Count c = Z.of_nat (length items) /\
  (Connection.Empty c = true <-> items = []).
Proof.
  intros c.
  assert (HE : Connection.Edges c = map (fun x => Connection.mkEdge x (cursorFn x)) items).
  { unfold c, Connection.NewConnection.
    rewrite (rangeLoop_loopBody cursorFn (length items) items 0)
      by (rewrite ?length_replicate; reflexivity).
    reflexivity. }
  split; [exact HE|]. split; [|split].
  - unfold Connection.Nodes. rewrite HE.
    rewrite (rangeLoop_insert Connection.Node)
      by (rewrite length_replicate, length_map; reflexivity).
    cbn [take app]. rewrite map_map. cbn [Connection.Node]. apply map_id.
  - unfold Connection.Count. now rewrite HE, length_map.
  - unfold Connection.Empty. rewrite HE, length_map. rewrite Z.eqb_eq.
    destruct items; cbn [length]; split; intros; try reflexivity; try discriminate; lia.
Qed.

(** The page info of [NewConnection]: the start cursor is the cursor of
    the first item and the end cursor that of the last item; both are
    empty when there is no item; the two flags and the total count are
    the arguments. *)
Theorem connection_cursors_are_first_and_last
    (zero : T) (items : list T) (cursorFn : T -> string)
    (hasPrev hasNext : bool) (total : Z) :
  Connection.Info (Connection.NewConnection zero items cursorFn hasPrev hasNext total)
  = Connection.mkPageInfo hasPrev hasNext
      (match items with x :: _ => cursorFn x | [] => EmptyString end)
      (match last items with Some x => cursorFn x | None => EmptyString end) /\
  Connection.TotalCount (Connection.NewConnection zero items cursorFn hasPrev hasNext total)
  = total.
Proof.
  unfold Connection.NewConnection.
  rewrite (rangeLoop_loopBody cursorFn (length items) items 0)
    by (rewrite ?length_replicate; reflexivity).
  cbn [Connection.Info Connection.TotalCount Nat.eqb]. split; [|reflexivity].
  destruct items; reflexivity.
Qed.

End ConnectionFacts.

(** * Link headers *)

Lemma joinLinks_acc links : forall i acc,
  exists t, LinkHeader.joinLinks i links acc = acc +:+ t.
Proof.
  induction links as [|l links IH]; intros i acc; cbn [LinkHeader.joinLinks].
  - exists EmptyString. now rewrite append_nil_r.
  - destruct (IH (S i) ((if Nat.ltb 0 i then acc +:+ ", " else acc) +:+ l)) as [t ->].
    destruct (Nat.ltb 0 i); eexists; rewrite ?append_assoc; reflexivity.
Qed.

Lemma joinLinks_first target rel links :
  LinkHeader.joinLinks 0 (LinkHeader.link target rel :: links) EmptyString <> EmptyString.
Proof.
  cbn [LinkHeader.joinLinks Nat.ltb Nat.leb].
  destruct (joinLinks_acc links 1 (EmptyString +:+ LinkHeader.link target rel)) as [t ->].
  unfold LinkHeader.link. rewrite append_nil_l, append_assoc, append_cons. discriminate.
Qed.

(** [String()] of a link header is empty exactly when its four links
    are empty, and [SetHeader] calls the setter exactly when it is not:
    once, with the key [Link] and that string. *)
Theorem link_header_string_empty_iff (h : LinkHeader.t) :
  (LinkHeader.String_ h = EmptyString
   <-> LinkHeader.First h = EmptyString /\ LinkHeader.Prev h = EmptyString /\
       LinkHeader.Next h = EmptyString /\ LinkHeader.Last h = EmptyString) /\
  (LinkHeader.String_ h = EmptyString -> LinkHeader.SetHeader h = []) /\
  (LinkHeader.String_ h <> EmptyString ->
   LinkHeader.SetHeader h = [("Link"%string, LinkHeader.String_ h)]).
Proof.
  split; [|split].
  - destruct h as [f p n l]. unfold LinkHeader.String_.
    cbn [LinkHeader.First LinkHeader.Prev LinkHeader.Next LinkHeader.Last].
    destruct (String.eqb_spec f ""), (String.eqb_spec p ""),
      (String.eqb_spec n ""), (String.eqb_spec l ""); subst; cbn [negb app];
      try (split; [intros E; now apply joinLinks_first in E
                  | intros (? & ? & ? & ?); contradiction]).
    split; auto.
  - intros E. unfold LinkHeader.SetHeader. now rewrite E.
  - intros E. unfold LinkHeader.SetHeader.
    destruct (String.eqb_spec (LinkHeader.String_ h) ""); [contradiction | reflexivity].
Qed.

Lemma size_page_params (a b : string) :
  size (<["page_size"%string := [b]]>
          (<["page"%string := [a]]> (∅ : gmap string (list string)))) = 2%nat.
Proof. vm_compute. reflexivity. Qed.

Lemma buildURL_page_params baseURL page size :
  LinkHeader.buildURL baseURL
    (<["page_size"%string := [strconv.FormatInt size]]>
       (<["page"%string := [strconv.FormatInt page]]> ∅))
  = pageURL baseURL page size.
Proof.
  unfold LinkHeader.buildURL, pageURL. rewrite size_page_params. cbn [Nat.eqb].
  now rewrite Encode_page_params, !QueryEscape_FormatInt.
Qed.

Lemma insert_fresh_lookup {V} (h : gmap loc V) (p : loc) (v w : V) :
  h !! p = Some v -> <[fresh (dom h) := w]> h !! p = Some v.
Proof.
  intros Hp. rewrite lookup_insert_ne; [exact Hp|].
  intros E. pose proof (fresh_lookup_None h) as Hf. rewrite E in Hf. congruence.
Qed.

(** The query parameters of a page reached by [WithPage]. *)
Lemma page_link_step {A} h p v page (K : gmap string (list string) -> M Paginator.t A) :
  h !! p = Some v -> 1 <= page ->
  (q ← Paginator.WithPage p page;
   params ← Paginator.QueryParams q;
   K params) h
  = K (<["page_size"%string := [strconv.FormatInt (Paginator.PageSize v)]]>
         (<["page"%string := [strconv.FormatInt page]]> ∅))
      (<[fresh (dom h) := Paginator.mk page (Paginator.PageSize v)]> h).
Proof.
  intros Hp Hpage.
  rewrite (bind_Some _ _ _ _ _ (PaginatorFacts.WithPage_eq h p v page Hp)).
  destruct (Z.ltb_spec page 1); [lia|].
  now rewrite (bind_Some _ _ _ _ _ (QueryParams_run _ _ _ (lookup_insert_eq _ _ _))).
Qed.

Lemma HasPrevious_run h p v :
  h !! p = Some v -> Paginator.HasPrevious p h = Some (1 <? Paginator.Page v, h).
Proof.
  intros Hp. unfold Paginator.HasPrevious. rewrite (load_bind _ _ _ _ Hp).
  now rewrite Z.gtb_ltb.
Qed.

(** [BuildLinkHeader] on a valid paginator.  With a [total] that is not
    positive the header is empty and nothing is allocated.  With a
    positive [total] the first link is for page 1 and the last for page
    [TotalPages(total)]; the previous link is for page [Page - 1] and is
    there exactly when the page is above 1; the next link is for page
    [Page + 1] and is there exactly when [Page * PageSize < total].  Each
    link is the base URL followed by [?page=N&page_size=S].  The
    receiver is unchanged. *)
Theorem build_link_header_links
    (baseURL : string) (h : gmap loc Paginator.t) (p : loc) (v : Paginator.t)
    (total : Z) :
  h !! p = Some v -> valid v -> in_int64 (Paginator.Page v) -> in_int64 total ->
  exists tp hdr h',
    Paginator.TotalPages p total h = Some (tp, h) /\
    LinkHeader.BuildLinkHeader baseURL p total h = Some (hdr, h') /\
    h' !! p = Some v /\
    (total <= 0 ->
     hdr = LinkHeader.mk EmptyString EmptyString EmptyString EmptyString /\ h' = h) /\
    (0 < total ->
     LinkHeader.First hdr = pageURL baseURL 1 (Paginator.PageSize v) /\
     LinkHeader.Last hdr = pageURL baseURL tp (Paginator.PageSize v) /\
     LinkHeader.Prev hdr
     = (if 1 <? Paginator.Page v
        then pageURL baseURL (Paginator.Page v - 1) (Paginator.PageSize v)
        else EmptyString) /\
     LinkHeader.Next hdr
     = (if Paginator.Page v * Paginator.PageSize v <? total
        then pageURL baseURL (Paginator.Page v + 1) (Paginator.PageSize v)
        else EmptyString)).
Proof.
  intros Hp Hvalid Hin Htotal. pose proof Hvalid as (Hpage & Hps1 & Hps2).
  unfold MinPageSize, MaxPageSize in Hps1, Hps2.
  destruct (TotalPages_run h p v total Hp Htotal) as (tp & E & H0 & H1).
  exists tp. unfold LinkHeader.BuildLinkHeader. rewrite (bind_Some _ _ _ _ _ E).
  destruct (Z.lt_ge_cases 0 total) as [Hpos|Hneg].
  - specialize (H1 Hpos ltac:(lia)). assert (Htp : 1 <= tp) by nia.
    destruct (Z.eqb_spec tp 0); [lia|].
    rewrite (page_link_step h p v 1 _ Hp ltac:(lia)).
    set (h1 := <[fresh (dom h) := Paginator.mk 1 (Paginator.PageSize v)]> h).
    assert (Hp1 : h1 !! p = Some v) by (apply insert_fresh_lookup, Hp).
    rewrite (page_link_step h1 p v tp _ Hp1 Htp). cbv zeta.
    rewrite !buildURL_page_params.
    set (h2 := <[fresh (dom h1) := Paginator.mk tp (Paginator.PageSize v)]> h1).
    assert (Hp2 : h2 !! p = Some v) by (apply insert_fresh_lookup, Hp1).
    rewrite (bind_Some _ _ _ _ _ (HasPrevious_run h2 p v Hp2)).
    assert (Hprev : exists h3,
               h3 !! p = Some v /\
               (if 1 <? Paginator.Page v
                then page ← Paginator.PreviousPage p;
                     prev ← Paginator.WithPage p page;
                     params ← Paginator.QueryParams prev;
                     mret (LinkHeader.buildURL baseURL params)
                else mret EmptyString) h2
               = Some (if 1 <? Paginator.Page v
                       then pageURL baseURL (Paginator.Page v - 1) (Paginator.PageSize v)
                       else EmptyString, h3)).
    { destruct (Z.ltb_spec 1 (Paginator.Page v)) as [Hgt|Hle].
      - eexists. split; cycle 1.
        + unfold Paginator.PreviousPage.
          erewrite bind_Some; cycle 1.
          { rewrite (load_bind _ _ _ _ Hp2). reflexivity. }
          destruct (Z.leb_spec (Paginator.Page v) 1); [lia|].
          rewrite wrap64_id by (unfold in_int64, MinInt64, MaxInt64 in *; lia).
          rewrite (page_link_step h2 p v (Paginator.Page v - 1) _ Hp2 ltac:(lia)).
          now rewrite buildURL_page_params.
        + apply insert_fresh_lookup, Hp2.
      - exists h2. split; [exact Hp2 | reflexivity]. }
    destruct Hprev as (h3 & Hp3 & Eprev). rewrite (bind_Some _ _ _ _ _ Eprev).
    rewrite (bind_Some _ _ _ _ _ (HasNext_run h3 p v total Hp3 Htotal Hpage ltac:(lia))).
    assert (Hnext : exists h4,
               h4 !! p = Some v /\
               (if Paginator.Page v * Paginator.PageSize v <? total
                then page ← Paginator.NextPage p;
                     next ← Paginator.WithPage p page;
                     params ← Paginator.QueryParams next;
                     mret (LinkHeader.buildURL baseURL params)
                else mret EmptyString) h3
               = Some (if Paginator.Page v * Paginator.PageSize v <? total
                       then pageURL baseURL (Paginator.Page v + 1) (Paginator.PageSize v)
                       else EmptyString, h4)).
    { destruct (Z.ltb_spec (Paginator.Page v * Paginator.PageSize v) total) as [Hlt|Hge].
      - assert (Hsmall : Paginator.Page v < MaxInt64).
        { unfold in_int64, MinInt64, MaxInt64 in *. nia. }
        eexists. split; cycle 1.
        + unfold Paginator.NextPage.
          erewrite bind_Some; cycle 1.
          { rewrite (load_bind _ _ _ _ Hp3). reflexivity. }
          rewrite wrap64_id by (unfold in_int64, MinInt64, MaxInt64 in *; lia).
          rewrite (page_link_step h3 p v (Paginator.Page v + 1) _ Hp3 ltac:(lia)).
          now rewrite buildURL_page_params.
        + apply insert_fresh_lookup, Hp3.
      - exists h3. split; [exact Hp3 | reflexivity]. }
    destruct Hnext as (h4 & Hp4 & Enext). rewrite (bind_Some _ _ _ _ _ Enext).
    eexists _, h4. split; [exact E|]. split; [reflexivity|]. split; [exact Hp4|].
    split; [lia|]. intros _. cbn [LinkHeader.First LinkHeader.Last LinkHeader.Prev
                                 LinkHeader.Next]. auto.
  - rewrite (H0 ltac:(lia)). cbn [Z.eqb].
    eexists _, h. split; [rewrite E; now rewrite (H0 ltac:(lia))|]. split; [reflexivity|].
    split; [exact Hp|]. split; [auto | lia].
Qed.

Lemma build_link_header_links_witness :
  exists tp hdr h',
    Paginator.TotalPages 1%positive 100 {[ 1%positive := Paginator.mk 3 20 ]}
    = Some (tp, {[ 1%positive := Paginator.mk 3 20 ]}) /\
    LinkHeader.BuildLinkHeader "https://example.com" 1%positive 100
      {[ 1%positive := Paginator.mk 3 20 ]} = Some (hdr, h') /\
    h' !! 1%positive = Some (Paginator.mk 3 20) /\
    (100 <= 0 ->
     hdr = LinkHeader.mk EmptyString EmptyString EmptyString EmptyString /\
     h' = {[ 1%positive := Paginator.mk 3 20 ]}) /\
    (0 < 100 ->
     LinkHeader.First hdr = pageURL "https://example.com" 1 20 /\
     LinkHeader.Last hdr = pageURL "https://example.com" tp 20 /\
     LinkHeader.Prev hdr
     = (if 1 <? 3 then pageURL "https://example.com" (3 - 1) 20 else EmptyString) /\
     LinkHeader.Next hdr
     = (if 3 * 20 <? 100 then pageURL "https://example.com" (3 + 1) 20 else EmptyString)).
Proof.
  apply (build_link_header_links "https://example.com"
           {[ 1%positive := Paginator.mk 3 20 ]} 1%positive (Paginator.mk 3 20) 100);
    [reflexivity
    | unfold valid, MinPageSize, MaxPageSize; simpl Paginator.Page;
      simpl Paginator.PageSize; lia
    | unfold in_int64, MinInt64, MaxInt64; simpl Paginator.Page; lia
    | unfold in_int64, MinInt64, MaxInt64; lia].
Defined.

(** * Pages *)

(** [NewPage] on a paginator with a page of at least 1 and a positive
    page size: the response carries the items, the total, the page and
    the page size as given; its [TotalPages] is what
    [Paginator.TotalPages] returns; [HasPrev] is true exactly when the
    page is above 1, and [HasNext] exactly when
    [Page * PageSize < total].  Nothing is written. *)
Theorem new_page_flags
    {T : Type} (items : list T) (total : Z)
    (h : gmap loc Paginator.t) (p : loc) (v : Paginator.t) :
  h !! p = Some v -> in_int64 total ->
  1 <= Paginator.Page v -> 0 < Paginator.PageSize v ->
  exists tp,
    Paginator.TotalPages p total h = Some (tp, h) /\
    Page.NewPage items total p h
    = Some (Page.mk items total (Paginator.Page v) (Paginator.PageSize v) tp
              (1 <? Paginator.Page v)
              (Paginator.Page v * Paginator.PageSize v <? total), h) /\
    Page.Count (Page.mk items total (Paginator.Page v) (Paginator.PageSize v) tp
                  (1 <? Paginator.Page v)
                  (Paginator.Page v * Paginator.PageSize v <? total))
    = Z.of_nat (length items).
Proof.
  intros Hp Htotal Hpage Hps.
  destruct (TotalPages_run h p v total Hp Htotal) as (tp & E & _).
  exists tp. split; [exact E|]. split; [|reflexivity].
  unfold Page.NewPage. rewrite (bind_Some _ _ _ _ _ E), (load_bind _ _ _ _ Hp).
  rewrite (bind_Some _ _ _ _ _ (HasPrevious_run h p v Hp)).
  rewrite (bind_Some _ _ _ _ _ (HasNext_run h p v total Hp Htotal Hpage Hps)).
  reflexivity.
Qed.

Lemma new_page_flags_witness :
  exists tp,
    Paginator.TotalPages 1%positive 100 {[ 1%positive := Paginator.mk 5 20 ]}
    = Some (tp, {[ 1%positive := Paginator.mk 5 20 ]}) /\
    Page.NewPage ["a"; "b"]%string 100 1%positive {[ 1%positive := Paginator.mk 5 20 ]}
    = Some (Page.mk ["a"; "b"]%string 100 5 20 tp (1 <? 5) (5 * 20 <? 100),
            {[ 1%positive := Paginator.mk 5 20 ]}) /\
    Page.Count (Page.mk ["a"; "b"]%string 100 5 20 tp (1 <? 5) (5 * 20 <? 100))
    = Z.of_nat (length ["a"; "b"]%string).
Proof.
  apply (new_page_flags ["a"; "b"]%string 100
           {[ 1%positive := Paginator.mk 5 20 ]} 1%positive (Paginator.mk 5 20));
    [reflexivity | unfold in_int64, MinInt64, MaxInt64; lia
    | simpl Paginator.Page; lia | simpl Paginator.PageSize; lia].
Defined.
